(** * statsd: the central log processor and its multi-condition trigger

    A shallow embedding of [statsd/src/StatsLogProcessor.cpp] and
    [statsd/src/utils/MultiConditionTrigger.cpp].

    Conventions of the embedding.
    - [int32_t], [int64_t] and [size_t] values are integers of [Z] (sizes of
      [N]).  Signed overflow is undefined behaviour in C++, so the model
      describes the executions in which no signed operation overflows; the
      only unsigned conversion of the processor (the disk-write cool-down) is
      written out with its wrap-around.
    - [std::unordered_map] and [std::set] members are [gmap]s and [gset]s.
    - A member function that mutates the processor is a computation of the
      monad [Proc]: it threads the processor state and appends to a log of
      the calls made on collaborators (statistics singleton, storage,
      broadcast callbacks, the managers themselves).
    - Classes that the processor only uses through their interface
      ([MetricsManager], [StatsdConfig], the constants of [StatsdStats]) are
      type classes; what the operating system answers during one call
      (clock, permissions, callbacks' results, files) is a record [Env]. *)

From Stdlib Require Import ZArith List Lia.
From stdpp Require Import base gmap sets list strings pretty.

Local Open Scope Z_scope.

(** ** MultiConditionTrigger *)

Module MultiConditionTrigger.

  (** The object: the set of names still awaited and the completion flag.
      [mTrigger] is the callback; a dispatch of it on its executor thread is
      observed as the boolean each operation returns. *)
Record t := Build {
    mRemainingConditionNames : gset string;
    mCompleted : bool
  }.

  (** Constructor: completed at once when the set of names is empty, and
      then the trigger is dispatched. *)
Definition create (conditionNames : gset string) : t * bool :=
    let completed := bool_decide (conditionNames = ∅) in
    (Build conditionNames completed, completed).

  (** [markComplete]: the returned boolean is [doTrigger]. *)
Definition markComplete (conditionName : string) (s : t) : t * bool :=
    if mCompleted s then (s, false)
    else
      let remaining := mRemainingConditionNames s ∖ {[conditionName]} in
      let completed := bool_decide (remaining = ∅) in
      (Build remaining completed, completed).

  (** The states a trigger goes through: [states names calls] lists the
      state after construction and after each call, [dispatches] lists
      whether the constructor and each call dispatched the trigger. *)
Fixpoint run_from (s : t) (calls : list string) : list (t * bool) :=
    match calls with
    | [] => []
    | c :: calls' =>
        let r := markComplete c s in r :: run_from (fst r) calls'
    end.

Definition run (conditionNames : gset string) (calls : list string)
    : list (t * bool) :=
    create conditionNames :: run_from (fst (create conditionNames)) calls.

Definition states names calls : list t := fst <$> run names calls.
Definition dispatches names calls : list bool := snd <$> run names calls.

  (** Number of dispatches of the trigger over the whole lifetime. *)
Definition dispatch_count names calls : nat :=
    length (filter (λ b, b = true) (dispatches names calls)).

  (** A state is reachable when some construction and calls lead to it. *)
Definition reachable (s : t) : Prop :=
    ∃ names calls, last (states names calls) = Some s.

  (** The completion flag says whether names remain. *)
Definition flag_agrees (s : t) : Prop :=
    mCompleted s = bool_decide (mRemainingConditionNames s = ∅).

  (** [first_empty_at l i]: the [i]-th state of [l] is the first one whose
      set of remaining names is empty. *)
Definition first_empty_at (l : list t) (i : nat) : Prop :=
    ∃ s, l !! i = Some s ∧ mRemainingConditionNames s = ∅ ∧
         ∀ j s', (j < i)%nat → l !! j = Some s' →
                 mRemainingConditionNames s' ≠ ∅.

End MultiConditionTrigger.

(** ** Data model of the processor *)

(** [ConfigKey]: the (uid, id) pair that names a configuration. *)
Record ConfigKey := mkConfigKey { GetUid : Z; GetId : Z }.

Global Instance ConfigKey_eq_dec : EqDecision ConfigKey.
Proof. solve_decision. Defined.

Global Instance ConfigKey_countable : Countable ConfigKey.
Proof.
  refine (inj_countable' (λ k, (GetUid k, GetId k))
                         (λ p, mkConfigKey p.1 p.2) _).
  by intros [].
Defined.

(** Time helpers of [stats_log_util.h]; C++ division truncates. *)
Definition NS_PER_SEC : Z := 1000000000.
Definition MillisToNano (millis : Z) : Z := millis * 1000000.
Definition NanoToMillis (nanos : Z) : Z := nanos `quot` 1000000.
Definition NanoToSeconds (nanos : Z) : Z := nanos `quot` NS_PER_SEC.

(** [WRITE_DATA_COOL_DOWN_SEC] of the source file. *)
Definition WRITE_DATA_COOL_DOWN_SEC : Z := 15.

(** [static_cast<unsigned long long>] of an [int64_t]. *)
Definition to_uint64 (x : Z) : Z := x `mod` 2 ^ 64.

(** *** Log events *)

(** Modelled from the spec: [LogEvent] (logd/LogEvent.h) is not among the
    sources.  Following the data model of the specification an event has a
    tag id, an elapsed-realtime timestamp, the uid and pid of its origin, a
    validity flag and a positional list of typed field values, with an
    optional attribution chain given as a range of indices of that list.
    The accessors [GetLong], [GetString], ... take the field id that the
    call sites of the source document (the first field has id 1) and report
    an error status when the position does not exist or holds a value of
    another type; on success they leave the status alone. *)
Inductive Value :=
| INT (v : Z)
| LONG (v : Z)
| FLOAT (v : Z)
| DOUBLE (v : Z)
| STRING (s : string)
| STORAGE (bytes : list Z).

Record FieldValue := mkFieldValue {
  mValue : Value;
  (** the field carries the is_uid annotation *)
  isUidField : bool;
  (** the field is the uid of a node of the attribution chain *)
  isAttributionUidField : bool
}.

Record LogEvent := mkLogEvent {
  mTagId : Z;
  mElapsedTimestampNs : Z;
  mLogUid : Z;
  mLogPid : Z;
  mValid : bool;
  mParsedHeaderOnly : bool;
  mRestricted : bool;
  mValues : list FieldValue;
  mAttributionChainIndexRange : option (nat * nat)
}.

Inductive status_t := NO_ERROR | BAD_INDEX | BAD_TYPE.

Global Instance status_t_eq_dec : EqDecision status_t.
Proof. solve_decision. Defined.

(** What a sequence of [Get*] calls leaves in the shared [err] variable: a
    failing call overwrites it, a successful one does not touch it. *)
Definition write_err (err : status_t) (written : status_t) : status_t :=
  match written with NO_ERROR => err | _ => written end.

Definition event_size (event : LogEvent) : Z := Z.of_nat (length (mValues event)).

(** The value stored for field id [key] (1-based). *)
Definition field_at (event : LogEvent) (key : Z) : option Value :=
  if bool_decide (1 ≤ key ≤ event_size event)
  then mValue <$> mValues event !! Z.to_nat (key - 1)
  else None.

Definition GetLong (event : LogEvent) (key : Z) : Z * status_t :=
  match field_at event key with
  | Some (LONG v) => (v, NO_ERROR)
  | Some (INT v) => (v, NO_ERROR)
  | Some _ => (0, BAD_TYPE)
  | None => (0, BAD_INDEX)
  end.

Definition GetInt (event : LogEvent) (key : Z) : Z * status_t :=
  match field_at event key with
  | Some (INT v) => (v, NO_ERROR)
  | Some _ => (0, BAD_TYPE)
  | None => (0, BAD_INDEX)
  end.

Definition GetString (event : LogEvent) (key : Z) : string * status_t :=
  match field_at event key with
  | Some (STRING s) => (s, NO_ERROR)
  | Some _ => (EmptyString, BAD_TYPE)
  | None => (EmptyString, BAD_INDEX)
  end.

Definition GetBool (event : LogEvent) (key : Z) : bool * status_t :=
  match field_at event key with
  | Some (INT v) => (negb (bool_decide (v = 0)), NO_ERROR)
  | Some (LONG v) => (negb (bool_decide (v = 0)), NO_ERROR)
  | Some _ => (false, BAD_TYPE)
  | None => (false, BAD_INDEX)
  end.

Definition GetStorage (event : LogEvent) (key : Z) : list Z * status_t :=
  match field_at event key with
  | Some (STORAGE b) => (b, NO_ERROR)
  | Some _ => ([], BAD_TYPE)
  | None => ([], BAD_INDEX)
  end.

Definition same_type (a b : Value) : bool :=
  match a, b with
  | INT _, INT _ | LONG _, LONG _ | FLOAT _, FLOAT _ | DOUBLE _, DOUBLE _
  | STRING _, STRING _ | STORAGE _, STORAGE _ => true
  | _, _ => false
  end.

Definition with_values (event : LogEvent) (values : list FieldValue) : LogEvent :=
  mkLogEvent (mTagId event) (mElapsedTimestampNs event) (mLogUid event)
             (mLogPid event) (mValid event) (mParsedHeaderOnly event)
             (mRestricted event) values (mAttributionChainIndexRange event).

Definition with_mValue (fv : FieldValue) (v : Value) : FieldValue :=
  mkFieldValue v (isUidField fv) (isAttributionUidField fv).

(** [updateValue(key, value, type)]: the field with id [key] takes the new
    value when it exists and holds a value of the given type. *)
Definition updateValue (key : Z) (value : Value) (event : LogEvent) : LogEvent :=
  if bool_decide (1 ≤ key ≤ event_size event) then
    match mValues event !! Z.to_nat (key - 1) with
    | Some fv =>
        if same_type (mValue fv) value
        then with_values event
               (<[Z.to_nat (key - 1) := with_mValue fv value]> (mValues event))
        else event
    | None => event
    end
  else event.

(** *** Train information *)

(** The values of [BinaryPushStateChanged.State] that the processor
    distinguishes; the generated header that numbers them is not among the
    sources, so the numbering is a parameter ([AtomsProto] below). *)
Inductive BinaryPushState :=
| INSTALL_SUCCESS
| INSTALLER_ROLLBACK_INITIATED
| INSTALLER_ROLLBACK_SUCCESS
| OTHER_STATE (code : Z).

(** Likewise for [WatchdogRollbackOccurred.RollbackType]. *)
Inductive RollbackType :=
| ROLLBACK_INITIATE
| ROLLBACK_SUCCESS
| OTHER_ROLLBACK_TYPE (code : Z).

Record InstallTrainInfo := mkInstallTrainInfo {
  trainVersionCode : Z;
  trainName : string;
  status : BinaryPushState;
  experimentIds : list Z;
  requiresStaging : bool;
  rollbackEnabled : bool;
  requiresLowLatencyMonitor : bool
}.

Definition with_trainVersionCode (v : Z) (t : InstallTrainInfo) :=
  mkInstallTrainInfo v (trainName t) (status t) (experimentIds t)
    (requiresStaging t) (rollbackEnabled t) (requiresLowLatencyMonitor t).

Definition with_experimentIds (ids : list Z) (t : InstallTrainInfo) :=
  mkInstallTrainInfo (trainVersionCode t) (trainName t) (status t) ids
    (requiresStaging t) (rollbackEnabled t) (requiresLowLatencyMonitor t).

Definition with_rollback_bits (disk t : InstallTrainInfo) :=
  mkInstallTrainInfo (trainVersionCode t) (trainName t) (status t)
    (experimentIds t) (requiresStaging disk) (rollbackEnabled disk)
    (requiresLowLatencyMonitor disk).

(** *** Restricted queries *)

Inductive InvalidQueryReason :=
| UNKNOWN_REASON
| FLAG_DISABLED
| UNSUPPORTED_SQLITE_VERSION
| AMBIGUOUS_CONFIG_KEY
| CONFIG_KEY_NOT_FOUND
| CONFIG_KEY_WITH_UNMATCHED_DELEGATE
| QUERY_FAILURE
| INCONSISTENT_ROW_SIZE.

Inductive DumpReportReason :=
| DEVICE_SHUTDOWN | CONFIG_UPDATED | CONFIG_REMOVED | GET_DATA_CALLED
| ADB_DUMP | CONFIG_RESET | STATSCOMPANION_DIED | TERMINATION_SIGNAL_RECEIVED.

Inductive DumpLatency := NO_TIME_CONSTRAINTS | FAST.

(** *** Calls on collaborators

    Every call the processor makes on a collaborator that is visible outside
    it is recorded, in order: the statistics singleton, storage, the
    restricted database, the broadcast and query callbacks, the uid map, the
    state manager, the puller manager, the event filter, and the entry
    points of the managers that hand them events or discard their data.
    Diagnostic logging ([VLOG], [ALOGE], ...) is not recorded. *)
Inductive Effect :=
(* StatsdStats *)
| StatsdStats_noteAtomLogged (atomId eventTimeSec : Z) (parsedHeaderOnly : bool)
| StatsdStats_noteAtomError (atomId : Z)
| StatsdStats_noteDataDropped (key : ConfigKey) (totalBytes : N)
| StatsdStats_noteBroadcastSent (key : ConfigKey)
| StatsdStats_noteActiveStatusChanged (key : ConfigKey) (active : bool)
| StatsdStats_noteActivationBroadcastGuardrailHit (uid : Z)
| StatsdStats_noteConfigReset (key : ConfigKey)
| StatsdStats_noteConfigRemoved (key : ConfigKey)
| StatsdStats_noteDbDeletionConfigRemoved (key : ConfigKey)
| StatsdStats_noteDbDeletionConfigUpdated (key : ConfigKey)
| StatsdStats_noteDbConfigInvalid (key : ConfigKey)
| StatsdStats_noteDeviceInfoTableCreationFailed (key : ConfigKey)
| StatsdStats_noteQueryRestrictedMetricFailed
    (configId : Z) (configPackage : string) (configUid : option Z)
    (callingUid : Z) (reason : InvalidQueryReason)
| StatsdStats_noteQueryRestrictedMetricSucceed
    (configId : Z) (configPackage : string) (configUid : Z) (callingUid : Z)
(* StorageManager and dbutils *)
| StorageManager_readTrainInfo (name : string)
| StorageManager_writeTrainInfo (info : InstallTrainInfo)
| StorageManager_readConfigFromDisk (key : ConfigKey)
| StorageManager_writeDataFile (wallClockSec : Z) (key : ConfigKey)
| StorageManager_writeHistoryFile (wallClockSec : Z) (key : ConfigKey)
| StorageManager_enforceDbGuardrails (wallClockSec : Z)
| dbutils_deleteDb (key : ConfigKey)
| dbutils_updateDeviceInfoTable (key : ConfigKey)
| dbutils_query (key : ConfigKey) (sql : string)
(* callbacks given to the constructor *)
| call_mSendBroadcast (key : ConfigKey) (sent : bool)
| call_mSendActivationBroadcast (uid : Z) (activeConfigs : list Z) (sent : bool)
| call_mSendRestrictedMetricsBroadcast
    (key : ConfigKey) (delegatePackage : string) (metricIds : list Z)
(* IStatsQueryCallback *)
| callback_sendFailure (error : string)
| callback_sendResults (queryData columnNames : list string)
                       (columnTypes : list Z) (rowCount : nat)
(* MetricsManager *)
| MetricsManager_onLogEvent (key : ConfigKey) (event : LogEvent)
| MetricsManager_dropData (key : ConfigKey) (dropTimeNs : Z)
| MetricsManager_flushRestrictedData (key : ConfigKey)
| MetricsManager_onDumpReport (key : ConfigKey) (dumpTimeNs : Z) (erase_data : bool)
(* UidMap, StateManager, StatsPullerManager, AlarmMonitor, LogEventFilter *)
| UidMap_OnConfigUpdated (key : ConfigKey)
| UidMap_OnConfigRemoved (key : ConfigKey)
| UidMap_appendUidMap (key : ConfigKey) (dumpTimeNs : Z)
| StateManager_onLogEvent (event : LogEvent)
| StatsPullerManager_ClearPullerCacheIfNecessary (timestampNs : Z)
| StatsPullerManager_ForceClearPullerCache
| AlarmMonitor_popSoonerThan (timestampSec : Z)
| LogEventFilter_setAtomIds.

(** *** The interfaces the processor is written against *)

(** [MetricsManager] and [StatsdConfig] are not among the sources; the
    processor uses them through this interface only.  [M] is the state of a
    manager, [C] a configuration; a member function that mutates the manager
    returns its new state. *)
Class MetricsManager (M C : Type) := {
  (** constructor: key, config, time base, current time *)
  newMetricsManager : ConfigKey → C → Z → Z → M;
  isConfigValid : M → bool;
  init : M → M;
  refreshTtl : Z → M → M;
  isInTtl : Z → M → bool;
  (** config, time base, current time; the result says whether the updated
      configuration is valid *)
  updateConfig : C → Z → Z → M → bool * M;
  hasRestrictedMetricsDelegate : M → bool;
  getRestrictedMetricsDelegate : M → string;
  validateRestrictedMetricsDelegate : Z → M → bool;
  getAllMetricIds : M → list Z;
  getNumMetrics : M → Z;
  isActive : M → bool;
  onLogEvent : LogEvent → M → M;
  (** timestamp and fired alarms; returns the alarms left *)
  onAnomalyAlarmFired : Z → list Z → M → M * list Z;
  byteSize : M → N;
  getMaxMetricsBytes : M → N;
  getTriggerGetDataBytes : M → N;
  dropData : Z → M → M;
  flushRestrictedData : M → M;
  enforceRestrictedDataTtls : Z → M → M;
  shouldWriteToDisk : M → bool;
  shouldPersistLocalHistory : M → bool;
  (** dump time, wall clock, include_current_partial_bucket, erase_data,
      latency; the bytes of the report are not modelled *)
  onDumpReport : Z → Z → bool → bool → DumpLatency → M → M;
  (** [StatsdConfig::has_restricted_metrics_delegate_package_name] *)
  has_restricted_metrics_delegate_package_name : C → bool
}.

(** The constants of [guardrail/StatsdStats.h] and of the Android headers
    that the source file uses; their values are not among the sources. *)
Class StatsdStats := {
  kMinByteSizeCheckPeriodNs : Z;
  kMinBroadcastPeriodNs : Z;
  kMinActivationBroadcastPeriodNs : Z;
  kMinTtlCheckPeriodNs : Z;
  kMinFlushRestrictedPeriodNs : Z;
  kMinDbGuardrailEnforcementPeriodNs : Z;
  kPullerCacheClearIntervalSec : Z;
  kBytesPerRestrictedConfigTriggerFlush : N;
  AID_STATSD : Z
}.

(** The atoms that the processor treats specially. *)
Inductive Atom :=
| BINARY_PUSH_STATE_CHANGED
| WATCHDOG_ROLLBACK_OCCURRED
| ISOLATED_UID_CHANGED
| APP_BREADCRUMB_REPORTED
| OTHER_ATOM.

Global Instance Atom_eq_dec : EqDecision Atom.
Proof. solve_decision. Defined.

(** The numbering of the generated [statslog_statsd.h], which is not among
    the sources: the atom that a tag id names, and the enum values that the
    codes of a status and of a rollback type name.  A comparison
    [atomId == util::X] of the source reads [atom_of_id atomId = X]. *)
Class AtomsProto := {
  atom_of_id : Z → Atom;
  BinaryPushState_of_code : Z → BinaryPushState;
  RollbackType_of_code : Z → RollbackType
}.

(** The result of [dbutils::query]: success flag, rows, column types,
    column names and error text. *)
Record QueryResult := mkQueryResult {
  query_ok : bool;
  query_rows : list (list string);
  query_columnTypes : list Z;
  query_columnNames : list string;
  query_err : string
}.

(** What the rest of the system answers during one call into the processor:
    clocks, permissions, the results of the callbacks, files and databases,
    and the codec of experiment ids. *)
Record Env (C : Type) := mkEnv {
  getElapsedRealtimeNs : Z;
  getWallClockNs : Z;
  getWallClockSec : Z;
  isAtLeastU : bool;
  checkPermissionForIds : string → Z → Z → bool;
  mSendBroadcast : ConfigKey → bool;
  mSendActivationBroadcast : Z → list Z → bool;
  readConfigFromDisk : ConfigKey → option C;
  popSoonerThan : Z → list Z;
  updateDeviceInfoTable : ConfigKey → bool;
  getDbVersion : Z;
  query : ConfigKey → string → QueryResult;
  sAidToUidMapping : string → option Z;
  getAppUid : string → gset Z;
  ExperimentIds_ParseFromArray : list Z → option (list Z);
  writeExperimentIdsToProto : list Z → list Z;
  (** what an [InstallTrainInfo] local holds before anything is read in it *)
  uninitialized_InstallTrainInfo : InstallTrainInfo
}.

Arguments getElapsedRealtimeNs {C} _.
Arguments getWallClockNs {C} _.
Arguments getWallClockSec {C} _.
Arguments isAtLeastU {C} _.
Arguments checkPermissionForIds {C} _ _ _ _.
Arguments mSendBroadcast {C} _ _.
Arguments mSendActivationBroadcast {C} _ _ _.
Arguments readConfigFromDisk {C} _ _.
Arguments popSoonerThan {C} _ _.
Arguments updateDeviceInfoTable {C} _ _.
Arguments getDbVersion {C} _.
Arguments query {C} _ _ _.
Arguments sAidToUidMapping {C} _ _.
Arguments getAppUid {C} _ _.
Arguments ExperimentIds_ParseFromArray {C} _ _.
Arguments writeExperimentIdsToProto {C} _ _.
Arguments uninitialized_InstallTrainInfo {C} _.

Definition kPermissionDump : string := "android.permission.DUMP".
Definition kPermissionUsage : string := "android.permission.PACKAGE_USAGE_STATS".

(** *** State

    The members of [StatsLogProcessor] that the modelled functions read or
    write, followed by the state of the two collaborators whose contents the
    processor depends on: the isolated-uid table of the [UidMap] and the
    train records of the [StorageManager].

    Modelled from the spec: [UidMap] and [StorageManager] are not among the
    sources.  The uid map sends an isolated uid to its host uid and any other
    uid to itself; train records are persisted per train, keyed by train
    name, a write replacing the record of that name. *)
Record State (M : Type) := mkState {
  mMetricsManagers : gmap ConfigKey M;
  mLastBroadcastTimes : gmap ConfigKey Z;
  mLastActivationBroadcastTimes : gmap Z Z;
  mLastByteSizeTimes : gmap ConfigKey Z;
  mLastTtlTime : Z;
  mLastFlushRestrictedTime : Z;
  mLastDbGuardrailEnforcementTime : Z;
  mOnDiskDataConfigs : gset ConfigKey;
  mTimeBaseNs : Z;
  mLastPullerCacheClearTimeSec : Z;
  mLastWriteTimeNs : Z;
  mNextAnomalyAlarmTime : Z;
  mIsolatedUidMap : gmap Z Z;
  trainInfoOnDisk : gmap string InstallTrainInfo
}.

Arguments mkState {M}.
Arguments mMetricsManagers {M} _.
Arguments mLastBroadcastTimes {M} _.
Arguments mLastActivationBroadcastTimes {M} _.
Arguments mLastByteSizeTimes {M} _.
Arguments mLastTtlTime {M} _.
Arguments mLastFlushRestrictedTime {M} _.
Arguments mLastDbGuardrailEnforcementTime {M} _.
Arguments mOnDiskDataConfigs {M} _.
Arguments mTimeBaseNs {M} _.
Arguments mLastPullerCacheClearTimeSec {M} _.
Arguments mLastWriteTimeNs {M} _.
Arguments mNextAnomalyAlarmTime {M} _.
Arguments mIsolatedUidMap {M} _.
Arguments trainInfoOnDisk {M} _.

Section Setters.
  Context {M : Type}.
  Implicit Type p : State M.

Definition set_mMetricsManagers (f : gmap ConfigKey M → gmap ConfigKey M) p :=
    let 'mkState a b c d e f' g h i j k l m n := p in
    mkState (f a) b c d e f' g h i j k l m n.
Definition set_mLastBroadcastTimes (f : gmap ConfigKey Z → gmap ConfigKey Z) p :=
    let 'mkState a b c d e f' g h i j k l m n := p in
    mkState a (f b) c d e f' g h i j k l m n.
Definition set_mLastActivationBroadcastTimes (f : gmap Z Z → gmap Z Z) p :=
    let 'mkState a b c d e f' g h i j k l m n := p in
    mkState a b (f c) d e f' g h i j k l m n.
Definition set_mLastByteSizeTimes (f : gmap ConfigKey Z → gmap ConfigKey Z) p :=
    let 'mkState a b c d e f' g h i j k l m n := p in
    mkState a b c (f d) e f' g h i j k l m n.
Definition set_mLastTtlTime (v : Z) p :=
    let 'mkState a b c d e f' g h i j k l m n := p in
    mkState a b c d v f' g h i j k l m n.
Definition set_mLastFlushRestrictedTime (v : Z) p :=
    let 'mkState a b c d e f' g h i j k l m n := p in
    mkState a b c d e v g h i j k l m n.
Definition set_mLastDbGuardrailEnforcementTime (v : Z) p :=
    let 'mkState a b c d e f' g h i j k l m n := p in
    mkState a b c d e f' v h i j k l m n.
Definition set_mOnDiskDataConfigs (f : gset ConfigKey → gset ConfigKey) p :=
    let 'mkState a b c d e f' g h i j k l m n := p in
    mkState a b c d e f' g (f h) i j k l m n.
Definition set_mLastPullerCacheClearTimeSec (v : Z) p :=
    let 'mkState a b c d e f' g h i j k l m n := p in
    mkState a b c d e f' g h i v k l m n.
Definition set_mLastWriteTimeNs (v : Z) p :=
    let 'mkState a b c d e f' g h i j k l m n := p in
    mkState a b c d e f' g h i j v l m n.
Definition set_mNextAnomalyAlarmTime (v : Z) p :=
    let 'mkState a b c d e f' g h i j k l m n := p in
    mkState a b c d e f' g h i j k v m n.
Definition set_mIsolatedUidMap (f : gmap Z Z → gmap Z Z) p :=
    let 'mkState a b c d e f' g h i j k l m n := p in
    mkState a b c d e f' g h i j k l (f m) n.
Definition set_trainInfoOnDisk
      (f : gmap string InstallTrainInfo → gmap string InstallTrainInfo) p :=
    let 'mkState a b c d e f' g h i j k l m n := p in
    mkState a b c d e f' g h i j k l m (f n).
End Setters.

(** *** The monad of processor operations

    A computation reads and writes the state and appends to the log of
    calls; [x ← m; k] sequences two computations. *)
Definition Proc (S A : Type) : Type := S → A * S * list Effect.

Global Instance Proc_ret {S} : MRet (Proc S) := λ A a s, (a, s, []).
Global Instance Proc_bind {S} : MBind (Proc S) := λ A B f m s,
  let '(a, s1, e1) := m s in
  let '(b, s2, e2) := f a s1 in
  (b, s2, e1 ++ e2).

Definition emit {S} (e : Effect) : Proc S unit := λ s, (tt, s, [e]).
Definition get {S} : Proc S S := λ s, (s, s, []).
Definition modify {S} (f : S → S) : Proc S unit := λ s, (tt, f s, []).
Definition when {S} (b : bool) (m : Proc S unit) : Proc S unit :=
  if b then m else mret tt.

(** [for (x : l) body] with a local variable [b] that the body updates. *)
Fixpoint foldM {S A B} (l : list A) (b : B) (body : A → B → Proc S B)
  : Proc S B :=
  match l with
  | [] => mret b
  | x :: l' => b' ← body x b; foldM l' b' body
  end.

(** [for (x : l) body], without early exit. *)
Fixpoint forM_ {S A} (l : list A) (body : A → Proc S unit) : Proc S unit :=
  match l with
  | [] => mret tt
  | x :: l' => body x;; forM_ l' body
  end.

Definition result {S A} (r : A * S * list Effect) : A := r.1.1.
Definition state_of {S A} (r : A * S * list Effect) : S := r.1.2.
Definition effects {S A} (r : A * S * list Effect) : list Effect := r.2.

(** ** The processor *)

Definition to_int32 (x : Z) : Z := (x + 2 ^ 31) `mod` 2 ^ 32 - 2 ^ 31.
Definition to_uint32 (x : Z) : Z := x `mod` 2 ^ 32.

(** [multiuser_get_user_id] of cutils: the uid divided by the per-user
    range of 100000 uids. *)
Definition PER_USER_RANGE : Z := 100000.
Definition multiuser_get_user_id (uid : Z) : Z := to_uint32 uid `div` PER_USER_RANGE.

Definition getHostUidOrSelf (isolated : gmap Z Z) (uid : Z) : Z :=
  default uid (isolated !! uid).

Definition mapUidValue (isolated : gmap Z Z) (fv : FieldValue) : FieldValue :=
  match mValue fv with
  | INT uid => with_mValue fv (INT (getHostUidOrSelf isolated uid))
  | _ => fv
  end.

(** Modelled from the spec: [mapIsolatedUidsToHostUidInLogEvent]
    (stats_log_util) is not among the sources; it rewrites every uid-typed
    field of the event to its host uid. *)
Definition mapIsolatedUidsToHostUidInLogEvent
    (isolated : gmap Z Z) (event : LogEvent) : LogEvent :=
  with_values event
    ((λ fv, if isUidField fv then mapUidValue isolated fv else fv)
       <$> mValues event).

Section Processor.
  Context {M C : Type} `{!MetricsManager M C} `{!StatsdStats} `{!AtomsProto}.
  Variable env : Env C.

  Abbreviation Proc := (Proc (State M)).

Definition setManager (key : ConfigKey) (m : M) : Proc unit :=
    modify (set_mMetricsManagers (insert key m)).

Definition managerKeys (p : State M) : list ConfigKey :=
    (map_to_list (mMetricsManagers p)).*1.

  (** [mapIsolatedUidToHostUidIfNecessaryLocked] *)
Definition mapIsolatedUidToHostUidIfNecessaryLocked
      (event : LogEvent) : Proc LogEvent :=
    p ← get;
    match mAttributionChainIndexRange event with
    | Some (first, second) =>
        mret (with_values event
                (imap (λ i fv,
                         if bool_decide (first ≤ i ≤ second)%nat
                            && isAttributionUidField fv
                         then mapUidValue (mIsolatedUidMap p) fv
                         else fv)
                      (mValues event)))
    | None => mret (mapIsolatedUidsToHostUidInLogEvent (mIsolatedUidMap p) event)
    end.

  (** [onIsolatedUidChangedEventLocked] *)
Definition onIsolatedUidChangedEventLocked (event : LogEvent) : Proc unit :=
    let '(is_create, err) := GetBool event 3 in
    let '(parent, err2) := GetLong event 1 in
    let parent_uid := to_int32 parent in
    let '(isolated, err3) := GetLong event 2 in
    let isolated_uid := to_int32 isolated in
    if bool_decide (err = NO_ERROR ∧ err2 = NO_ERROR ∧ err3 = NO_ERROR) then
      if is_create
      then modify (set_mIsolatedUidMap (insert isolated_uid parent_uid))
      else modify (set_mIsolatedUidMap (delete isolated_uid))
    else mret tt.

  (** [StorageManager::readTrainInfo], [StorageManager::writeTrainInfo] *)
Definition readTrainInfo (name : string) : Proc (option InstallTrainInfo) :=
    emit (StorageManager_readTrainInfo name);;
    p ← get;
    mret (trainInfoOnDisk p !! name).

Definition writeTrainInfo (info : InstallTrainInfo) : Proc unit :=
    emit (StorageManager_writeTrainInfo info);;
    modify (set_trainInfoOnDisk (insert (trainName info) info)).

  (** [ids.push_back(id)] unless [find] locates [id] in [ids]. *)
Definition push_back_if_absent (id : Z) (ids : list Z) : list Z :=
    if bool_decide (id ∈ ids) then ids else ids ++ [id].

  (** [getAndUpdateTrainInfoOnDisk]; the result is the updated [*trainInfo]. *)
Definition getAndUpdateTrainInfoOnDisk
      (is_rollback : bool) (trainInfo : InstallTrainInfo) : Proc InstallTrainInfo :=
    if bool_decide (trainName trainInfo = EmptyString) then mret trainInfo
    else
      read ← readTrainInfo (trainName trainInfo);
      let readTrainInfoSuccess := bool_decide (is_Some read) in
      let trainInfoOnDisk := default (uninitialized_InstallTrainInfo env) read in
      let '(trainInfo, resetExperimentIds) :=
        if readTrainInfoSuccess then
          let '(trainInfo, reset) :=
            if bool_decide (trainVersionCode trainInfo = -1)
            then (with_trainVersionCode (trainVersionCode trainInfoOnDisk) trainInfo,
                  false)
            else if bool_decide (trainVersionCode trainInfo
                                 ≠ trainVersionCode trainInfoOnDisk)
            then (trainInfo, true)
            else (trainInfo, false) in
          let reset :=
            match experimentIds trainInfo with
            | [] => reset
            | first :: _ =>
                match experimentIds trainInfoOnDisk with
                | [] => true
                | firstOnDisk :: _ =>
                    if bool_decide (first ≠ firstOnDisk) then true else reset
                end
            end in
          (trainInfo, reset)
        else (trainInfo, false) in
      let trainInfo :=
        if (negb resetExperimentIds || is_rollback) && readTrainInfoSuccess
        then with_experimentIds (experimentIds trainInfoOnDisk) trainInfo
        else trainInfo in
      let trainInfo :=
        match experimentIds trainInfo with
        | [] => trainInfo
        | firstId :: _ =>
            let ids := experimentIds trainInfo in
            match status trainInfo with
            | INSTALL_SUCCESS =>
                with_experimentIds (push_back_if_absent (firstId + 1) ids) trainInfo
            | INSTALLER_ROLLBACK_INITIATED =>
                with_experimentIds (push_back_if_absent (firstId + 2) ids) trainInfo
            | INSTALLER_ROLLBACK_SUCCESS =>
                with_experimentIds (push_back_if_absent (firstId + 3) ids) trainInfo
            | OTHER_STATE _ => trainInfo
            end
        end in
      let trainInfo :=
        if is_rollback then with_rollback_bits trainInfoOnDisk trainInfo
        else trainInfo in
      writeTrainInfo trainInfo;;
      mret trainInfo.

Definition has_permissions (event : LogEvent) : bool :=
    checkPermissionForIds env kPermissionDump (mLogPid event) (mLogUid event)
    && checkPermissionForIds env kPermissionUsage (mLogPid event) (mLogUid event).

Definition bit (b : bool) : Value := INT (if b then 1 else 0).

  (** [onBinaryPushStateChangedEventLocked]; the result is the event as the
      handler leaves it. *)
Definition onBinaryPushStateChangedEventLocked (event : LogEvent) : Proc LogEvent :=
    if negb (has_permissions event) then mret event
    else
      let err := NO_ERROR in
      let '(name, e) := GetString event 1 in let err := write_err err e in
      let '(version, e) := GetLong event 2 in let err := write_err err e in
      let '(staging, e) := GetBool event 3 in let err := write_err err e in
      let '(rollback, e) := GetBool event 4 in let err := write_err err e in
      let '(lowLatency, e) := GetBool event 5 in let err := write_err err e in
      let '(state, e) := GetLong event 6 in let err := write_err err e in
      let '(trainExperimentIdBytes, e) := GetStorage event 7 in
      let err := write_err err e in
      let '(is_rollback, e) := GetBool event 10 in let err := write_err err e in
      if bool_decide (err ≠ NO_ERROR) then mret event
      else
        match ExperimentIds_ParseFromArray env trainExperimentIdBytes with
        | None => mret event
        | Some trainExperimentIds =>
            let trainInfo :=
              mkInstallTrainInfo version name
                (BinaryPushState_of_code (to_int32 state))
                trainExperimentIds staging rollback lowLatency in
            trainInfo ← getAndUpdateTrainInfoOnDisk is_rollback trainInfo;
            let trainExperimentIdProto :=
              writeExperimentIdsToProto env (experimentIds trainInfo) in
            let userId := multiuser_get_user_id (mLogUid event) in
            let event := updateValue 2 (LONG (trainVersionCode trainInfo)) event in
            let event := updateValue 7 (STORAGE trainExperimentIdProto) event in
            let event := updateValue 8 (INT userId) event in
            if is_rollback then
              let event := updateValue 3 (bit (requiresStaging trainInfo)) event in
              let event := updateValue 4 (bit (rollbackEnabled trainInfo)) event in
              let event :=
                updateValue 5 (bit (requiresLowLatencyMonitor trainInfo)) event in
              mret event
            else mret event
        end.

  (** [processWatchdogRollbackOccurred] *)
Definition processWatchdogRollbackOccurred
      (rollbackTypeIn : RollbackType) (packageNameIn : string) : Proc (list Z) :=
    if bool_decide (packageNameIn = EmptyString) then mret []
    else
      read ← readTrainInfo packageNameIn;
      match read with
      | None => mret []
      | Some trainInfoOnDisk =>
          match experimentIds trainInfoOnDisk with
          | [] => mret []
          | firstId :: _ =>
              let ids := experimentIds trainInfoOnDisk in
              match rollbackTypeIn with
              | ROLLBACK_INITIATE =>
                  let ids := push_back_if_absent (firstId + 4) ids in
                  writeTrainInfo (with_experimentIds ids trainInfoOnDisk);;
                  mret ids
              | ROLLBACK_SUCCESS =>
                  let ids := push_back_if_absent (firstId + 5) ids in
                  writeTrainInfo (with_experimentIds ids trainInfoOnDisk);;
                  mret ids
              | OTHER_ROLLBACK_TYPE _ => mret ids
              end
          end
      end.

  (** [onWatchdogRollbackOccurredLocked] *)
Definition onWatchdogRollbackOccurredLocked (event : LogEvent) : Proc LogEvent :=
    if negb (has_permissions event) then mret event
    else
      let err := NO_ERROR in
      let '(rollbackType, e) := GetInt event 1 in let err := write_err err e in
      let '(packageName, e) := GetString event 2 in let err := write_err err e in
      if bool_decide (err ≠ NO_ERROR) then mret event
      else
        experimentIds ←
          processWatchdogRollbackOccurred
            (RollbackType_of_code (to_int32 rollbackType)) packageName;
        let experimentIdProto := writeExperimentIdsToProto env experimentIds in
        mret (updateValue 6 (STORAGE experimentIdProto) event).

  (** [updateLogEventFilterLocked]: the set of atom ids handed to the filter
      is not modelled, the call is. *)
Definition updateLogEventFilterLocked : Proc unit :=
    emit LogEventFilter_setAtomIds.

  (** [onConfigMetricsReportLocked]; the report buffer is not modelled. *)
Definition onConfigMetricsReportLocked
      (key : ConfigKey) (dumpTimeStampNs wallClockNs : Z)
      (include_current_partial_bucket erase_data : bool)
      (dumpReportReason : DumpReportReason) (dumpLatency : DumpLatency)
      (dataSavedOnDisk : bool) : Proc unit :=
    p ← get;
    match mMetricsManagers p !! key with
    | None => mret tt
    | Some m =>
        if hasRestrictedMetricsDelegate m then mret tt
        else
          let m := onDumpReport dumpTimeStampNs wallClockNs
                     include_current_partial_bucket erase_data dumpLatency m in
          emit (MetricsManager_onDumpReport key dumpTimeStampNs erase_data);;
          setManager key m;;
          when (bool_decide (getNumMetrics m > 0))
               (emit (UidMap_appendUidMap key dumpTimeStampNs));;
          when (erase_data && negb dataSavedOnDisk && shouldPersistLocalHistory m)
               (emit (StorageManager_writeHistoryFile (getWallClockSec env) key))
    end.

  (** [WriteDataToDiskLocked(key, ...)] *)
Definition WriteDataToDiskLocked_key
      (key : ConfigKey) (timestampNs wallClockNs : Z)
      (dumpReportReason : DumpReportReason) (dumpLatency : DumpLatency)
    : Proc unit :=
    p ← get;
    match mMetricsManagers p !! key with
    | None => mret tt
    | Some m =>
        if negb (shouldWriteToDisk m) then mret tt
        else if hasRestrictedMetricsDelegate m then
          emit (MetricsManager_flushRestrictedData key);;
          setManager key (flushRestrictedData m)
        else
          onConfigMetricsReportLocked key timestampNs wallClockNs true true
            dumpReportReason dumpLatency true;;
          emit (StorageManager_writeDataFile (getWallClockSec env) key);;
          modify (set_mOnDiskDataConfigs (λ s, {[key]} ∪ s))
    end.

  (** [WriteDataToDiskLocked(dumpReportReason, ...)], over all configs *)
Definition WriteDataToDiskLocked
      (dumpReportReason : DumpReportReason) (dumpLatency : DumpLatency)
      (elapsedRealtimeNs wallClockNs : Z) : Proc unit :=
    p ← get;
    if bool_decide (to_uint64 elapsedRealtimeNs
                    < to_uint64 (mLastWriteTimeNs p
                                 + WRITE_DATA_COOL_DOWN_SEC * NS_PER_SEC))
    then mret tt
    else
      modify (set_mLastWriteTimeNs elapsedRealtimeNs);;
      forM_ (managerKeys p)
        (λ key, WriteDataToDiskLocked_key key elapsedRealtimeNs wallClockNs
                  dumpReportReason dumpLatency).

  (** [OnConfigUpdatedLocked] *)
Definition OnConfigUpdatedLocked
      (timestampNs : Z) (key : ConfigKey) (config : C) (modularUpdate : bool)
    : Proc unit :=
    p ← get;
    let it := mMetricsManagers p !! key in
    let modularUpdate :=
      match it with
      | Some m =>
          if isAtLeastU env
             && negb (eqb (hasRestrictedMetricsDelegate m)
                          (has_restricted_metrics_delegate_package_name config))
          then false else modularUpdate
      | None => modularUpdate
      end in
    match it with
    | Some m =>
        when (isAtLeastU env && negb modularUpdate && hasRestrictedMetricsDelegate m)
             (emit (StatsdStats_noteDbDeletionConfigUpdated key);;
              emit (dbutils_deleteDb key))
    | None => mret tt
    end;;
    '(configValid, it) ←
      match it with
      | Some m =>
          if modularUpdate then
            (* Preserve the existing manager and update it in place. *)
            let '(configValid, m) :=
              updateConfig config (mTimeBaseNs p) timestampNs m in
            setManager key m;;
            when (configValid && hasRestrictedMetricsDelegate m)
                 (emit (call_mSendRestrictedMetricsBroadcast key
                          (getRestrictedMetricsDelegate m) (getAllMetricIds m)));;
            mret (configValid, Some m)
          else
            let newMetricsManager :=
              newMetricsManager key config (mTimeBaseNs p) timestampNs in
            if isConfigValid newMetricsManager then
              let newMetricsManager :=
                refreshTtl timestampNs (init newMetricsManager) in
              (if hasRestrictedMetricsDelegate newMetricsManager then
                 emit (call_mSendRestrictedMetricsBroadcast key
                         (getRestrictedMetricsDelegate newMetricsManager)
                         (getAllMetricIds newMetricsManager));;
                 emit (dbutils_updateDeviceInfoTable key);;
                 when (negb (updateDeviceInfoTable env key))
                      (emit (StatsdStats_noteDeviceInfoTableCreationFailed key))
               else
                 when (hasRestrictedMetricsDelegate m)
                      (emit (call_mSendRestrictedMetricsBroadcast key
                               (getRestrictedMetricsDelegate m) [])));;
              setManager key newMetricsManager;;
              mret (true, Some m)
            else mret (false, Some m)
      | None =>
          let newMetricsManager :=
            newMetricsManager key config (mTimeBaseNs p) timestampNs in
          if isConfigValid newMetricsManager then
            let newMetricsManager :=
              refreshTtl timestampNs (init newMetricsManager) in
            when (hasRestrictedMetricsDelegate newMetricsManager)
                 (emit (call_mSendRestrictedMetricsBroadcast key
                          (getRestrictedMetricsDelegate newMetricsManager)
                          (getAllMetricIds newMetricsManager));;
                  emit (dbutils_updateDeviceInfoTable key);;
                  when (negb (updateDeviceInfoTable env key))
                       (emit (StatsdStats_noteDeviceInfoTableCreationFailed key)));;
            setManager key newMetricsManager;;
            mret (true, None)
          else mret (false, None)
      end;
    (if configValid && negb (has_restricted_metrics_delegate_package_name config)
     then emit (UidMap_OnConfigUpdated key)
     else when (configValid && has_restricted_metrics_delegate_package_name config)
               (emit (UidMap_OnConfigRemoved key)));;
    when (negb configValid)
      (match it with
       | Some m =>
           when (isAtLeastU env && hasRestrictedMetricsDelegate m)
                (emit (call_mSendRestrictedMetricsBroadcast key
                         (getRestrictedMetricsDelegate m) []);;
                 emit (StatsdStats_noteDbConfigInvalid key);;
                 emit (dbutils_deleteDb key))
       | None => mret tt
       end;;
       modify (set_mMetricsManagers (delete key));;
       emit (UidMap_OnConfigRemoved key));;
    updateLogEventFilterLocked.

  (** [OnConfigUpdated(timestampNs, wallClockNs, key, config, modularUpdate)] *)
Definition OnConfigUpdated
      (timestampNs wallClockNs : Z) (key : ConfigKey) (config : C)
      (modularUpdate : bool) : Proc unit :=
    WriteDataToDiskLocked_key key timestampNs wallClockNs
      CONFIG_UPDATED NO_TIME_CONSTRAINTS;;
    OnConfigUpdatedLocked timestampNs key config modularUpdate.

  (** [OnConfigRemoved(key)]; [mDumpReportNumbers] is not modelled. *)
Definition OnConfigRemoved (key : ConfigKey) : Proc unit :=
    p ← get;
    match mMetricsManagers p !! key with
    | Some _ =>
        WriteDataToDiskLocked_key key (getElapsedRealtimeNs env)
          (getWallClockNs env) CONFIG_REMOVED NO_TIME_CONSTRAINTS;;
        p ← get;
        match mMetricsManagers p !! key with
        | Some m =>
            when (isAtLeastU env && hasRestrictedMetricsDelegate m)
                 (emit (StatsdStats_noteDbDeletionConfigRemoved key);;
                  emit (dbutils_deleteDb key);;
                  emit (call_mSendRestrictedMetricsBroadcast key
                          (getRestrictedMetricsDelegate m) []))
        | None => mret tt
        end;;
        modify (set_mMetricsManagers (delete key));;
        emit (UidMap_OnConfigRemoved key)
    | None => mret tt
    end;;
    emit (StatsdStats_noteConfigRemoved key);;
    modify (set_mLastBroadcastTimes (delete key));;
    modify (set_mLastByteSizeTimes (delete key));;
    p ← get;
    let uid := GetUid key in
    let lastConfigForUid :=
      forallb (λ k, negb (bool_decide (GetUid k = uid))) (managerKeys p) in
    when lastConfigForUid
         (modify (set_mLastActivationBroadcastTimes (delete uid)));;
    when (bool_decide (mMetricsManagers p = ∅))
         (emit StatsPullerManager_ForceClearPullerCache);;
    updateLogEventFilterLocked.

  (** [resetConfigsLocked(timestampNs, configs)] *)
Definition resetConfigsLocked (timestampNs : Z) (configs : list ConfigKey)
    : Proc unit :=
    forM_ configs (λ key,
      emit (StorageManager_readConfigFromDisk key);;
      match readConfigFromDisk env key with
      | Some config =>
          OnConfigUpdatedLocked timestampNs key config false;;
          emit (StatsdStats_noteConfigReset key)
      | None =>
          p ← get;
          match mMetricsManagers p !! key with
          | Some m => setManager key (refreshTtl timestampNs m)
          | None => mret tt
          end
      end).

  (** [resetIfConfigTtlExpiredLocked] *)
Definition resetIfConfigTtlExpiredLocked (eventTimeNs : Z) : Proc unit :=
    p ← get;
    let configKeysTtlExpired :=
      (filter (λ km, isInTtl eventTimeNs km.2 = false)
              (map_to_list (mMetricsManagers p))).*1 in
    when (bool_decide (0 < length configKeysTtlExpired)%nat)
      (WriteDataToDiskLocked CONFIG_RESET NO_TIME_CONSTRAINTS
         (getElapsedRealtimeNs env) (getWallClockNs env);;
       resetConfigsLocked eventTimeNs configKeysTtlExpired).

  (** [processFiredAnomalyAlarmsLocked] *)
Definition processFiredAnomalyAlarmsLocked
      (timestampNs : Z) (alarmSet : list Z) : Proc unit :=
    p ← get;
    foldM (managerKeys p) alarmSet (λ key alarmSet,
      p ← get;
      match mMetricsManagers p !! key with
      | Some m =>
          let '(m, alarmSet) := onAnomalyAlarmFired timestampNs alarmSet m in
          setManager key m;; mret alarmSet
      | None => mret alarmSet
      end);;
    mret tt.

  (** [informAnomalyAlarmFiredLocked] *)
Definition informAnomalyAlarmFiredLocked (elapsedTimeMillis : Z) : Proc unit :=
    let sec := to_uint32 (elapsedTimeMillis `quot` 1000) in
    emit (AlarmMonitor_popSoonerThan sec);;
    let alarmSet := popSoonerThan env sec in
    when (bool_decide (0 < length alarmSet)%nat)
         (processFiredAnomalyAlarmsLocked (MillisToNano elapsedTimeMillis) alarmSet).

  (** [flushRestrictedDataLocked] *)
Definition flushRestrictedDataLocked (elapsedRealtimeNs : Z) : Proc unit :=
    p ← get;
    forM_ (managerKeys p) (λ key,
      p ← get;
      match mMetricsManagers p !! key with
      | Some m =>
          emit (MetricsManager_flushRestrictedData key);;
          setManager key (flushRestrictedData m)
      | None => mret tt
      end);;
    modify (set_mLastFlushRestrictedTime elapsedRealtimeNs).

  (** [flushRestrictedDataIfNecessaryLocked] *)
Definition flushRestrictedDataIfNecessaryLocked (elapsedRealtimeNs : Z)
    : Proc unit :=
    if negb (isAtLeastU env) then mret tt
    else
      p ← get;
      if bool_decide (elapsedRealtimeNs - mLastFlushRestrictedTime p
                      < kMinFlushRestrictedPeriodNs)
      then mret tt
      else flushRestrictedDataLocked elapsedRealtimeNs.

  (** [enforceDataTtlsLocked] *)
Definition enforceDataTtlsLocked (wallClockNs elapsedRealtimeNs : Z)
    : Proc unit :=
    p ← get;
    forM_ (managerKeys p) (λ key,
      p ← get;
      match mMetricsManagers p !! key with
      | Some m => setManager key (enforceRestrictedDataTtls wallClockNs m)
      | None => mret tt
      end);;
    modify (set_mLastTtlTime elapsedRealtimeNs).

  (** [enforceDataTtlsIfNecessaryLocked] *)
Definition enforceDataTtlsIfNecessaryLocked (wallClockNs elapsedRealtimeNs : Z)
    : Proc unit :=
    if negb (isAtLeastU env) then mret tt
    else
      p ← get;
      if bool_decide (elapsedRealtimeNs - mLastTtlTime p < kMinTtlCheckPeriodNs)
      then mret tt
      else enforceDataTtlsLocked wallClockNs elapsedRealtimeNs.

  (** [enforceDbGuardrailsIfNecessaryLocked] *)
Definition enforceDbGuardrailsIfNecessaryLocked
      (wallClockNs elapsedRealtimeNs : Z) : Proc unit :=
    p ← get;
    if bool_decide (elapsedRealtimeNs - mLastDbGuardrailEnforcementTime p
                    < kMinDbGuardrailEnforcementPeriodNs)
    then mret tt
    else
      emit (StorageManager_enforceDbGuardrails (wallClockNs `quot` NS_PER_SEC));;
      modify (set_mLastDbGuardrailEnforcementTime elapsedRealtimeNs).

  (** [flushIfNecessaryLocked(key, metricsManager)]; the result is the
      manager as the call leaves it. *)
Definition flushIfNecessaryLocked (key : ConfigKey) (metricsManager : M)
    : Proc M :=
    let elapsedRealtimeNs := getElapsedRealtimeNs env in
    p ← get;
    if match mLastByteSizeTimes p !! key with
       | Some lastCheckTime =>
           bool_decide (elapsedRealtimeNs - lastCheckTime
                        < kMinByteSizeCheckPeriodNs)
       | None => false
       end
    then mret metricsManager
    else
      (* We suspect that the byteSize() computation is expensive, so we set
         a rate limit. *)
      let totalBytes := byteSize metricsManager in
      modify (set_mLastByteSizeTimes (insert key elapsedRealtimeNs));;
      let kBytesPerConfig :=
        if hasRestrictedMetricsDelegate metricsManager
        then kBytesPerRestrictedConfigTriggerFlush
        else getTriggerGetDataBytes metricsManager in
      '(metricsManager, requestDump) ←
        (if bool_decide (getMaxMetricsBytes metricsManager < totalBytes)%N then
           (* Too late. We need to start clearing data. *)
           emit (MetricsManager_dropData key elapsedRealtimeNs);;
           emit (StatsdStats_noteDataDropped key totalBytes);;
           mret (dropData elapsedRealtimeNs metricsManager, false)
         else if bool_decide (kBytesPerConfig < totalBytes)%N
                 || bool_decide (key ∈ mOnDiskDataConfigs p)
         then mret (metricsManager, true)
         else mret (metricsManager, false));
      if (requestDump : bool) then
        if hasRestrictedMetricsDelegate metricsManager then
          emit (MetricsManager_flushRestrictedData key);;
          (* No need to send broadcast for restricted metrics. *)
          mret (flushRestrictedData metricsManager)
        else
          (* Send broadcast so that receivers can pull data. *)
          if match mLastBroadcastTimes p !! key with
             | Some lastBroadcastTime =>
                 bool_decide (elapsedRealtimeNs - lastBroadcastTime
                              < kMinBroadcastPeriodNs)
             | None => false
             end
          then mret metricsManager
          else
            let sent := mSendBroadcast env key in
            emit (call_mSendBroadcast key sent);;
            when sent
              (modify (set_mOnDiskDataConfigs (λ s, s ∖ {[key]}));;
               modify (set_mLastBroadcastTimes (insert key elapsedRealtimeNs));;
               emit (StatsdStats_noteBroadcastSent key));;
            mret metricsManager
      else mret metricsManager.

  (** [validateAppBreadcrumbEvent]; [isolated] is the table of the uid map.
      [event.size() - 2] is computed on [size_t]. *)
Definition validateAppBreadcrumbEvent (isolated : gmap Z Z) (event : LogEvent)
    : bool :=
    if bool_decide (atom_of_id (mTagId event) = APP_BREADCRUMB_REPORTED) then
      let '(appHookUid, err) := GetLong event (to_uint64 (event_size event - 2)) in
      if bool_decide (err ≠ NO_ERROR) then false
      else
        let loggerUid := getHostUidOrSelf isolated (mLogUid event) in
        if bool_decide (loggerUid ≠ appHookUid)
           && bool_decide (loggerUid ≠ AID_STATSD)
        then false
        else
          let '(appHookState, e) := GetLong event (event_size event) in
          let err := write_err err e in
          if bool_decide (err ≠ NO_ERROR) then false
          else if bool_decide (appHookState < 0) || bool_decide (appHookState > 3)
          then false
          else true
    else true.

  (** The locals of [OnLogEvent] that its first loop fills for the second. *)
Record ActiveConfigs := mkActiveConfigs {
    uidsWithActiveConfigsChanged : gset Z;
    activeConfigsPerUid : gmap Z (list Z)
  }.

  (** Body of the loop "pass the event to metrics managers" of [OnLogEvent],
      for the entry of [key]. *)
Definition passEventToManager (event : LogEvent) (key : ConfigKey)
      (acc : ActiveConfigs) : Proc ActiveConfigs :=
    p ← get;
    match mMetricsManagers p !! key with
    | None => mret acc
    | Some m =>
        if mRestricted event && negb (hasRestrictedMetricsDelegate m)
        then mret acc
        else
          let uid := GetUid key in
          let configId := GetId key in
          let isPrevActive := isActive m in
          let m := onLogEvent event m in
          emit (MetricsManager_onLogEvent key event);;
          setManager key m;;
          let isCurActive := isActive m in
          (* Map all active configs by uid. *)
          let perUid :=
            if isCurActive then
              match activeConfigsPerUid acc !! uid with
              | Some activeConfigs =>
                  <[uid := activeConfigs ++ [configId]]> (activeConfigsPerUid acc)
              | None => <[uid := [configId]]> (activeConfigsPerUid acc)
              end
            else activeConfigsPerUid acc in
          (* The activation state of this config changed. *)
          let changed := negb (eqb isPrevActive isCurActive) in
          when changed
               (emit (StatsdStats_noteActiveStatusChanged key isCurActive));;
          m ← flushIfNecessaryLocked key m;
          setManager key m;;
          mret (mkActiveConfigs
                  (if changed
                   then {[uid]} ∪ uidsWithActiveConfigsChanged acc
                   else uidsWithActiveConfigsChanged acc)
                  perUid)
    end.

  (** The loop over [uidsWithActiveConfigsChanged] that ends [OnLogEvent];
      hitting the rate limit returns from [OnLogEvent]. *)
Fixpoint sendActivationBroadcasts (elapsedRealtimeNs : Z)
      (activeConfigsPerUid : gmap Z (list Z)) (uids : list Z) : Proc unit :=
    match uids with
    | [] => mret tt
    | uid :: uids' =>
        p ← get;
        if match mLastActivationBroadcastTimes p !! uid with
           | Some lastBroadcastTime =>
               bool_decide (elapsedRealtimeNs - lastBroadcastTime
                            < kMinActivationBroadcastPeriodNs)
           | None => false
           end
        then emit (StatsdStats_noteActivationBroadcastGuardrailHit uid)
        else
          let activeConfigs := default [] (activeConfigsPerUid !! uid) in
          let sent := mSendActivationBroadcast env uid activeConfigs in
          emit (call_mSendActivationBroadcast uid activeConfigs sent);;
          when sent (modify (set_mLastActivationBroadcastTimes
                               (insert uid elapsedRealtimeNs)));;
          sendActivationBroadcasts elapsedRealtimeNs activeConfigsPerUid uids'
    end.

  (** [OnLogEvent(event, elapsedRealtimeNs)] up to the validation of the
      event: the result is the event as the managers would receive it, or
      [None] when [OnLogEvent] has returned. *)
Definition OnLogEvent_prepare (event : LogEvent) (elapsedRealtimeNs : Z)
    : Proc (option LogEvent) :=
    (* Tell StatsdStats about new event *)
    let eventElapsedTimeNs := mElapsedTimestampNs event in
    let atomId := mTagId event in
    emit (StatsdStats_noteAtomLogged atomId (eventElapsedTimeNs `quot` NS_PER_SEC)
            (mParsedHeaderOnly event));;
    if negb (mValid event) then
      emit (StatsdStats_noteAtomError atomId);; mret None
    else
      event ← (if bool_decide (atom_of_id atomId = BINARY_PUSH_STATE_CHANGED)
               then onBinaryPushStateChangedEventLocked event
               else mret event);
      event ← (if bool_decide (atom_of_id atomId = WATCHDOG_ROLLBACK_OCCURRED)
               then onWatchdogRollbackOccurredLocked event
               else mret event);
      resetIfConfigTtlExpiredLocked eventElapsedTimeNs;;
      event ← (if bool_decide (atom_of_id atomId = ISOLATED_UID_CHANGED)
               then onIsolatedUidChangedEventLocked event;; mret event
               else mapIsolatedUidToHostUidIfNecessaryLocked event);
      emit (StateManager_onLogEvent event);;
      p ← get;
      if bool_decide (mMetricsManagers p = ∅) then mret None
      else
        let fireAlarm :=
          bool_decide (mNextAnomalyAlarmTime p ≠ 0)
          && bool_decide (MillisToNano (mNextAnomalyAlarmTime p)
                          ≤ elapsedRealtimeNs) in
        when fireAlarm (modify (set_mNextAnomalyAlarmTime 0));;
        when fireAlarm
             (informAnomalyAlarmFiredLocked (NanoToMillis elapsedRealtimeNs));;
        let curTimeSec := NanoToSeconds elapsedRealtimeNs in
        when (bool_decide (curTimeSec - mLastPullerCacheClearTimeSec p
                           > kPullerCacheClearIntervalSec))
             (emit (StatsPullerManager_ClearPullerCacheIfNecessary
                      (curTimeSec * NS_PER_SEC));;
              modify (set_mLastPullerCacheClearTimeSec curTimeSec));;
        flushRestrictedDataIfNecessaryLocked elapsedRealtimeNs;;
        enforceDataTtlsIfNecessaryLocked (getWallClockNs env) elapsedRealtimeNs;;
        enforceDbGuardrailsIfNecessaryLocked (getWallClockNs env) elapsedRealtimeNs;;
        p ← get;
        if negb (validateAppBreadcrumbEvent (mIsolatedUidMap p) event)
        then mret None
        else mret (Some event).

  (** [OnLogEvent(event, elapsedRealtimeNs)] *)
Definition OnLogEvent (event : LogEvent) (elapsedRealtimeNs : Z) : Proc unit :=
    prepared ← OnLogEvent_prepare event elapsedRealtimeNs;
    match prepared with
    | None => mret tt
    | Some event =>
        p ← get;
        (* pass the event to metrics managers. *)
        acc ← foldM (managerKeys p) (mkActiveConfigs ∅ ∅)
                    (passEventToManager event);
        (* Don't use the event timestamp for the guardrail. *)
        sendActivationBroadcasts elapsedRealtimeNs (activeConfigsPerUid acc)
          (elements (uidsWithActiveConfigsChanged acc))
    end.

  (** [getRestrictedConfigKeysToQueryLocked]; [err] and [invalidQueryReason]
      are the values the references hold on entry, the result carries the
      values they hold on return. *)
Definition getRestrictedConfigKeysToQueryLocked
      (p : State M) (callingUid configId : Z) (configPackageUids : gset Z)
      (err : string) (invalidQueryReason : InvalidQueryReason)
    : gset ConfigKey * string * InvalidQueryReason :=
    let matchedConfigKeys : gset ConfigKey :=
      list_to_set
        (filter (λ configKey, is_Some (mMetricsManagers p !! configKey))
                ((λ uid, mkConfigKey uid configId) <$> elements configPackageUids)) in
    let excludedKeys : gset ConfigKey :=
      filter (λ configKey,
                match mMetricsManagers p !! configKey with
                | Some m => negb (validateRestrictedMetricsDelegate callingUid m)
                | None => false
                end = true)
             matchedConfigKeys in
    let result := matchedConfigKeys ∖ excludedKeys in
    if bool_decide (matchedConfigKeys = ∅) then
      (result, "No configs found matching the config key"%string,
       CONFIG_KEY_NOT_FOUND)
    else if bool_decide (result = ∅) then
      (result, "No matching configs for restricted metrics delegate"%string,
       CONFIG_KEY_WITH_UNMATCHED_DELEGATE)
    else (result, err, invalidQueryReason).

  (** The loop of [querySql] that flattens the rows: [None] when a row has
      not as many cells as there are column names. *)
Fixpoint flattenRows (rows : list (list string)) (columns : nat)
      (queryData : list string) : option (list string) :=
    match rows with
    | [] => Some queryData
    | row :: rows' =>
        if bool_decide (length row ≠ columns) then None
        else flattenRows rows' columns (queryData ++ row)
    end.

  (** [querySql]; [callback] is observed through the log, the policy config
      is not used by the source.  [indeterminate] is what the uninitialised
      local [invalidQueryReason] holds. *)
Definition querySql
      (sqlQuery : string) (minSqlClientVersion : Z)
      (configId : Z) (configPackage : string) (callingUid : Z)
      (indeterminate : InvalidQueryReason) : Proc unit :=
    let err := EmptyString in
    let failed configUid reason :=
      emit (StatsdStats_noteQueryRestrictedMetricFailed
              configId configPackage configUid callingUid reason) in
    if negb (isAtLeastU env) then failed None FLAG_DISABLED
    else
      let elapsedRealtimeNs := getElapsedRealtimeNs env in
      if bool_decide (minSqlClientVersion > getDbVersion env) then
        emit (callback_sendFailure
                ("Unsupported sqlite version. Installed Version: "
                 +:+ pretty (getDbVersion env) +:+ ", Requested Version: "
                 +:+ pretty minSqlClientVersion +:+ "."));;
        failed None UNSUPPORTED_SQLITE_VERSION
      else
        let configPackageUids : gset Z :=
          match sAidToUidMapping env configPackage with
          | Some uid => {[uid]}
          | None => getAppUid env configPackage
          end in
        p ← get;
        let '(keysToQuery, err, invalidQueryReason) :=
          getRestrictedConfigKeysToQueryLocked p callingUid configId
            configPackageUids err indeterminate in
        match elements keysToQuery with
        | [] =>
            emit (callback_sendFailure err);;
            failed None invalidQueryReason
        | _ :: _ :: _ =>
            emit (callback_sendFailure "Ambiguous ConfigKey");;
            failed None AMBIGUOUS_CONFIG_KEY
        | [key] =>
            flushRestrictedDataLocked elapsedRealtimeNs;;
            enforceDataTtlsLocked (getWallClockNs env) elapsedRealtimeNs;;
            emit (dbutils_query key sqlQuery);;
            let r := query env key sqlQuery in
            let rows := query_rows r in
            let columnTypes := query_columnTypes r in
            let columnNames := query_columnNames r in
            if negb (query_ok r) then
              emit (callback_sendFailure
                      ("failed to query db " +:+ query_err r +:+ ":"));;
              failed (Some (GetUid key)) QUERY_FAILURE
            else
              when (bool_decide (length columnNames ≠ length columnTypes))
                   (emit (callback_sendFailure "Inconsistent row sizes");;
                    failed (Some (GetUid key)) INCONSISTENT_ROW_SIZE);;
              match flattenRows rows (length columnNames) [] with
              | None =>
                  emit (callback_sendFailure "Inconsistent row sizes");;
                  failed (Some (GetUid key)) INCONSISTENT_ROW_SIZE
              | Some queryData =>
                  emit (callback_sendResults queryData columnNames columnTypes
                          (length rows));;
                  emit (StatsdStats_noteQueryRestrictedMetricSucceed
                          configId configPackage (GetUid key) callingUid)
              end
        end.

End Processor.

(** ** Vocabulary of the statements *)

(** [frames f ok m]: the computation [m] leaves the part [f] of the state
    as it found it and logs only calls that satisfy [ok]. *)
Definition frames {S A X} (f : S → X) (ok : Effect → Prop) (m : Proc S A) : Prop :=
  ∀ s, f (state_of (m s)) = f s ∧ Forall ok (effects (m s)).

(** The marker ids as the specification words them: the experiment id that
    a status or a rollback type adds is the first id of the list plus an
    offset, and it is added only when the list does not hold it yet. *)
Definition marker_of_state (s : BinaryPushState) : option Z :=
  match s with
  | INSTALL_SUCCESS => Some 1
  | INSTALLER_ROLLBACK_INITIATED => Some 2
  | INSTALLER_ROLLBACK_SUCCESS => Some 3
  | OTHER_STATE _ => None
  end.

Definition marker_of_rollback (t : RollbackType) : option Z :=
  match t with
  | ROLLBACK_INITIATE => Some 4
  | ROLLBACK_SUCCESS => Some 5
  | OTHER_ROLLBACK_TYPE _ => None
  end.

Definition with_marker (offset : option Z) (ids : list Z) : list Z :=
  match ids, offset with
  | firstId :: _, Some k =>
      if decide (firstId + k ∈ ids) then ids else ids ++ [firstId + k]
  | _, _ => ids
  end.

(** ** A byte-counting manager

    An implementation of the interfaces above, on which the processor can be
    run: a manager that grows by a fixed number of bytes with every event
    and flips its active state on the events of one tag.  A configuration
    is the manager it builds. *)
Module Sample.

Record Manager := mkManager {
    bytes : N;
    maxMetricsBytes : N;
    triggerGetDataBytes : N;
    bytesPerEvent : N;
    delegate : option string;
    active : bool;
    activationTag : Z;
    valid : bool
  }.

Definition with_bytes (b : N) (m : Manager) : Manager :=
    mkManager b (maxMetricsBytes m) (triggerGetDataBytes m) (bytesPerEvent m)
              (delegate m) (active m) (activationTag m) (valid m).

Definition with_active (a : bool) (m : Manager) : Manager :=
    mkManager (bytes m) (maxMetricsBytes m) (triggerGetDataBytes m)
              (bytesPerEvent m) (delegate m) a (activationTag m) (valid m).

Definition restricted (m : Manager) : bool :=
    match delegate m with Some _ => true | None => false end.

Global Instance manager : MetricsManager Manager Manager := {|
    newMetricsManager _ config _ _ := config;
    isConfigValid := valid;
    init m := m;
    refreshTtl _ m := m;
    isInTtl _ _ := true;
    updateConfig config _ _ m := (valid config, config);
    hasRestrictedMetricsDelegate := restricted;
    getRestrictedMetricsDelegate m := default EmptyString (delegate m);
    validateRestrictedMetricsDelegate _ _ := true;
    getAllMetricIds _ := [1];
    getNumMetrics _ := 1;
    isActive := active;
    onLogEvent event m :=
      with_active (if bool_decide (mTagId event = activationTag m)
                   then negb (active m) else active m)
                  (with_bytes (bytes m + bytesPerEvent m) m);
    onAnomalyAlarmFired _ alarms m := (m, alarms);
    byteSize := bytes;
    getMaxMetricsBytes := maxMetricsBytes;
    getTriggerGetDataBytes := triggerGetDataBytes;
    dropData _ m := with_bytes 0 m;
    flushRestrictedData m := if restricted m then with_bytes 0 m else m;
    enforceRestrictedDataTtls _ m := m;
    shouldWriteToDisk _ := true;
    shouldPersistLocalHistory _ := false;
    onDumpReport _ _ _ erase_data _ m := if erase_data then with_bytes 0 m else m;
    has_restricted_metrics_delegate_package_name := restricted
  |}.

Global Instance constants : StatsdStats := {|
    kMinByteSizeCheckPeriodNs := 60 * NS_PER_SEC;
    kMinBroadcastPeriodNs := 60 * NS_PER_SEC;
    kMinActivationBroadcastPeriodNs := 10 * NS_PER_SEC;
    kMinTtlCheckPeriodNs := 3600 * NS_PER_SEC;
    kMinFlushRestrictedPeriodNs := 3600 * NS_PER_SEC;
    kMinDbGuardrailEnforcementPeriodNs := 3600 * NS_PER_SEC;
    kPullerCacheClearIntervalSec := 1;
    kBytesPerRestrictedConfigTriggerFlush := 25600;
    AID_STATSD := 1066
  |}.

Global Instance atoms : AtomsProto := {|
    atom_of_id id :=
      if bool_decide (id = 102) then BINARY_PUSH_STATE_CHANGED
      else if bool_decide (id = 147) then WATCHDOG_ROLLBACK_OCCURRED
      else if bool_decide (id = 43) then ISOLATED_UID_CHANGED
      else if bool_decide (id = 47) then APP_BREADCRUMB_REPORTED
      else OTHER_ATOM;
    BinaryPushState_of_code code :=
      if bool_decide (code = 5) then INSTALL_SUCCESS
      else if bool_decide (code = 9) then INSTALLER_ROLLBACK_INITIATED
      else if bool_decide (code = 15) then INSTALLER_ROLLBACK_SUCCESS
      else OTHER_STATE code;
    RollbackType_of_code code :=
      if bool_decide (code = 1) then ROLLBACK_INITIATE
      else if bool_decide (code = 2) then ROLLBACK_SUCCESS
      else OTHER_ROLLBACK_TYPE code
  |}.

  (** An environment: the clock reads [now], callers hold the permissions
      iff [permitted], every broadcast is delivered, the device runs U or
      later iff [atLeastU], the database answers [answer]. *)
Definition env (now : Z) (permitted atLeastU : bool) (answer : QueryResult)
    : Env Manager := {|
    getElapsedRealtimeNs := now;
    getWallClockNs := now;
    getWallClockSec := now `quot` NS_PER_SEC;
    isAtLeastU := atLeastU;
    checkPermissionForIds _ _ _ := permitted;
    mSendBroadcast _ := true;
    mSendActivationBroadcast _ _ := true;
    readConfigFromDisk _ := None;
    popSoonerThan _ := [];
    updateDeviceInfoTable _ := true;
    getDbVersion := 1;
    query _ _ := answer;
    sAidToUidMapping _ := None;
    getAppUid _ := {[1000]};
    ExperimentIds_ParseFromArray bytes := Some bytes;
    writeExperimentIdsToProto ids := ids;
    uninitialized_InstallTrainInfo :=
      mkInstallTrainInfo 0 EmptyString (OTHER_STATE 0) [] false false false
  |}.

Definition no_answer : QueryResult := mkQueryResult false [] [] [] EmptyString.

  (** A processor that holds the given managers and nothing else. *)
Definition processor (managers : gmap ConfigKey Manager)
      (trains : gmap string InstallTrainInfo) : State Manager :=
    mkState managers ∅ ∅ ∅ 0 0 0 ∅ 0 0 0 0 ∅ trains.

Definition key1 : ConfigKey := mkConfigKey 1000 1.

  (** A manager with a limit of 1000 bytes that grows by 600 bytes with
      every event. *)
Definition growing : Manager :=
    mkManager 0 1000 500 600 None true 0 true.

Definition field (v : Value) : FieldValue := mkFieldValue v false false.

  (** A valid event of the given tag, logged by uid 1000. *)
Definition event (tag : Z) (ts : Z) (values : list Value) : LogEvent :=
    mkLogEvent tag ts 1000 1 true false false (field <$> values) None.

End Sample.

(** [byteSize_check_due env key p]: the rate limit of the byte-size check
    lets the check of [key] run at the time the clock of [env] shows. *)
Definition byteSize_check_due {M C} `{!StatsdStats}
    (env : Env C) (key : ConfigKey) (p : State M) : Prop :=
  ∀ lastCheckTime, mLastByteSizeTimes p !! key = Some lastCheckTime →
    kMinByteSizeCheckPeriodNs ≤ getElapsedRealtimeNs env - lastCheckTime.

(** The words of the specification about configuration updates.
    [updates_in_place]: the call mutates the manager it finds (a modular
    update of a present configuration whose restricted-delegate status does
    not change); otherwise it builds a new manager.
    [config_validated]: the submitted configuration validated, at the
    construction of the new manager or at the update of the present one.
    [manager_before_erasure]: the manager of the key as the attempt leaves
    it, which is the one an invalid configuration erases. *)
Section ConfigUpdateWords.
Context {M C : Type} `{!MetricsManager M C}.

Definition updates_in_place (env : Env C) (p : State M) (key : ConfigKey)
    (config : C) (modularUpdate : bool) : bool :=
  match mMetricsManagers p !! key with
  | Some m =>
      modularUpdate
      && negb (isAtLeastU env
               && negb (eqb (hasRestrictedMetricsDelegate m)
                            (has_restricted_metrics_delegate_package_name config)))
  | None => false
  end.

Definition config_validated (env : Env C) (p : State M) (timestampNs : Z)
    (key : ConfigKey) (config : C) (modularUpdate : bool) : bool :=
  match mMetricsManagers p !! key with
  | Some m =>
      if updates_in_place env p key config modularUpdate
      then (updateConfig config (mTimeBaseNs p) timestampNs m).1
      else isConfigValid (newMetricsManager key config (mTimeBaseNs p) timestampNs)
  | None => isConfigValid (newMetricsManager key config (mTimeBaseNs p) timestampNs)
  end.

Definition manager_before_erasure (env : Env C) (p : State M) (timestampNs : Z)
    (key : ConfigKey) (config : C) (modularUpdate : bool) : option M :=
  match mMetricsManagers p !! key with
  | Some m =>
      if updates_in_place env p key config modularUpdate
      then Some (updateConfig config (mTimeBaseNs p) timestampNs m).2
      else Some m
  | None => None
  end.

End ConfigUpdateWords.

(** [wp m Q s]: running [m] in state [s] yields a result, a state and a log
    that satisfy [Q]. *)
Definition wp {S A} (m : Proc S A) (Q : A → S → list Effect → Prop) (s : S) : Prop :=
  Q (result (m s)) (state_of (m s)) (effects (m s)).

(** What a call of [querySql] shows to its caller and to the statistics of
    restricted queries, in order: the calls on the callback and the outcome
    noted. *)
Inductive QueryObservation :=
| sendFailure_called (error : string)
| sendResults_called
| failure_noted (reason : InvalidQueryReason)
| success_noted.

Definition query_observation (e : Effect) : option QueryObservation :=
  match e with
  | callback_sendFailure error => Some (sendFailure_called error)
  | callback_sendResults _ _ _ _ => Some sendResults_called
  | StatsdStats_noteQueryRestrictedMetricFailed _ _ _ _ reason =>
      Some (failure_noted reason)
  | StatsdStats_noteQueryRestrictedMetricSucceed _ _ _ _ => Some success_noted
  | _ => None
  end.

Definition query_observations (log : list Effect) : list QueryObservation :=
  omap query_observation log.

Definition query_silent (e : Effect) : Prop := query_observation e = None.

(** Sample inputs of [querySql]: a processor with one configuration of uid
    1000, and two answers of the database, one well formed and one with a
    column name but no column type. *)
Definition sample_query_processor : State Sample.Manager :=
  Sample.processor {[Sample.key1 := Sample.growing]} ∅.

Definition sample_answer : QueryResult :=
  mkQueryResult true [["a"%string]] [3] ["c"%string] EmptyString.

Definition sample_answer_without_types : QueryResult :=
  mkQueryResult true [["a"%string]] [] ["c"%string] EmptyString.

(** The calls that only the dispatch of an event to the managers and the
    activation broadcasts make: [OnLogEvent] makes none of them before it
    has validated the event. *)
Definition dispatch_call (e : Effect) : Prop :=
  match e with
  | MetricsManager_onLogEvent _ _
  | MetricsManager_dropData _ _
  | StatsdStats_noteDataDropped _ _
  | StatsdStats_noteActiveStatusChanged _ _
  | call_mSendBroadcast _ _
  | StatsdStats_noteBroadcastSent _
  | call_mSendActivationBroadcast _ _ _
  | StatsdStats_noteActivationBroadcastGuardrailHit _ => True
  | _ => False
  end.

(** The members that pace the byte-size checks and the broadcasts. *)
Definition pacing {M} (p : State M)
  : gmap ConfigKey Z * gmap Z Z * gmap ConfigKey Z :=
  (mLastBroadcastTimes p, mLastActivationBroadcastTimes p, mLastByteSizeTimes p).

(** What the processor keeps per configuration key: the manager, the time
    of the last byte-size check, the time of the last data-ready broadcast
    and whether reports of the key wait on disk. *)
Record Slice (M : Type) := mkSlice {
  sl_manager : option M;
  sl_lastByteSizeTime : option Z;
  sl_lastBroadcastTime : option Z;
  sl_onDisk : bool
}.

Arguments mkSlice {M}.
Arguments sl_manager {M} _.
Arguments sl_lastByteSizeTime {M} _.
Arguments sl_lastBroadcastTime {M} _.
Arguments sl_onDisk {M} _.

Definition slice {M} (key : ConfigKey) (p : State M) : Slice M :=
  mkSlice (mMetricsManagers p !! key) (mLastByteSizeTimes p !! key)
          (mLastBroadcastTimes p !! key)
          (bool_decide (key ∈ mOnDiskDataConfigs p)).

(** The members that are not kept per configuration key. *)
Definition shared {M} (p : State M) : State M :=
  set_mMetricsManagers (λ _, ∅)
    (set_mLastBroadcastTimes (λ _, ∅)
       (set_mLastByteSizeTimes (λ _, ∅)
          (set_mOnDiskDataConfigs (λ _, ∅) p))).

(** The keys of the data-ready broadcasts that a log shows as delivered,
    and the uids of the activation broadcasts that it shows as delivered. *)
Definition data_broadcasts (log : list Effect) : list ConfigKey :=
  omap (λ e, match e with
             | call_mSendBroadcast key true => Some key
             | _ => None
             end) log.

Definition activation_broadcasts (log : list Effect) : list Z :=
  omap (λ e, match e with
             | call_mSendActivationBroadcast uid _ true => Some uid
             | _ => None
             end) log.

(** The events that a log shows as handed to the manager of a key. *)
Definition events_received (log : list Effect) : list (ConfigKey * LogEvent) :=
  omap (λ e, match e with
             | MetricsManager_onLogEvent key event => Some (key, event)
             | _ => None
             end) log.

(** [paced period now before after sent]: of the broadcasts that a rate
    limit of [period] governs, none was delivered and the time on record
    stays, or one was delivered at [now], a time that is on record from then
    on and is at least [period] after the time that was on record. *)
Definition paced {K} (period now : Z) (before after : option Z) (sent : list K)
    (k : K) : Prop :=
  (sent = [] ∧ after = before)
  ∨ (sent = [k] ∧ after = Some now
     ∧ ∀ last, before = Some last → period ≤ now - last).

(** Modelled from the spec: the guarantees about [dropData] and
    [flushRestrictedData] (of [MetricsManager], not among the sources) that
    the byte-size guardrail rests on.  Dropping the data of a manager clears
    it ("producer data cleared to zero"), and flushing restricted data to
    the database does not make a manager that is within its limit exceed
    it. *)
Definition guardrail_laws (M C : Type) `{!MetricsManager M C} : Prop :=
  (∀ t m, byteSize (dropData t m) = 0%N)
  ∧ (∀ m, (byteSize m ≤ getMaxMetricsBytes m)%N →
          (byteSize (flushRestrictedData m)
           ≤ getMaxMetricsBytes (flushRestrictedData m))%N).

Definition within_limit {M C} `{!MetricsManager M C} (m : M) : Prop :=
  (byteSize m ≤ getMaxMetricsBytes m)%N.

Section DispatchWords.
Context {M C : Type} `{!MetricsManager M C} `{!StatsdStats}.

(** The manager is handed the event: [OnLogEvent] skips a manager without
    restricted delegate when the event is restricted. *)
Definition takes_event (event : LogEvent) (m : M) : bool :=
  negb (mRestricted event && negb (hasRestrictedMetricsDelegate m)).

Definition check_due (env : Env C) (lastCheckTime : option Z) : Prop :=
  ∀ t, lastCheckTime = Some t →
       kMinByteSizeCheckPeriodNs ≤ getElapsedRealtimeNs env - t.

(** What [flushIfNecessaryLocked] does for its key and manager: [before]
    and [after] are the slices of the key, [m'] the manager it leaves. *)
Definition flushed (env : Env C) (key : ConfigKey) (before after : Slice M)
    (m' : M) (log : list Effect) : Prop :=
  events_received log = []
  ∧ activation_broadcasts log = []
  ∧ sl_manager after = sl_manager before
  ∧ paced kMinBroadcastPeriodNs (getElapsedRealtimeNs env)
          (sl_lastBroadcastTime before) (sl_lastBroadcastTime after)
          (data_broadcasts log) key
  ∧ (guardrail_laws M C → check_due env (sl_lastByteSizeTime before) →
     within_limit m').

(** What one pass of the loop of [OnLogEvent] over the managers does for
    its key. *)
Definition passed (env : Env C) (event : LogEvent) (key : ConfigKey)
    (before after : Slice M) (log : list Effect) : Prop :=
  events_received log
  = match sl_manager before with
    | Some m => if takes_event event m then [(key, event)] else []
    | None => []
    end
  ∧ activation_broadcasts log = []
  ∧ (is_Some (sl_manager after) ↔ is_Some (sl_manager before))
  ∧ paced kMinBroadcastPeriodNs (getElapsedRealtimeNs env)
          (sl_lastBroadcastTime before) (sl_lastBroadcastTime after)
          (data_broadcasts log) key
  ∧ (guardrail_laws M C →
     ∀ m, sl_manager before = Some m → takes_event event m = true →
          check_due env (sl_lastByteSizeTime before) →
          ∃ m', sl_manager after = Some m' ∧ within_limit m').

End DispatchWords.

(** Reads and writes of the train info on disk. *)
Definition train_info_call (e : Effect) : Prop :=
  match e with
  | StorageManager_readTrainInfo _ | StorageManager_writeTrainInfo _ => True
  | _ => False
  end.

(** The isolated-uid table and the train info on disk. *)
Definition uids_and_trains {M} (p : State M)
  : gmap Z Z * gmap string InstallTrainInfo :=
  (mIsolatedUidMap p, trainInfoOnDisk p).

(** The check of an [APP_BREADCRUMB_REPORTED] event in the words of the
    specification: the uid that the event carries (field [size - 2], the
    position computed on [size_t]) is the host uid of the caller, unless
    the caller is statsd itself, and the state that it carries (field
    [size]) lies in [0, 3]. *)
Definition breadcrumb_accepted `{!StatsdStats} (isolated : gmap Z Z)
    (event : LogEvent) : Prop :=
  ∃ appHookUid appHookState,
    GetLong event (to_uint64 (event_size event - 2)) = (appHookUid, NO_ERROR)
    ∧ GetLong event (event_size event) = (appHookState, NO_ERROR)
    ∧ (getHostUidOrSelf isolated (mLogUid event) = appHookUid
       ∨ getHostUidOrSelf isolated (mLogUid event) = AID_STATSD)
    ∧ 0 ≤ appHookState ≤ 3.

(** All members but the times of the last activation broadcasts. *)
Definition but_activation_times {M} (p : State M) : State M :=
  set_mLastActivationBroadcastTimes (λ _, ∅) p.

(** ** Sequences of calls *)

(** A call of [OnLogEvent(event, elapsedRealtimeNs)] with what the rest of
    the system answers during it. *)
Record Call (C : Type) := mkCall {
  call_env : Env C;
  call_event : LogEvent;
  call_elapsedRealtimeNs : Z
}.

Arguments mkCall {C}.
Arguments call_env {C} _.
Arguments call_event {C} _.
Arguments call_elapsedRealtimeNs {C} _.

(** The log of each call of a sequence of calls, each call starting in the
    state that the one before left. *)
Fixpoint run_calls {S Cl} (step : Cl → S → S * list Effect)
    (calls : list Cl) (s : S) : list (Cl * list Effect) :=
  match calls with
  | [] => []
  | c :: calls' => (c, (step c s).2) :: run_calls step calls' (step c s).1
  end.

Definition OnLogEvent_step {M C} `{!MetricsManager M C} `{!StatsdStats}
    `{!AtomsProto} (c : Call C) (p : State M) : State M * list Effect :=
  let r := OnLogEvent (call_env c) (call_event c) (call_elapsedRealtimeNs c) p in
  (state_of r, effects r).

Definition run_OnLogEvent {M C} `{!MetricsManager M C} `{!StatsdStats}
    `{!AtomsProto} (calls : list (Call C)) (p : State M)
  : list (Call C * list Effect) :=
  run_calls OnLogEvent_step calls p.

(** [separated period time sent trace]: two calls of the trace that both
    deliver a broadcast for [k] are at least [period] apart, and one call
    delivers at most one. *)
Definition separated {Cl K} `{!EqDecision K} (period : Z) (time : Cl → Z)
    (sent : list Effect → list K) (trace : list (Cl * list Effect)) (k : K) : Prop :=
  (∀ i j ci li cj lj,
      (i < j)%nat → trace !! i = Some (ci, li) → trace !! j = Some (cj, lj) →
      k ∈ sent li → k ∈ sent lj → period ≤ time cj - time ci)
  ∧ (∀ i ci li, trace !! i = Some (ci, li) →
                length (filter (λ k', k' = k) (sent li)) ≤ 1)%nat.

(** ** Vocabulary of the further properties *)

(** The experiment ids that [getAndUpdateTrainInfoOnDisk] goes on with: those
    of the record received when nothing is stored, or when the event is not a
    rollback and names a new version (other than -1) or starts with another
    id than the stored list; the stored ones otherwise. *)
Definition kept_experimentIds (is_rollback : bool) (t : InstallTrainInfo)
    (read : option InstallTrainInfo) : list Z :=
  match read with
  | None => experimentIds t
  | Some d =>
      let newVersion :=
        bool_decide (trainVersionCode t ≠ -1
                     ∧ trainVersionCode t ≠ trainVersionCode d) in
      let otherIds :=
        match experimentIds t, experimentIds d with
        | [], _ => false
        | _ :: _, [] => true
        | first :: _, firstOnDisk :: _ => bool_decide (first ≠ firstOnDisk)
        end in
      if (newVersion || otherIds) && negb is_rollback
      then experimentIds t else experimentIds d
  end.

(** The record that [getAndUpdateTrainInfoOnDisk] stores, member by member:
    the version received unless it is -1 and a record is stored; the name
    and status received; the ids kept, with the marker of the status; the
    three flags received, or on a rollback those of [trainInfoOnDisk], the
    local that a failed read leaves as constructed ([uninitialized]). *)
Definition updated_train_info (uninitialized : InstallTrainInfo)
    (is_rollback : bool) (t : InstallTrainInfo)
    (read : option InstallTrainInfo) : InstallTrainInfo :=
  let onDisk := default uninitialized read in
  mkInstallTrainInfo
    (match read with
     | Some d => if bool_decide (trainVersionCode t = -1)
                 then trainVersionCode d else trainVersionCode t
     | None => trainVersionCode t
     end)
    (trainName t) (status t)
    (with_marker (marker_of_state (status t))
                 (kept_experimentIds is_rollback t read))
    (if is_rollback then requiresStaging onDisk else requiresStaging t)
    (if is_rollback then rollbackEnabled onDisk else rollbackEnabled t)
    (if is_rollback then requiresLowLatencyMonitor onDisk
     else requiresLowLatencyMonitor t).

(** ** Further entry points of the processor *)

Section EntryPoints.
  Context {M C : Type} `{!MetricsManager M C} `{!StatsdStats} `{!AtomsProto}.
  Variable env : Env C.

  (** [GetActiveConfigsLocked(uid, outActiveConfigs)]; the result is the
      vector as the call leaves it, in the order of the iteration over the
      map. *)
Definition GetActiveConfigsLocked (p : State M) (uid : Z)
      (outActiveConfigs : list Z) : list Z :=
    let outActiveConfigs : list Z := [] in
    foldl (λ out pair,
             if bool_decide (GetUid pair.1 = uid) && isActive pair.2
             then out ++ [GetId pair.1] else out)
          outActiveConfigs (map_to_list (mMetricsManagers p)).

  (** [fillRestrictedMetrics(configId, configPackage, delegateUid, output)];
      the result is the vector as the call leaves it.  The keys come from
      the map, so that [mMetricsManagers[key]] finds a manager; [err] is
      empty and [invalidQueryReason] not initialised when they are passed. *)
Definition fillRestrictedMetrics (p : State M) (configId : Z)
      (configPackage : string) (delegateUid : Z)
      (indeterminate : InvalidQueryReason) (output : list Z) : list Z :=
    let configPackageUids : gset Z :=
      match sAidToUidMapping env configPackage with
      | Some uid => {[uid]}
      | None => getAppUid env configPackage
      end in
    let '(keysToGetMetrics, _, _) :=
      getRestrictedConfigKeysToQueryLocked p delegateUid configId
        configPackageUids EmptyString indeterminate in
    foldl (λ output key,
             match mMetricsManagers p !! key with
             | Some m => output ++ getAllMetricIds m
             | None => output
             end)
          output (elements keysToGetMetrics).

  (** [resetConfigsLocked(timestampNs)], over all configs *)
Definition resetConfigsLocked_all (timestampNs : Z) : Proc (State M) unit :=
    p ← get;
    resetConfigsLocked env timestampNs (managerKeys p).

  (** [EnforceDataTtls] *)
Definition EnforceDataTtls (wallClockNs elapsedRealtimeNs : Z)
    : Proc (State M) unit :=
    if negb (isAtLeastU env) then mret tt
    else enforceDataTtlsLocked wallClockNs elapsedRealtimeNs.

  (** [resetConfigs()] *)
Definition resetConfigs : Proc (State M) unit :=
    resetConfigsLocked_all (getElapsedRealtimeNs env).

  (** [noteOnDiskData(key)] *)
Definition noteOnDiskData (key : ConfigKey) : Proc (State M) unit :=
    modify (set_mOnDiskDataConfigs (λ s, {[key]} ∪ s)).

  (** [setAnomalyAlarm(elapsedTimeMillis)], [cancelAnomalyAlarm()] *)
Definition setAnomalyAlarm (elapsedTimeMillis : Z) : Proc (State M) unit :=
    modify (set_mNextAnomalyAlarmTime elapsedTimeMillis).

Definition cancelAnomalyAlarm : Proc (State M) unit :=
    modify (set_mNextAnomalyAlarmTime 0).

End EntryPoints.

(** The calls of [StorageManager::enforceDbGuardrails] that a log shows. *)
Definition db_guardrail_run (e : Effect) : option unit :=
  match e with
  | StorageManager_enforceDbGuardrails _ => Some tt
  | _ => None
  end.

Definition db_guardrail_runs (log : list Effect) : list unit :=
  omap db_guardrail_run log.


(** The queries of the restricted database that a log shows: the key of the
    configuration and the text of the query. *)
Definition db_query (e : Effect) : option (ConfigKey * string) :=
  match e with
  | dbutils_query key sqlQuery => Some (key, sqlQuery)
  | _ => None
  end.

Definition db_queries (log : list Effect) : list (ConfigKey * string) :=
  omap db_query log.

(** The calls on the uid map and the deletions of a restricted database that
    a log shows. *)
Definition uid_map_call (e : Effect) : option Effect :=
  match e with
  | UidMap_OnConfigUpdated _ | UidMap_OnConfigRemoved _ => Some e
  | _ => None
  end.

Definition uid_map_calls (log : list Effect) : list Effect :=
  omap uid_map_call log.

Definition db_deletion (e : Effect) : option ConfigKey :=
  match e with
  | dbutils_deleteDb key => Some key
  | _ => None
  end.

Definition db_deletions (log : list Effect) : list ConfigKey :=
  omap db_deletion log.

(** ** Runs of the processor *)

(** The calls on the processor that a run is made of, each with what the
    rest of the system answers during it: the calls of this file other than
    [OnConfigRemoved], which erases the times of the last broadcasts. *)
Inductive ProcessorCall (C : Type) :=
| Call_OnLogEvent (c : Call C)
| Call_OnConfigUpdated (env : Env C) (timestampNs wallClockNs : Z)
    (key : ConfigKey) (config : C) (modularUpdate : bool)
| Call_WriteDataToDisk (env : Env C) (dumpReportReason : DumpReportReason)
    (dumpLatency : DumpLatency) (elapsedRealtimeNs wallClockNs : Z)
| Call_resetConfigs (env : Env C)
| Call_querySql (env : Env C) (sqlQuery : string) (minSqlClientVersion : Z)
    (configId : Z) (configPackage : string) (callingUid : Z)
    (indeterminate : InvalidQueryReason)
| Call_EnforceDataTtls (env : Env C) (wallClockNs elapsedRealtimeNs : Z)
| Call_processWatchdogRollbackOccurred (rollbackTypeIn : RollbackType)
    (packageNameIn : string)
| Call_noteOnDiskData (key : ConfigKey)
| Call_setAnomalyAlarm (elapsedTimeMillis : Z)
| Call_cancelAnomalyAlarm.

Arguments Call_OnLogEvent {C} _.
Arguments Call_OnConfigUpdated {C} _ _ _ _ _ _.
Arguments Call_WriteDataToDisk {C} _ _ _ _ _.
Arguments Call_resetConfigs {C} _.
Arguments Call_querySql {C} _ _ _ _ _ _ _.
Arguments Call_EnforceDataTtls {C} _ _ _.
Arguments Call_processWatchdogRollbackOccurred {C} _ _.
Arguments Call_noteOnDiskData {C} _.
Arguments Call_setAnomalyAlarm {C} _.
Arguments Call_cancelAnomalyAlarm {C}.

Definition ran {S A} (r : A * S * list Effect) : S * list Effect :=
  (state_of r, effects r).

Definition processor_step {M C} `{!MetricsManager M C} `{!StatsdStats}
    `{!AtomsProto} (c : ProcessorCall C) (p : State M) : State M * list Effect :=
  match c with
  | Call_OnLogEvent c => OnLogEvent_step c p
  | Call_OnConfigUpdated env timestampNs wallClockNs key config modularUpdate =>
      ran (OnConfigUpdated env timestampNs wallClockNs key config modularUpdate p)
  | Call_WriteDataToDisk env reason latency elapsedRealtimeNs wallClockNs =>
      ran (WriteDataToDiskLocked env reason latency elapsedRealtimeNs wallClockNs p)
  | Call_resetConfigs env => ran (resetConfigs env p)
  | Call_querySql env sqlQuery minSqlClientVersion configId configPackage
                  callingUid indeterminate =>
      ran (querySql env sqlQuery minSqlClientVersion configId configPackage
             callingUid indeterminate p)
  | Call_EnforceDataTtls env wallClockNs elapsedRealtimeNs =>
      ran (EnforceDataTtls env wallClockNs elapsedRealtimeNs p)
  | Call_processWatchdogRollbackOccurred rollbackTypeIn packageNameIn =>
      ran (processWatchdogRollbackOccurred rollbackTypeIn packageNameIn p)
  | Call_noteOnDiskData key => ran (noteOnDiskData key p)
  | Call_setAnomalyAlarm elapsedTimeMillis => ran (setAnomalyAlarm elapsedTimeMillis p)
  | Call_cancelAnomalyAlarm => ran (cancelAnomalyAlarm p)
  end.

Definition run_processor {M C} `{!MetricsManager M C} `{!StatsdStats}
    `{!AtomsProto} (calls : list (ProcessorCall C)) (p : State M)
  : list (ProcessorCall C * list Effect) :=
  run_calls processor_step calls p.

(** The calls other than those on the two broadcast callbacks. *)
Definition no_broadcast_call (e : Effect) : Prop :=
  match e with
  | call_mSendBroadcast _ _ | call_mSendActivationBroadcast _ _ _ => False
  | _ => True
  end.

(** The elapsed time handed to a call of [OnLogEvent] and the clock it
    reads; other calls deliver no broadcast. *)
Definition elapsed_of {C} (c : ProcessorCall C) : Z :=
  match c with
  | Call_OnLogEvent c => call_elapsedRealtimeNs c
  | _ => 0
  end.

Definition clock_of {C} (c : ProcessorCall C) : Z :=
  match c with
  | Call_OnLogEvent c => getElapsedRealtimeNs (call_env c)
  | _ => 0
  end.

(** The times of the last broadcasts on record. *)
Definition broadcast_times {M} (p : State M) : gmap ConfigKey Z * gmap Z Z :=
  (mLastBroadcastTimes p, mLastActivationBroadcastTimes p).

(** * Theorems *)

Section MonadFacts.
  Context {S : Type}.
  Implicit Types (s : S).

Lemma bind_run {A B} (m : Proc S A) (k : A → Proc S B) s :
    (m ≫= k) s =
    (result (k (result (m s)) (state_of (m s))),
     state_of (k (result (m s)) (state_of (m s))),
     effects (m s) ++ effects (k (result (m s)) (state_of (m s)))).
  Proof.
    unfold mbind, Proc_bind, result, state_of, effects.
    destruct (m s) as [[a s1] e1]. simpl. destruct (k a s1) as [[b s2] e2]. reflexivity.
  Qed.

Lemma frames_ret {A X} (f : S → X) ok (a : A) : frames f ok (mret a : Proc S A).
  Proof. intros s. split; [reflexivity | constructor]. Qed.

Lemma frames_bind {A B X} (f : S → X) ok (m : Proc S A) (k : A → Proc S B) :
    frames f ok m → (∀ a, frames f ok (k a)) → frames f ok (m ≫= k).
  Proof.
    intros Hm Hk s. rewrite bind_run.
    destruct (Hm s) as [Hs He]. destruct (Hk (result (m s)) (state_of (m s))) as [Hs' He'].
    split; [exact (eq_trans Hs' Hs) | by apply Forall_app].
  Qed.

Lemma frames_emit {X} (f : S → X) (ok : Effect → Prop) e : ok e → frames f ok (emit e).
  Proof. intros H s. split; [reflexivity | by repeat constructor]. Qed.

Lemma frames_get {X} (f : S → X) ok : frames f ok get.
  Proof. intros s. split; [reflexivity | constructor]. Qed.

Lemma frames_modify {X} (f : S → X) ok g :
    (∀ s, f (g s) = f s) → frames f ok (modify g).
  Proof. intros H s. split; [apply H | constructor]. Qed.

Lemma frames_when {X} (f : S → X) ok b m :
    frames f ok m → frames f ok (when b m).
  Proof. destruct b; [done|]. intros _. apply frames_ret. Qed.

Lemma frames_forM_ {A X} (f : S → X) ok (l : list A) body :
    (∀ x, frames f ok (body x)) → frames f ok (forM_ l body).
  Proof.
    intros H. induction l as [|x l IH]; simpl.
    - apply frames_ret.
    - apply frames_bind; [apply H | intros _; apply IH].
  Qed.

Lemma frames_foldM {A B X} (f : S → X) ok (l : list A) (b : B) body :
    (∀ x b, frames f ok (body x b)) → frames f ok (foldM l b body).
  Proof.
    intros H. revert b. induction l as [|x l IH]; intros b; simpl.
    - apply frames_ret.
    - apply frames_bind; [apply H | intros b'; apply IH].
  Qed.

Lemma frames_weaken {A X} (f : S → X) (ok ok' : Effect → Prop) (m : Proc S A) :
    (∀ e, ok e → ok' e) → frames f ok m → frames f ok' m.
  Proof.
    intros H Hm s. destruct (Hm s) as [Hs He]. split; [done|].
    eapply Forall_impl; eauto.
  Qed.

Lemma wp_bind {A B} (m : Proc S A) (k : A → Proc S B) Q s :
    wp m (λ a s1 e1, wp (k a) (λ b s2 e2, Q b s2 (e1 ++ e2)) s1) s →
    wp (m ≫= k) Q s.
  Proof. unfold wp. by rewrite bind_run. Qed.

Lemma wp_ret {A} (a : A) (Q : A → S → list Effect → Prop) s :
    Q a s [] → wp (mret a) Q s.
  Proof. done. Qed.

Lemma wp_get (Q : S → S → list Effect → Prop) s : Q s s [] → wp get Q s.
  Proof. done. Qed.

Lemma wp_modify f (Q : unit → S → list Effect → Prop) s :
    Q tt (f s) [] → wp (modify f) Q s.
  Proof. done. Qed.

Lemma wp_emit e (Q : unit → S → list Effect → Prop) s :
    Q tt s [e] → wp (emit e) Q s.
  Proof. done. Qed.

Lemma wp_when (b : bool) m (Q : unit → S → list Effect → Prop) s :
    (b = true → wp m Q s) → (b = false → Q tt s []) → wp (when b m) Q s.
  Proof. destruct b; intros H1 H2; [by apply H1 | by apply H2]. Qed.

Lemma wp_frames {A X} (f : S → X) ok (m : Proc S A) Q s :
    frames f ok m →
    (∀ a s' es, f s' = f s → Forall ok es → Q a s' es) →
    wp m Q s.
  Proof. intros Hm HQ. destruct (Hm s). by apply HQ. Qed.

Lemma wp_log_only (m : Proc S unit) (Q : unit → S → list Effect → Prop) s :
    frames id (λ _, True) m → (∀ es, Q tt s es) → wp m Q s.
  Proof.
    intros Hm HQ. destruct (Hm s) as [Hs _]. unfold wp, id in *.
    destruct (result (m s)). rewrite Hs. apply HQ.
  Qed.

Lemma wp_conseq {A} (m : Proc S A) (Q Q' : A → S → list Effect → Prop) s :
    wp m Q s → (∀ a s' es, Q a s' es → Q' a s' es) → wp m Q' s.
  Proof. unfold wp. auto. Qed.
End MonadFacts.

(** A computation that only logs leaves the whole state alone. *)
Ltac wp_step :=
  lazymatch goal with
  | |- wp (_ ≫= _) _ _ => apply wp_bind
  | |- wp (mret _) _ _ => apply wp_ret
  | |- wp get _ _ => apply wp_get
  | |- wp (modify _) _ _ => apply wp_modify
  | |- wp (emit _) _ _ => apply wp_emit
  | |- wp (when true ?m) ?Q ?s => change (wp m Q s)
  | |- wp (when false ?m) ?Q ?s => change (Q tt s [])
  end; cbn beta.

Ltac frames_step :=
  lazymatch goal with
  | |- frames _ _ (mret _) => apply frames_ret
  | |- frames _ _ (_ ≫= _) => apply frames_bind; [| intros ?]
  | |- frames _ _ (emit _) => apply frames_emit
  | |- frames _ _ get => apply frames_get
  | |- frames _ _ (modify _) => apply frames_modify
  | |- frames _ _ (when _ _) => apply frames_when
  | |- frames _ _ (forM_ _ _) => apply frames_forM_; intros ?
  | |- frames _ _ (foldM _ _ _) => apply frames_foldM; intros ? ?
  | |- frames _ _ (match ?x with _ => _ end) => destruct x
  | |- frames _ _ (if ?x then _ else _) => destruct x
  | |- frames _ _ (let '(_, _) := ?x in _) => destruct x
  end.

Ltac frames_auto := repeat (frames_step; try done).

(** [wp_log_only]: step over a computation that only logs; for goals that
    do not speak about the log. *)
Ltac wp_skip_log :=
  apply wp_log_only; [solve [frames_auto] | intros ?; cbn beta].

(** For goals about the log: step through what is known, and step over
    log-only computations guarded by conditions that are not. *)
Ltac wp_log :=
  repeat first
    [ wp_step
    | progress cbn [negb andb orb]
    | progress unfold setManager, updateLogEventFilterLocked
    | match goal with
      | H : ?b = _ |- wp (when ?c _) _ _ =>
          match c with context [b] => rewrite H end
      | H : ?b = _ |- wp (when ?c _ ≫= _) _ _ =>
          match c with context [b] => rewrite H end
      end
    | wp_skip_log ].

Ltac wp_state :=
  repeat first
    [ wp_skip_log
    | wp_step
    | progress cbn [negb andb orb]
    | progress unfold setManager, updateLogEventFilterLocked ].

Section FoldFacts.
  Context {S A B X : Type}.

  (** A loop over distinct indices whose body changes the slice of its own
      index only: every slice ends as the body of its index left it, and
      the log is the sequence of the logs of the bodies. *)
Lemma foldM_slices (sl : A → S → X) (R : A → X → X → list Effect → Prop)
      (body : A → B → Proc S B) :
    (∀ x b s,
        wp (body x b)
           (λ _ s' es, (∀ k, k ≠ x → sl k s' = sl k s) ∧ R x (sl x s) (sl x s') es) s) →
    ∀ l b s, NoDup l →
      wp (foldM l b body)
         (λ _ s' es,
            (∀ k, k ∉ l → sl k s' = sl k s)
            ∧ ∃ ess, es = concat ess
                     ∧ Forall2 (λ x es_x, R x (sl x s) (sl x s') es_x) l ess) s.
  Proof.
    intros Hbody l. induction l as [|x l IH]; intros b s Hnd.
    - simpl. apply wp_ret. split; [done|]. exists []. split; [done|constructor].
    - simpl. apply NoDup_cons in Hnd as [Hx Hnd]. apply wp_bind.
      eapply wp_conseq; [apply Hbody|]. intros b1 s1 es1 [Hoth HR]. cbn beta.
      eapply wp_conseq; [apply (IH b1 s1 Hnd)|].
      intros b2 s2 es2 (Hoth2 & ess & -> & Hall). cbn beta. split.
      + intros k Hk. apply not_elem_of_cons in Hk as [Hkx Hkl].
        rewrite Hoth2 by done. by apply Hoth.
      + exists (es1 :: ess). split; [done|]. constructor.
        * rewrite (Hoth2 x Hx). exact HR.
        * apply Forall2_same_length_lookup in Hall as [Hlen Hall].
          apply Forall2_same_length_lookup. split; [done|].
          intros i y es_y Hy Hes. specialize (Hall i y es_y Hy Hes).
          cbn beta in Hall. rewrite <- (Hoth y); [exact Hall|].
          intros ->. apply Hx. by eapply list_elem_of_lookup_2.
  Qed.
End FoldFacts.

Section MultiConditionTriggerFacts.
  Import MultiConditionTrigger.
  Implicit Types (s : t) (c : string) (calls : list string) (names : gset string).

Lemma create_flag_agrees names : flag_agrees (fst (create names)).
  Proof. reflexivity. Qed.

Lemma markComplete_flag_agrees c s :
    flag_agrees s → flag_agrees (fst (markComplete c s)).
  Proof.
    unfold markComplete, flag_agrees. intros Hf.
    destruct (mCompleted s) eqn:E; simpl; [by rewrite E | done].
  Qed.

Lemma markComplete_completed c s :
    mCompleted s = true → markComplete c s = (s, false).
  Proof. unfold markComplete. intros ->. reflexivity. Qed.

Lemma markComplete_absent c s :
    flag_agrees s → c ∉ mRemainingConditionNames s → markComplete c s = (s, false).
  Proof.
    unfold markComplete, flag_agrees. intros Hf Hc.
    destruct (mCompleted s) eqn:E; [reflexivity|].
    assert (Hsame : mRemainingConditionNames s ∖ {[c]} = mRemainingConditionNames s).
    { apply set_eq. intros x. rewrite elem_of_difference, elem_of_singleton.
      split; [tauto|]. intros Hx. split; [done|]. intros ->. done. }
    rewrite Hsame, <- Hf. destruct s; simpl in *; subst; reflexivity.
  Qed.

Lemma run_from_flag_agrees calls : ∀ s x,
    flag_agrees s → x ∈ run_from s calls → flag_agrees (fst x).
  Proof.
    induction calls as [|c calls IH]; simpl; intros s x Hs Hx.
    - inversion Hx.
    - apply elem_of_cons in Hx as [-> | Hx].
      + by apply markComplete_flag_agrees.
      + eapply IH; [|exact Hx]. by apply markComplete_flag_agrees.
  Qed.

Lemma reachable_flag_agrees s : reachable s → flag_agrees s.
  Proof.
    intros (names & calls & Hl). unfold states, run in Hl.
    rewrite fmap_last in Hl.
    destruct (last _) as [x|] eqn:E; [|discriminate]. simpl in Hl. injection Hl as <-.
    apply last_Some_elem_of in E. apply elem_of_cons in E as [-> | E].
    - apply create_flag_agrees.
    - eapply run_from_flag_agrees; [|exact E]. apply create_flag_agrees.
  Qed.

  (** Once completed, every later call is a no-op. *)
Lemma run_from_completed calls : ∀ s i x,
    mCompleted s = true → run_from s calls !! i = Some x → x = (s, false).
  Proof.
    induction calls as [|c calls IH]; simpl; intros s i x Hs Hx; [done|].
    rewrite markComplete_completed in Hx by done. simpl in Hx.
    destruct i as [|i]; simpl in Hx; [congruence|]. eauto.
  Qed.

Lemma run_from_dispatch calls : ∀ s i,
    flag_agrees s → mCompleted s = false →
    (snd <$> run_from s calls) !! i = Some true ↔
    first_empty_at (fst <$> run_from s calls) i.
  Proof.
    induction calls as [|c calls IH]; intros s i Hf Hs.
    - simpl. split; [done|]. intros (s' & H & _). done.
    - simpl. pose proof (markComplete_flag_agrees c s Hf) as Hf'.
      destruct (markComplete c s) as [s1 b] eqn:Em. simpl in *.
      assert (Hb : b = mCompleted s1).
      { unfold markComplete in Em. rewrite Hs in Em. by injection Em as <- <-. }
      assert (Hrem : b = true ↔ mRemainingConditionNames s1 = ∅).
      { rewrite Hb, Hf'. by rewrite bool_decide_eq_true. }
      destruct i as [|i]; simpl.
      + split.
        * intros [= ->]. exists s1. split; [done|]. split; [by apply Hrem|]. intros; lia.
        * intros (s' & [= <-] & He & _). f_equal. by apply Hrem.
      + destruct b.
        * (* completed by this call: nothing later dispatches *)
          split.
          -- rewrite list_lookup_fmap. destruct (run_from s1 calls !! i) as [x|] eqn:E; [|done].
             apply run_from_completed in E; [|done]. by subst.
          -- intros (s' & _ & _ & Hall). exfalso.
             apply (Hall 0%nat s1); [lia|done|]. by apply Hrem.
        * rewrite IH by done. unfold first_empty_at. split.
          -- intros (s' & Hl & He & Hall). exists s'. split; [done|]. split; [done|].
             intros [|j] s2 Hj Hl2; simpl in Hl2.
             ++ injection Hl2 as <-. intros Hx. apply Hrem in Hx. done.
             ++ eapply Hall; [|done]. lia.
          -- intros (s' & Hl & He & Hall). exists s'. split; [done|]. split; [done|].
             intros j s2 Hj Hl2. apply (Hall (S j) s2); [lia|done].
  Qed.

Lemma run_from_count calls : ∀ s,
    (length (filter (λ b, b = true) (snd <$> run_from s calls)) ≤
     if mCompleted s then 0 else 1)%nat.
  Proof.
    induction calls as [|c calls IH]; intros s.
    - simpl. destruct (mCompleted s); simpl; lia.
    - cbn [run_from fmap list_fmap]. specialize (IH (fst (markComplete c s))).
      destruct (markComplete c s) as [s1 b] eqn:Em. cbn [fst snd] in *.
      unfold markComplete in Em. destruct (mCompleted s) eqn:Hs.
      + injection Em as <- <-. rewrite Hs in IH. by rewrite filter_cons_False.
      + injection Em as <- <-. cbn [mCompleted] in IH.
        destruct (bool_decide _) eqn:E.
        * rewrite filter_cons_True by done. cbn [length]. lia.
        * rewrite filter_cons_False by done. lia.
  Qed.

Lemma markComplete_remaining c s :
    flag_agrees s →
    mRemainingConditionNames (fst (markComplete c s))
    = mRemainingConditionNames s ∖ {[c]}.
  Proof.
    intros Hf. unfold markComplete. destruct (mCompleted s) eqn:Hs; [|done].
    unfold flag_agrees in Hf. rewrite Hs in Hf. symmetry in Hf.
    apply bool_decide_eq_true_1 in Hf. cbn [fst]. rewrite Hf.
    apply set_eq. intros x. rewrite elem_of_difference. split; [inversion 1|].
    intros [Hx _]. inversion Hx.
  Qed.

Lemma difference_empty_subseteq (R S : gset string) : R ∖ S = ∅ ↔ R ⊆ S.
  Proof.
    split.
    - intros He x Hx. destruct (decide (x ∈ S)) as [|Hn]; [done|].
      assert (Hin : x ∈ R ∖ S) by (by apply elem_of_difference).
      rewrite He in Hin. inversion Hin.
    - intros Hsub. apply set_eq. intros x. rewrite elem_of_difference.
      split; [intros [Hx Hn]; by specialize (Hsub x Hx) | inversion 1].
  Qed.

  (** The names that remain after the call of index [i]. *)
Lemma run_from_remaining_at calls : ∀ s i x,
    flag_agrees s →
    (fst <$> run_from s calls) !! i = Some x →
    mRemainingConditionNames x
    = mRemainingConditionNames s ∖ list_to_set (take (S i) calls).
  Proof.
    induction calls as [|c calls IH]; intros s i x Hf Hx; [done|].
    cbn [run_from fmap list_fmap] in Hx.
    pose proof (markComplete_flag_agrees c s Hf) as Hf'.
    destruct i as [|i]; cbn [lookup list_lookup] in Hx.
    - injection Hx as <-. rewrite (markComplete_remaining c s Hf).
      cbn [take list_to_set foldr]. rewrite take_0. cbn [list_to_set foldr].
      apply set_eq. intros z. rewrite !elem_of_difference, elem_of_union.
      split; [intros [? ?]; split; [done|]; intros [?|Hz]; [done|inversion Hz]
             | tauto].
    - rewrite (IH _ _ _ Hf' Hx), (markComplete_remaining c s Hf).
      cbn [take list_to_set foldr].
      apply set_eq. intros z. rewrite !elem_of_difference, elem_of_union. tauto.
  Qed.

Lemma states_length names calls :
    length (states names calls) = S (length calls).
  Proof.
    unfold states, run. cbn [fmap list_fmap length]. f_equal.
    rewrite length_fmap. generalize (fst (create names)).
    induction calls as [|c calls IH]; intros s; [done|].
    cbn [run_from length]. by rewrite IH.
  Qed.

  (** The state after construction and [i] calls, in terms of the names
      given and the names marked. *)
Lemma states_at names calls i s :
    states names calls !! i = Some s →
    mRemainingConditionNames s = names ∖ list_to_set (take i calls)
    ∧ mCompleted s = bool_decide (names ⊆ list_to_set (take i calls)).
  Proof.
    intros Hs.
    assert (Hrem : mRemainingConditionNames s = names ∖ list_to_set (take i calls)).
    { unfold states, run in Hs. cbn [fmap list_fmap] in Hs.
      destruct i as [|i]; cbn [lookup list_lookup] in Hs.
      - injection Hs as <-. rewrite take_0. cbn.
        apply set_eq. intros z. rewrite elem_of_difference.
        split; [intros ?; split; [done | inversion 1] | tauto].
      - by rewrite (run_from_remaining_at calls _ _ _ (create_flag_agrees names) Hs). }
    split; [exact Hrem|].
    assert (Hf : flag_agrees s).
    { apply list_elem_of_lookup_2 in Hs. unfold states, run in Hs.
      apply list_elem_of_fmap in Hs as (x & -> & Hx).
      apply elem_of_cons in Hx as [-> | Hx]; [apply create_flag_agrees|].
      eapply run_from_flag_agrees; [apply create_flag_agrees | exact Hx]. }
    unfold flag_agrees in Hf. rewrite Hf, Hrem.
    apply bool_decide_ext, difference_empty_subseteq.
  Qed.


End MultiConditionTriggerFacts.

Section MultiConditionTriggerRuns.
  Import MultiConditionTrigger.
  Implicit Types (s : t) (c : string) (calls : list string) (names : gset string).

Lemma dispatch_count_le_1 names calls : (dispatch_count names calls ≤ 1)%nat.
  Proof.
    unfold dispatch_count, dispatches, run.
    pose proof (run_from_count calls (fst (create names))) as H.
    cbn [fmap list_fmap]. unfold create in *. cbn [fst snd] in *.
    cbn [mCompleted] in H.
    destruct (bool_decide (names = ∅)) eqn:E.
    + rewrite filter_cons_True by done. cbn [length]. lia.
    + rewrite filter_cons_False by done. lia.
  Qed.

Lemma dispatches_first_empty names calls i :
    dispatches names calls !! i = Some true ↔
    first_empty_at (states names calls) i.
  Proof.
    unfold dispatches, states, run.
    change (map fst) with (fmap (M:=list) (@fst t bool)).
    simpl. destruct i as [|i]; simpl.
    + split.
      * intros [= E]. apply bool_decide_eq_true in E. eexists. split; [done|]. split; [done|].
        intros; lia.
      * intros (s & [= <-] & He & _). simpl in He. f_equal. by apply bool_decide_eq_true.
    + destruct (bool_decide (names = ∅)) eqn:E.
      * split.
        -- rewrite list_lookup_fmap.
           destruct (run_from _ calls !! i) as [x|] eqn:Ex; [|done].
           apply run_from_completed in Ex; [|done]. by subst.
        -- intros (s' & _ & _ & Hall). exfalso. apply bool_decide_eq_true in E.
           eapply (Hall 0%nat); [lia|done|done].
      * rewrite run_from_dispatch; [|done|done]. apply bool_decide_eq_false in E.
        unfold first_empty_at. split.
        -- intros (s' & Hl & He & Hall). exists s'. split; [done|]. split; [done|].
           intros [|j] s2 Hj Hl2; simpl in Hl2.
           ++ by injection Hl2 as <-.
           ++ eapply Hall; [|done]. lia.
        -- intros (s' & Hl & He & Hall). exists s'. split; [done|]. split; [done|].
           intros j s2 Hj Hl2. apply (Hall (S j) s2); [lia|done].
  Qed.
End MultiConditionTriggerRuns.

(** C10.  For every set of condition names and every sequence of
    [markComplete] calls: the trigger starts with the names given, and
    after the constructor and [i] calls it awaits the names given that none
    of these calls has marked, and is completed iff none is left; the
    trigger is dispatched at most once; it is dispatched by exactly the
    operation (the constructor or a call) after which the set of remaining
    names is empty for the first time, that is, by the constructor when no
    name is given and otherwise by the first call at which every name given
    has been marked; and a call made after completion, or naming a
    condition that is not awaited, leaves the trigger's state unchanged and
    dispatches nothing. *)
Theorem MultiConditionTrigger_dispatched_once_when_first_empty :
  ∀ (names : gset string) (calls : list string),
    (MultiConditionTrigger.dispatch_count names calls ≤ 1)%nat ∧
    length (MultiConditionTrigger.states names calls) = S (length calls) ∧
    (∀ i s, MultiConditionTrigger.states names calls !! i = Some s →
            MultiConditionTrigger.mRemainingConditionNames s
            = names ∖ list_to_set (take i calls)
            ∧ MultiConditionTrigger.mCompleted s
              = bool_decide (names ⊆ list_to_set (take i calls))) ∧
    (∀ i, MultiConditionTrigger.dispatches names calls !! i = Some true ↔
          MultiConditionTrigger.first_empty_at (MultiConditionTrigger.states names calls) i) ∧
    (∀ i, MultiConditionTrigger.dispatches names calls !! i = Some true ↔
          (i ≤ length calls)%nat
          ∧ names ⊆ list_to_set (take i calls)
          ∧ ∀ j, (j < i)%nat → ¬ names ⊆ list_to_set (take j calls)) ∧
    (∀ s c, MultiConditionTrigger.reachable s →
            MultiConditionTrigger.mCompleted s = true →
            MultiConditionTrigger.markComplete c s = (s, false)) ∧
    (∀ s c, MultiConditionTrigger.reachable s →
            c ∉ MultiConditionTrigger.mRemainingConditionNames s →
            MultiConditionTrigger.markComplete c s = (s, false)).
Proof.
  intros names calls.
  assert (Hfirst : ∀ i,
            MultiConditionTrigger.dispatches names calls !! i = Some true ↔
            MultiConditionTrigger.first_empty_at
              (MultiConditionTrigger.states names calls) i).
  { intros i. apply dispatches_first_empty. }
  split; [|split; [|split; [|split; [|split; [|split]]]]].
  - apply dispatch_count_le_1.
  - apply states_length.
  - intros i s. apply states_at.
  - exact Hfirst.
  - intros i. rewrite Hfirst. unfold MultiConditionTrigger.first_empty_at. split.
    + intros (s & Hs & He & Hall).
      pose proof (lookup_lt_Some _ _ _ Hs) as Hlt. rewrite states_length in Hlt.
      split; [lia|]. split.
      * apply difference_empty_subseteq.
        by rewrite <- (proj1 (states_at names calls i s Hs)).
      * intros j Hj Hsub.
        destruct (lookup_lt_is_Some_2 (MultiConditionTrigger.states names calls) j)
          as [s' Hs']; [rewrite states_length; lia|].
        apply (Hall j s' Hj Hs').
        rewrite (proj1 (states_at names calls j s' Hs')).
        by apply difference_empty_subseteq.
    + intros (Hle & Hsub & Hall).
      destruct (lookup_lt_is_Some_2 (MultiConditionTrigger.states names calls) i)
        as [s Hs]; [rewrite states_length; lia|].
      exists s. split; [done|]. split.
      * rewrite (proj1 (states_at names calls i s Hs)).
        by apply difference_empty_subseteq.
      * intros j s' Hj Hs' He. apply (Hall j Hj).
        apply difference_empty_subseteq.
        by rewrite <- (proj1 (states_at names calls j s' Hs')).
  - intros s c _ Hs. by apply markComplete_completed.
  - intros s c Hr Hc. apply markComplete_absent; [|done]. by apply reachable_flag_agrees.
Qed.

(** Names {a, b} and the calls a, c, b, a: the trigger is dispatched by the
    third call, the first after which both names are marked. *)
Lemma MultiConditionTrigger_dispatched_once_when_first_empty_witness :
  MultiConditionTrigger.dispatches {["a"; "b"]}%string ["a"; "c"; "b"; "a"]%string !! 3%nat
  = Some true.
Proof.
  apply (proj1 (proj2 (proj2 (proj2 (proj2
           (MultiConditionTrigger_dispatched_once_when_first_empty
              {["a"; "b"]}%string ["a"; "c"; "b"; "a"]%string)))))).
  split; [cbn; lia|]. split.
  - apply (bool_decide_unpack _). by vm_compute.
  - intros j Hj Hsub. apply (bool_decide_pack _) in Hsub.
    destruct j as [|[|[|j]]]; [| | |lia]; vm_compute in Hsub; exact Hsub.
Defined.

Section TrainInfoFacts.
  Context {M C : Type}.
  Implicit Types (p : State M) (d t : InstallTrainInfo) (ids : list Z).

Lemma push_back_if_absent_marker firstId k rest :
    push_back_if_absent (firstId + k) (firstId :: rest)
    = with_marker (Some k) (firstId :: rest).
  Proof.
    unfold push_back_if_absent, with_marker.
    destruct (decide _) as [H|H].
    - by rewrite bool_decide_eq_true_2.
    - by rewrite bool_decide_eq_false_2.
  Qed.

Lemma push_back_if_absent_idem x ids :
    push_back_if_absent x (push_back_if_absent x ids) = push_back_if_absent x ids.
  Proof.
    assert (Hin : x ∈ push_back_if_absent x ids).
    { unfold push_back_if_absent. case_bool_decide; [done|].
      apply elem_of_app. right. by apply list_elem_of_singleton. }
    generalize dependent (push_back_if_absent x ids). intros l Hl.
    unfold push_back_if_absent. by rewrite bool_decide_eq_true_2.
  Qed.

Lemma push_back_if_absent_head x firstId rest :
    ∃ rest', push_back_if_absent x (firstId :: rest) = firstId :: rest'.
  Proof.
    unfold push_back_if_absent. destruct (bool_decide _); simpl; eauto.
  Qed.

Lemma set_trainInfoOnDisk_twice f g p :
    set_trainInfoOnDisk f (set_trainInfoOnDisk g p) = set_trainInfoOnDisk (f ∘ g) p.
  Proof. by destruct p. Qed.

Lemma set_trainInfoOnDisk_ext f g p :
    f (trainInfoOnDisk p) = g (trainInfoOnDisk p) →
    set_trainInfoOnDisk f p = set_trainInfoOnDisk g p.
  Proof. destruct p; simpl. by intros ->. Qed.

Lemma trainInfoOnDisk_set f p :
    trainInfoOnDisk (set_trainInfoOnDisk f p) = f (trainInfoOnDisk p).
  Proof. by destruct p. Qed.

Lemma readTrainInfo_run name p :
    readTrainInfo name p
    = (trainInfoOnDisk p !! name, p, [StorageManager_readTrainInfo name]).
  Proof. reflexivity. Qed.

Lemma writeTrainInfo_run t p :
    writeTrainInfo t p
    = (tt, set_trainInfoOnDisk (insert (trainName t) t) p,
       [StorageManager_writeTrainInfo t]).
  Proof. reflexivity. Qed.

  (** What [processWatchdogRollbackOccurred] does to a stored record with a
      non-empty list, for the two rollback types it handles. *)
Lemma processWatchdog_stored (type : RollbackType) pkg p d k :
    pkg ≠ EmptyString →
    trainInfoOnDisk p !! pkg = Some d →
    experimentIds d ≠ [] →
    marker_of_rollback type = Some k →
    let ids' := with_marker (Some k) (experimentIds d) in
    processWatchdogRollbackOccurred type pkg p
    = (ids',
       set_trainInfoOnDisk (insert (trainName d) (with_experimentIds ids' d)) p,
       [StorageManager_readTrainInfo pkg;
        StorageManager_writeTrainInfo (with_experimentIds ids' d)]).
  Proof.
    intros Hpkg Hd Hne Hk. unfold processWatchdogRollbackOccurred.
    rewrite bool_decide_eq_false_2 by done.
    rewrite bind_run, readTrainInfo_run. cbn [result state_of effects fst snd].
    rewrite Hd. destruct (experimentIds d) as [|firstId rest] eqn:Ei; [done|].
    destruct type; simpl in Hk; simplify_eq; rewrite push_back_if_absent_marker;
      rewrite bind_run, writeTrainInfo_run; reflexivity.
  Qed.

Lemma processWatchdog_other code pkg p d :
    pkg ≠ EmptyString →
    trainInfoOnDisk p !! pkg = Some d →
    processWatchdogRollbackOccurred (OTHER_ROLLBACK_TYPE code) pkg p
    = (experimentIds d, p, [StorageManager_readTrainInfo pkg]).
  Proof.
    intros Hpkg Hd. unfold processWatchdogRollbackOccurred.
    rewrite bool_decide_eq_false_2 by done.
    rewrite bind_run, readTrainInfo_run. cbn [result state_of effects fst snd].
    rewrite Hd. by destruct (experimentIds d).
  Qed.

Lemma processWatchdog_nothing (type : RollbackType) pkg p :
    pkg = EmptyString ∨ trainInfoOnDisk p !! pkg = None
    ∨ (∃ d, trainInfoOnDisk p !! pkg = Some d ∧ experimentIds d = []) →
    result (processWatchdogRollbackOccurred type pkg p) = []
    ∧ state_of (processWatchdogRollbackOccurred type pkg p) = p.
  Proof.
    unfold processWatchdogRollbackOccurred. intros [->|H]; [done|].
    case_bool_decide; [done|].
    rewrite bind_run, readTrainInfo_run. cbn [result state_of effects fst snd].
    destruct H as [-> | (d & -> & ->)]; done.
  Qed.

Lemma with_marker_idem k ids :
    with_marker (Some k) (with_marker (Some k) ids) = with_marker (Some k) ids.
  Proof.
    destruct ids as [|firstId rest]; [done|].
    rewrite <- !push_back_if_absent_marker.
    destruct (push_back_if_absent_head (firstId + k) firstId rest) as [rest' E].
    rewrite E at 1. rewrite <- push_back_if_absent_marker, <- E.
    apply push_back_if_absent_idem.
  Qed.

Lemma with_marker_nonempty o ids : ids ≠ [] → with_marker o ids ≠ [].
  Proof.
    destruct ids as [|a l]; [done|]. intros _. destruct o as [k|]; [|done].
    simpl. destruct (decide _); [done|]. by destruct l.
  Qed.

Lemma processWatchdog_idempotent (type : RollbackType) pkg p :
    let r1 := processWatchdogRollbackOccurred type pkg p in
    let r2 := processWatchdogRollbackOccurred type pkg (state_of r1) in
    result r2 = result r1 ∧ state_of r2 = state_of r1.
  Proof.
    intros r1 r2. subst r2.
    destruct (decide (pkg = EmptyString)) as [->|Hpkg]; [done|].
    destruct (trainInfoOnDisk p !! pkg) as [d|] eqn:Hd; cycle 1.
    { destruct (processWatchdog_nothing type pkg p) as [H1 H2]; [by auto|].
      subst r1. rewrite H2. done. }
    destruct (decide (experimentIds d = [])) as [Hemp|Hne].
    { destruct (processWatchdog_nothing type pkg p) as [H1 H2]; [by eauto|].
      subst r1. rewrite H2. done. }
    destruct (marker_of_rollback type) as [k|] eqn:Hk; cycle 1.
    { destruct type as [| |code]; try done. subst r1.
      rewrite (processWatchdog_other code pkg p d) by done. cbn [state_of fst snd].
      rewrite (processWatchdog_other code pkg p d) by done. done. }
    subst r1. rewrite (processWatchdog_stored type pkg p d k) by done.
    cbn [result state_of fst snd].
    set (d' := with_experimentIds _ d).
    set (p' := set_trainInfoOnDisk _ p).
    assert (Hname : trainName d' = trainName d) by done.
    destruct (decide (trainName d = pkg)) as [Heq|Hneq].
    - assert (Hd' : trainInfoOnDisk p' !! pkg = Some d').
      { subst p'. rewrite trainInfoOnDisk_set, Heq. apply lookup_insert_eq. }
      assert (Hne' : experimentIds d' ≠ []) by (by apply with_marker_nonempty).
      rewrite (processWatchdog_stored type pkg p' d' k) by done.
      cbn [fst snd]. subst d'. cbn [experimentIds with_experimentIds].
      rewrite with_marker_idem. split; [done|].
      subst p'. rewrite set_trainInfoOnDisk_twice. apply set_trainInfoOnDisk_ext.
      unfold compose. cbn [trainName with_experimentIds]. apply insert_insert_eq.
    - assert (Hd' : trainInfoOnDisk p' !! pkg = Some d).
      { subst p'. rewrite trainInfoOnDisk_set. by rewrite lookup_insert_ne. }
      rewrite (processWatchdog_stored type pkg p' d k) by done.
      cbn [fst snd]. split; [done|].
      subst p'. rewrite set_trainInfoOnDisk_twice. apply set_trainInfoOnDisk_ext.
      unfold compose. cbn [trainName with_experimentIds]. apply insert_insert_eq.
  Qed.

End TrainInfoFacts.

(** C5.  [processWatchdogRollbackOccurred] returns the empty list for the
    empty package name whatever the rollback type (and then touches neither
    the state nor the disk), and for every type and package name a second
    call with the same arguments returns the list the first call returned and
    leaves the state, the train records on disk included, as the first call
    left it. *)
Theorem processWatchdogRollbackOccurred_empty_and_idempotent :
  ∀ (M : Type) (rollbackType : RollbackType) (packageName : string) (p : State M),
    processWatchdogRollbackOccurred rollbackType EmptyString p = ([], p, [])
    ∧ (let once := processWatchdogRollbackOccurred rollbackType packageName p in
       let twice :=
         processWatchdogRollbackOccurred rollbackType packageName (state_of once) in
       result twice = result once
       ∧ state_of twice = state_of once
       ∧ trainInfoOnDisk (state_of twice) = trainInfoOnDisk (state_of once)).
Proof.
  intros M type pkg p. split; [reflexivity|].
  destruct (processWatchdog_idempotent type pkg p) as [H1 H2].
  cbv zeta. split; [done|]. split; [done|]. by rewrite H2.
Qed.

Section MarkerFacts.
  Context {M C : Type}.
  Implicit Types (p : State M) (d t : InstallTrainInfo) (ids : list Z).

Lemma write_and_return_run t p :
    (writeTrainInfo t;; mret t) p
    = (t, set_trainInfoOnDisk (insert (trainName t) t) p,
       [StorageManager_writeTrainInfo t]).
  Proof. reflexivity. Qed.

  (** The switch on the status adds the marker of the status. *)
Lemma status_switch_marker t :
    match experimentIds t with
    | [] => t
    | firstId :: _ =>
        match status t with
        | INSTALL_SUCCESS =>
            with_experimentIds (push_back_if_absent (firstId + 1) (experimentIds t)) t
        | INSTALLER_ROLLBACK_INITIATED =>
            with_experimentIds (push_back_if_absent (firstId + 2) (experimentIds t)) t
        | INSTALLER_ROLLBACK_SUCCESS =>
            with_experimentIds (push_back_if_absent (firstId + 3) (experimentIds t)) t
        | OTHER_STATE _ => t
        end
    end
    = with_experimentIds (with_marker (marker_of_state (status t)) (experimentIds t)) t.
  Proof.
    destruct t as [v n s ids a b c]. simpl. destruct ids as [|firstId rest].
    - by destruct s.
    - destruct s; simpl; rewrite ?push_back_if_absent_marker; reflexivity.
  Qed.

End MarkerFacts.

Ltac run_proc :=
  unfold mbind, Proc_bind, mret, Proc_ret, get, modify, emit, when; cbn beta iota zeta.

Section FlushFacts.
  Context {M C : Type} `{!MetricsManager M C} `{!StatsdStats}.
  Implicit Types (p : State M) (m : M) (env : Env C) (key : ConfigKey).

  (** The byte-size check of [flushIfNecessaryLocked] runs when no check of
      the key is on record or the last one is old enough. *)
Lemma byteSize_check_runs env key p :
    byteSize_check_due env key p →
    match mLastByteSizeTimes p !! key with
    | Some lastCheckTime =>
        bool_decide (getElapsedRealtimeNs env - lastCheckTime
                     < kMinByteSizeCheckPeriodNs)
    | None => false
    end = false.
  Proof.
    unfold byteSize_check_due. destruct (mLastByteSizeTimes p !! key) as [t|]; [|done].
    intros Hd. apply bool_decide_eq_false_2. specialize (Hd t eq_refl). lia.
  Qed.

Lemma flush_over_limit env key m p :
    byteSize_check_due env key p →
    (getMaxMetricsBytes m < byteSize m)%N →
    flushIfNecessaryLocked env key m p
    = (dropData (getElapsedRealtimeNs env) m,
       set_mLastByteSizeTimes (insert key (getElapsedRealtimeNs env)) p,
       [MetricsManager_dropData key (getElapsedRealtimeNs env);
        StatsdStats_noteDataDropped key (byteSize m)]).
  Proof.
    intros Hdue Hover. unfold flushIfNecessaryLocked. run_proc.
    rewrite (byteSize_check_runs env key p Hdue).
    rewrite bool_decide_eq_true_2 by done. reflexivity.
  Qed.
End FlushFacts.

(** C4.  When the byte-size check of [flushIfNecessaryLocked] runs for a key
    (no earlier check of the key within [kMinByteSizeCheckPeriodNs]) and
    finds [byteSize()] strictly above [maxMetricsBytes], the processor calls
    [dropData] on the manager, records [noteDataDropped] with the size it
    observed, and does nothing else: in particular it sends no data-ready
    broadcast for the key. *)
Theorem flushIfNecessaryLocked_drops_data_over_limit :
  ∀ (M C : Type) (MM : MetricsManager M C) (SS : StatsdStats)
    (env : Env C) (key : ConfigKey) (m : M) (p : State M),
    byteSize_check_due env key p →
    (getMaxMetricsBytes m < byteSize m)%N →
    let now := getElapsedRealtimeNs env in
    let r := flushIfNecessaryLocked env key m p in
    result r = dropData now m
    ∧ effects r = [MetricsManager_dropData key now;
                   StatsdStats_noteDataDropped key (byteSize m)]
    ∧ (∀ sent, call_mSendBroadcast key sent ∉ effects r)
    ∧ mLastByteSizeTimes (state_of r) !! key = Some now.
Proof.
  intros M C MM SS env key m p Hdue Hover now r. subst r now.
  rewrite flush_over_limit by done. cbn [result state_of effects fst snd].
  split; [done|]. split; [done|]. split.
  - intros sent Hin. apply elem_of_cons in Hin as [Hin|Hin]; [done|].
    apply elem_of_cons in Hin as [Hin|Hin]; [done|]. inversion Hin.
  - destruct p; simpl. apply lookup_insert_eq.
Qed.

(** Scenario "byte-size guardrail" of the specification: limit 1000, size
    1100, no earlier check. *)
Lemma flushIfNecessaryLocked_drops_data_over_limit_witness :
  let m := Sample.mkManager 1100 1000 500 0 None true 0 true in
  let r := flushIfNecessaryLocked (Sample.env 100 true true Sample.no_answer)
             Sample.key1 m (Sample.processor {[Sample.key1 := m]} ∅) in
  byteSize (result r) = 0%N
  ∧ effects r = [MetricsManager_dropData Sample.key1 100;
                 StatsdStats_noteDataDropped Sample.key1 1100].
Proof.
  intros m r.
  destruct (flushIfNecessaryLocked_drops_data_over_limit
              Sample.Manager Sample.Manager Sample.manager Sample.constants
              (Sample.env 100 true true Sample.no_answer) Sample.key1 m
              (Sample.processor {[Sample.key1 := m]} ∅))
    as (Hres & Heff & _).
  - intros last Hlast. vm_compute in Hlast. discriminate.
  - reflexivity.
  - split; [| exact Heff]. change (byteSize (result r)) with (Sample.bytes (result r)).
    subst r. rewrite Hres. reflexivity.
Defined.

Section StateFacts.
  Context {M : Type}.
  Implicit Types (p : State M).

Lemma mMetricsManagers_set f p :
    mMetricsManagers (set_mMetricsManagers f p) = f (mMetricsManagers p).
  Proof. by destruct p. Qed.

Lemma mTimeBaseNs_set_managers f p :
    mTimeBaseNs (set_mMetricsManagers f p) = mTimeBaseNs p.
  Proof. by destruct p. Qed.
End StateFacts.

Section ConfigFacts.
  Context {M C : Type} `{!MetricsManager M C}.
  Implicit Types (p : State M) (m : M) (env : Env C) (key : ConfigKey) (config : C).

Lemma updates_in_place_code env p key config modularUpdate m :
    mMetricsManagers p !! key = Some m →
    (if isAtLeastU env
        && negb (eqb (hasRestrictedMetricsDelegate m)
                     (has_restricted_metrics_delegate_package_name config))
     then false else modularUpdate)
    = updates_in_place env p key config modularUpdate.
  Proof.
    intros Hm. unfold updates_in_place. rewrite Hm.
    by destruct modularUpdate, (isAtLeastU env), (eqb _ _).
  Qed.

  (** The manager of the key after [OnConfigUpdatedLocked]. *)
Lemma OnConfigUpdatedLocked_key env ts key config modularUpdate p :
    mMetricsManagers
      (state_of (OnConfigUpdatedLocked env ts key config modularUpdate p)) !! key
    = if config_validated env p ts key config modularUpdate
      then Some (if updates_in_place env p key config modularUpdate
                 then default (refreshTtl ts (init (newMetricsManager key config
                                                      (mTimeBaseNs p) ts)))
                        (manager_before_erasure env p ts key config modularUpdate)
                 else refreshTtl ts (init (newMetricsManager key config
                                             (mTimeBaseNs p) ts)))
      else None.
  Proof.
    match goal with
    | |- _ = ?rhs =>
        change (wp (OnConfigUpdatedLocked env ts key config modularUpdate)
                  (λ _ s _, mMetricsManagers s !! key = rhs) p)
    end.
    unfold OnConfigUpdatedLocked, config_validated, manager_before_erasure.
    wp_step. wp_step.
    destruct (mMetricsManagers p !! key) as [m|] eqn:Hm.
    - rewrite (updates_in_place_code env p key config modularUpdate m Hm).
      destruct (updates_in_place env p key config modularUpdate) eqn:Hmu.
      + destruct (updateConfig config (mTimeBaseNs p) ts m) as [v m'] eqn:Hup.
        cbn [fst snd default from_option]. unfold id.
        destruct v; wp_state; rewrite ?mMetricsManagers_set;
          [apply lookup_insert_eq | apply lookup_delete_eq].
      + destruct (isConfigValid (newMetricsManager key config (mTimeBaseNs p) ts))
          eqn:Hv; wp_state; rewrite ?mMetricsManagers_set;
          [apply lookup_insert_eq | apply lookup_delete_eq].
    - replace (updates_in_place env p key config modularUpdate) with false
        by (unfold updates_in_place; by rewrite Hm).
      destruct (isConfigValid (newMetricsManager key config (mTimeBaseNs p) ts))
        eqn:Hv; wp_state; rewrite ?mMetricsManagers_set;
        [apply lookup_insert_eq | apply lookup_delete_eq].
  Qed.

  (** [OnConfigUpdatedLocked] touches the manager of its key only, and no
      other member of the processor. *)
Lemma OnConfigUpdatedLocked_frames env ts key config modularUpdate :
    frames (λ s : State M, (set_mMetricsManagers (delete key) s)) (λ _, True)
           (OnConfigUpdatedLocked env ts key config modularUpdate).
  Proof.
    unfold OnConfigUpdatedLocked, setManager, updateLogEventFilterLocked.
    frames_auto; intros []; cbn; f_equal;
      first [apply delete_insert_eq | apply delete_delete_eq | idtac ].
  Qed.

Lemma OnConfigUpdatedLocked_other env ts key config modularUpdate p k :
    k ≠ key →
    mMetricsManagers
      (state_of (OnConfigUpdatedLocked env ts key config modularUpdate p)) !! k
    = mMetricsManagers p !! k.
  Proof.
    intros Hk.
    destruct (OnConfigUpdatedLocked_frames env ts key config modularUpdate p)
      as [Hs _].
    apply (f_equal (λ s, mMetricsManagers s !! k)) in Hs.
    rewrite !mMetricsManagers_set, !lookup_delete_ne in Hs by done. exact Hs.
  Qed.

  (** An invalid configuration that erases a manager with a restricted
      delegate sends the empty restricted-metrics broadcast. *)
Lemma OnConfigUpdatedLocked_empty_broadcast env ts key config modularUpdate p m' :
    config_validated env p ts key config modularUpdate = false →
    manager_before_erasure env p ts key config modularUpdate = Some m' →
    hasRestrictedMetricsDelegate m' = true →
    isAtLeastU env = true →
    call_mSendRestrictedMetricsBroadcast key (getRestrictedMetricsDelegate m') []
    ∈ effects (OnConfigUpdatedLocked env ts key config modularUpdate p).
  Proof.
    intros Hval Hm' Hr HU.
    change (wp (OnConfigUpdatedLocked env ts key config modularUpdate)
              (λ _ _ es, call_mSendRestrictedMetricsBroadcast key
                           (getRestrictedMetricsDelegate m') [] ∈ es) p).
    unfold OnConfigUpdatedLocked. wp_step. wp_step.
    revert Hval Hm'. unfold config_validated, manager_before_erasure.
    destruct (mMetricsManagers p !! key) as [m|] eqn:Hm; [|done].
    rewrite (updates_in_place_code env p key config modularUpdate m Hm).
    destruct (updates_in_place env p key config modularUpdate) eqn:Hmu.
    - destruct (updateConfig config (mTimeBaseNs p) ts m) as [v m2] eqn:Hup.
      cbn [fst snd]. intros -> [= ->]. rewrite HU.
      wp_log. set_solver.
    - intros Hv [= ->]. rewrite Hv, HU. wp_log. set_solver.
  Qed.
End ConfigFacts.

Section WriteDataFacts.
  Context {M C : Type} `{!MetricsManager M C}.
  Implicit Types (p : State M) (env : Env C) (key : ConfigKey).

  (** Writing the data of one key to disk leaves the managers of the other
      keys alone and keeps the key present or absent as it was. *)
Lemma WriteDataToDiskLocked_key_other env key ts wall reason latency k :
    k ≠ key →
    frames (λ s : State M, mMetricsManagers s !! k) (λ _, True)
           (WriteDataToDiskLocked_key env key ts wall reason latency).
  Proof.
    intros Hk. unfold WriteDataToDiskLocked_key, onConfigMetricsReportLocked, setManager.
    frames_auto; intros []; cbn; by rewrite ?lookup_insert_ne.
  Qed.
End WriteDataFacts.

(** C9.  After [OnConfigUpdatedLocked], and so after every
    [OnConfigUpdated] call, a manager for the key is in the map iff the
    submitted configuration validated (when the new manager was built, or
    when the present one was updated in place); an invalid configuration
    leaves no manager for the key, whatever was there before; managers of
    other keys are not touched; and when the manager that an invalid
    configuration erases has a restricted-metrics delegate, the empty
    restricted-metrics broadcast is sent for it (restricted delegates exist
    on U+ devices only, where the source sends it). *)
Theorem OnConfigUpdated_manager_present_iff_validated :
  ∀ (M C : Type) (MM : MetricsManager M C) (env : Env C)
    (timestampNs wallClockNs : Z) (key : ConfigKey) (config : C)
    (modularUpdate : bool) (p : State M),
    (let r := OnConfigUpdatedLocked env timestampNs key config modularUpdate p in
     let validated := config_validated env p timestampNs key config modularUpdate in
     (is_Some (mMetricsManagers (state_of r) !! key) ↔ validated = true)
     ∧ (validated = false → mMetricsManagers (state_of r) !! key = None)
     ∧ (∀ k, k ≠ key → mMetricsManagers (state_of r) !! k = mMetricsManagers p !! k)
     ∧ (validated = false →
        ∀ erased,
          manager_before_erasure env p timestampNs key config modularUpdate
          = Some erased →
          hasRestrictedMetricsDelegate erased = true →
          isAtLeastU env = true →
          call_mSendRestrictedMetricsBroadcast key
            (getRestrictedMetricsDelegate erased) [] ∈ effects r))
    ∧ (let p1 := state_of (WriteDataToDiskLocked_key env key timestampNs wallClockNs
                             CONFIG_UPDATED NO_TIME_CONSTRAINTS p) in
       let r := OnConfigUpdated env timestampNs wallClockNs key config
                  modularUpdate p in
       let validated := config_validated env p1 timestampNs key config modularUpdate in
       (is_Some (mMetricsManagers (state_of r) !! key) ↔ validated = true)
       ∧ (∀ k, k ≠ key → mMetricsManagers (state_of r) !! k = mMetricsManagers p !! k)
       ∧ (validated = false →
          ∀ erased,
            manager_before_erasure env p1 timestampNs key config modularUpdate
            = Some erased →
            hasRestrictedMetricsDelegate erased = true →
            isAtLeastU env = true →
            call_mSendRestrictedMetricsBroadcast key
              (getRestrictedMetricsDelegate erased) [] ∈ effects r)).
Proof.
  intros M C MM env ts wall key config mu p.
  assert (Hlocked : ∀ q,
    let r := OnConfigUpdatedLocked env ts key config mu q in
    let validated := config_validated env q ts key config mu in
    (is_Some (mMetricsManagers (state_of r) !! key) ↔ validated = true)
    ∧ (validated = false → mMetricsManagers (state_of r) !! key = None)).
  { intros q r validated. subst r validated.
    rewrite OnConfigUpdatedLocked_key.
    destruct (config_validated env q ts key config mu).
    - split; [split; eauto | done].
    - split; [split; [intros [? ?]; done | done] | done]. }
  split.
  - destruct (Hlocked p) as [H1 H2]. cbv zeta. split; [exact H1|]. split; [exact H2|].
    split.
    + intros k Hk. by apply OnConfigUpdatedLocked_other.
    + intros Hval erased He Hr HU. by apply OnConfigUpdatedLocked_empty_broadcast.
  - cbv zeta. unfold OnConfigUpdated. rewrite bind_run.
    cbn [state_of effects fst snd].
    set (p1 := state_of (WriteDataToDiskLocked_key env key ts wall CONFIG_UPDATED
                           NO_TIME_CONSTRAINTS p)).
    destruct (Hlocked p1) as [H1 _]. split; [exact H1|]. split.
    + intros k Hk. rewrite OnConfigUpdatedLocked_other by done.
      subst p1.
      by destruct (WriteDataToDiskLocked_key_other env key ts wall CONFIG_UPDATED
                     NO_TIME_CONSTRAINTS k Hk p) as [-> _].
    + intros Hval erased He Hr HU. apply elem_of_app. right.
      by apply OnConfigUpdatedLocked_empty_broadcast.
Qed.

(** An invalid update of a restricted configuration on a U+ device: the
    manager is erased and the empty broadcast goes to its delegate. *)
Lemma OnConfigUpdated_manager_present_iff_validated_witness :
  mMetricsManagers
    (state_of
       (OnConfigUpdatedLocked (Sample.env 100 true true Sample.no_answer) 100
          Sample.key1 (Sample.mkManager 0 1000 500 600 (Some "delegate") true 0 false)
          false
          (Sample.processor
             {[Sample.key1 :=
                 Sample.mkManager 0 1000 500 600 (Some "delegate") true 0 true]} ∅)))
  !! Sample.key1 = None
  ∧ call_mSendRestrictedMetricsBroadcast Sample.key1 "delegate" []
    ∈ effects
        (OnConfigUpdatedLocked (Sample.env 100 true true Sample.no_answer) 100
           Sample.key1
           (Sample.mkManager 0 1000 500 600 (Some "delegate") true 0 false) false
           (Sample.processor
              {[Sample.key1 :=
                  Sample.mkManager 0 1000 500 600 (Some "delegate") true 0 true]} ∅)).
Proof.
  destruct (OnConfigUpdated_manager_present_iff_validated
              Sample.Manager Sample.Manager Sample.manager
              (Sample.env 100 true true Sample.no_answer) 100 100 Sample.key1
              (Sample.mkManager 0 1000 500 600 (Some "delegate") true 0 false) false
              (Sample.processor
                 {[Sample.key1 :=
                     Sample.mkManager 0 1000 500 600 (Some "delegate") true 0 true]} ∅))
    as [(_ & Hnone & _ & Hsent) _].
  split.
  - apply Hnone. vm_compute. reflexivity.
  - apply (Hsent ltac:(vm_compute; reflexivity)
             (Sample.mkManager 0 1000 500 600 (Some "delegate") true 0 true));
      vm_compute; reflexivity.
Defined.

Section QueryFacts.
  Context {M C : Type} `{!MetricsManager M C}.
  Implicit Types (p : State M) (env : Env C) (log : list Effect).

Lemma query_observations_app log1 log2 :
    query_observations (log1 ++ log2)
    = query_observations log1 ++ query_observations log2.
  Proof. apply omap_app. Qed.

Lemma query_observations_silent log :
    Forall query_silent log → query_observations log = [].
  Proof.
    induction 1 as [|e l He _ IH]; [done|].
    unfold query_observations in *. simpl. rewrite He. exact IH.
  Qed.

Lemma flushRestrictedDataLocked_silent t :
    frames (λ _ : State M, tt) query_silent (flushRestrictedDataLocked t).
  Proof. unfold flushRestrictedDataLocked, setManager. frames_auto. Qed.

Lemma enforceDataTtlsLocked_silent wall t :
    frames (λ _ : State M, tt) query_silent (enforceDataTtlsLocked wall t).
  Proof. unfold enforceDataTtlsLocked, setManager. frames_auto. Qed.

Lemma querySql_flag_disabled env sql minV configId pkg callingUid ind p :
    isAtLeastU env = false →
    querySql env sql minV configId pkg callingUid ind p
    = (tt, p, [StatsdStats_noteQueryRestrictedMetricFailed configId pkg None
                 callingUid FLAG_DISABLED]).
  Proof. intros HU. unfold querySql. rewrite HU. reflexivity. Qed.
End QueryFacts.

(** C3 as stated fails when the flag is disabled: the query fails, the
    failure is noted with [FLAG_DISABLED], and [sendFailure] is not invoked. *)
Lemma querySql_flag_disabled_no_sendFailure :
  query_observations
    (effects (querySql (Sample.env 100 true false sample_answer) "SELECT 1" 1 1
                "package" 1000 UNKNOWN_REASON sample_query_processor))
  = [failure_noted FLAG_DISABLED].
Proof. vm_compute. reflexivity. Qed.

(** When the database answers with a number of column types other than the
    number of column names, [querySql] reports the failure and goes on: here
    it sends the results as well. *)
Lemma querySql_column_mismatch_then_results :
  query_observations
    (effects (querySql (Sample.env 100 true true sample_answer_without_types)
                "SELECT 1" 1 1 "package" 1000 UNKNOWN_REASON
                sample_query_processor))
  = [sendFailure_called "Inconsistent row sizes";
     failure_noted INCONSISTENT_ROW_SIZE;
     sendResults_called; success_noted].
Proof. vm_compute. reflexivity. Qed.

Ltac frames_unfold :=
  unfold resetIfConfigTtlExpiredLocked, resetConfigsLocked, WriteDataToDiskLocked,
    WriteDataToDiskLocked_key, onConfigMetricsReportLocked, OnConfigUpdatedLocked,
    updateLogEventFilterLocked, informAnomalyAlarmFiredLocked,
    processFiredAnomalyAlarmsLocked, flushRestrictedDataIfNecessaryLocked,
    flushRestrictedDataLocked, enforceDataTtlsIfNecessaryLocked,
    enforceDataTtlsLocked, enforceDbGuardrailsIfNecessaryLocked,
    onIsolatedUidChangedEventLocked, mapIsolatedUidToHostUidIfNecessaryLocked,
    onBinaryPushStateChangedEventLocked, onWatchdogRollbackOccurredLocked,
    getAndUpdateTrainInfoOnDisk, processWatchdogRollbackOccurred,
    readTrainInfo, writeTrainInfo, setManager.

Section PrepareFacts.
  Context {M C : Type} `{!MetricsManager M C} `{!StatsdStats} `{!AtomsProto}.
  Implicit Types (p : State M) (env : Env C) (event : LogEvent).

  (** Before the event is validated, [OnLogEvent] neither moves the pacing
      of checks and broadcasts nor hands anything to a manager or a
      broadcast callback. *)
Lemma OnLogEvent_prepare_pacing env event elapsed :
    frames pacing (λ e, ¬ dispatch_call e) (OnLogEvent_prepare env event elapsed).
  Proof.
    unfold OnLogEvent_prepare. frames_unfold.
    frames_auto; try (intros []; reflexivity); try (intros H; exact H).
  Qed.
End PrepareFacts.

Section SliceFacts.
  Context {M : Type}.
  Implicit Types (p s : State M) (key k : ConfigKey).

Lemma slice_set_manager_ne key k (m : M) s :
    k ≠ key → slice k (set_mMetricsManagers (insert key m) s) = slice k s.
  Proof. intros Hk. destruct s; unfold slice; cbn. by rewrite lookup_insert_ne. Qed.

Lemma slice_set_byteSize_ne key k t s :
    k ≠ key → slice k (set_mLastByteSizeTimes (insert key t) s) = slice k s.
  Proof. intros Hk. destruct s; unfold slice; cbn. by rewrite lookup_insert_ne. Qed.

Lemma slice_set_broadcast_ne key k t s :
    k ≠ key → slice k (set_mLastBroadcastTimes (insert key t) s) = slice k s.
  Proof. intros Hk. destruct s; unfold slice; cbn. by rewrite lookup_insert_ne. Qed.

Lemma slice_set_onDisk_ne key k s :
    k ≠ key → slice k (set_mOnDiskDataConfigs (λ d, d ∖ {[key]}) s) = slice k s.
  Proof.
    intros Hk. destruct s; unfold slice; cbn. f_equal.
    apply bool_decide_ext. rewrite elem_of_difference, elem_of_singleton. tauto.
  Qed.

Lemma shared_set_manager f s : shared (set_mMetricsManagers f s) = shared s.
  Proof. by destruct s. Qed.
Lemma shared_set_byteSize f s : shared (set_mLastByteSizeTimes f s) = shared s.
  Proof. by destruct s. Qed.
Lemma shared_set_broadcast f s : shared (set_mLastBroadcastTimes f s) = shared s.
  Proof. by destruct s. Qed.
Lemma shared_set_onDisk f s : shared (set_mOnDiskDataConfigs f s) = shared s.
  Proof. by destruct s. Qed.

Lemma sl_manager_slice key s : sl_manager (slice key s) = mMetricsManagers s !! key.
  Proof. done. Qed.
Lemma sl_lastByteSizeTime_slice key s :
    sl_lastByteSizeTime (slice key s) = mLastByteSizeTimes s !! key.
  Proof. done. Qed.
Lemma sl_lastBroadcastTime_slice key s :
    sl_lastBroadcastTime (slice key s) = mLastBroadcastTimes s !! key.
  Proof. done. Qed.
End SliceFacts.

Ltac slice_simpl :=
  repeat first
    [ rewrite slice_set_manager_ne by done
    | rewrite slice_set_byteSize_ne by done
    | rewrite slice_set_broadcast_ne by done
    | rewrite slice_set_onDisk_ne by done
    | rewrite shared_set_manager
    | rewrite shared_set_byteSize
    | rewrite shared_set_broadcast
    | rewrite shared_set_onDisk ].

Section FlushSpec.
  Context {M C : Type} `{!MetricsManager M C} `{!StatsdStats}.
  Implicit Types (p s : State M) (env : Env C) (key k : ConfigKey) (m : M).

Lemma flushIfNecessaryLocked_spec env key m s :
    wp (flushIfNecessaryLocked env key m)
       (λ m' s' es,
          (∀ k, k ≠ key → slice k s' = slice k s)
          ∧ shared s' = shared s
          ∧ flushed env key (slice key s) (slice key s') m' es) s.
  Proof.
    unfold flushIfNecessaryLocked, flushed, paced.
    wp_step. wp_step.
    match goal with
    | |- context [if ?c then mret m else _] => destruct c eqn:Hlim
    end.
    { (* the rate limit skips the check *)
      wp_step. split; [done|]. split; [done|].
      repeat split; try done; [by left|].
      intros _ Hdue. rewrite sl_lastByteSizeTime_slice in Hdue.
      destruct (mLastByteSizeTimes s !! key) as [last|]; [|done].
      apply bool_decide_eq_true in Hlim. specialize (Hdue last eq_refl). lia. }
    clear Hlim. set (now := getElapsedRealtimeNs env).
    wp_step. wp_step. wp_step.
    assert (Hbs : ∀ p', sl_manager (slice key (set_mLastByteSizeTimes
                                                (insert key now) p'))
                        = sl_manager (slice key p')) by (by intros []).
    assert (Hbb : ∀ p', sl_lastBroadcastTime
                          (slice key (set_mLastByteSizeTimes (insert key now) p'))
                        = sl_lastBroadcastTime (slice key p')) by (by intros []).
    destruct (bool_decide (getMaxMetricsBytes m < byteSize m)%N) eqn:Hover;
      cbn iota.
    { (* over the limit: the data is dropped *)
      repeat wp_step.
      split; [intros k Hk; by slice_simpl|]. split; [by slice_simpl|].
      repeat split; try done; [by left|].
      intros [Hdrop _] _. unfold within_limit. rewrite Hdrop. lia. }
    apply bool_decide_eq_false in Hover.
    assert (Hwithin : within_limit m) by (unfold within_limit; lia).
    match goal with
    | |- context [if ?c then mret (m, true) else _] => destruct c eqn:Hreq
    end; cycle 1.
    { (* nothing to request *)
      repeat wp_step.
      split; [intros k Hk; by slice_simpl|]. split; [by slice_simpl|].
      repeat split; try done. by left. }
    clear Hreq. wp_step.
    destruct (hasRestrictedMetricsDelegate m) eqn:Hres.
    { (* restricted metrics are flushed, not broadcast *)
      repeat wp_step.
      split; [intros k Hk; by slice_simpl|]. split; [by slice_simpl|].
      repeat split; try done; [by left|].
      intros [_ Hflush] _. by apply Hflush. }
    match goal with
    | |- context [if ?c then mret m else _] => destruct c eqn:Hwin
    end.
    { (* inside the window of the last broadcast *)
      repeat wp_step.
      split; [intros k Hk; by slice_simpl|]. split; [by slice_simpl|].
      repeat split; try done. by left. }
    destruct (mSendBroadcast env key) eqn:Hsent.
    - (* the broadcast is delivered *)
      repeat wp_step.
      split; [intros k Hk; by slice_simpl|]. split; [by slice_simpl|].
      repeat split; try done.
      + by destruct s.
      + right. split; [done|]. split.
        * destruct s; cbn. apply lookup_insert_eq.
        * intros last Hl. rewrite sl_lastBroadcastTime_slice in Hl.
          rewrite Hl in Hwin. apply bool_decide_eq_false in Hwin. lia.
    - (* the broadcast is not delivered *)
      repeat wp_step.
      split; [intros k Hk; by slice_simpl|]. split; [by slice_simpl|].
      repeat split; try done. by left.
  Qed.
End FlushSpec.

Section LogFacts.
  Implicit Types (log : list Effect).

Lemma events_received_app log1 log2 :
    events_received (log1 ++ log2) = events_received log1 ++ events_received log2.
  Proof. apply omap_app. Qed.

Lemma data_broadcasts_app log1 log2 :
    data_broadcasts (log1 ++ log2) = data_broadcasts log1 ++ data_broadcasts log2.
  Proof. apply omap_app. Qed.

Lemma activation_broadcasts_app log1 log2 :
    activation_broadcasts (log1 ++ log2)
    = activation_broadcasts log1 ++ activation_broadcasts log2.
  Proof. apply omap_app. Qed.

  (** A log without dispatch calls shows no event received and no
      broadcast. *)
Lemma no_dispatch_call_observations log :
    Forall (λ e, ¬ dispatch_call e) log →
    events_received log = [] ∧ data_broadcasts log = []
    ∧ activation_broadcasts log = [].
  Proof.
    induction 1 as [|e l He _ (IH1 & IH2 & IH3)]; [done|].
    unfold events_received, data_broadcasts, activation_broadcasts in *. cbn.
    rewrite IH1, IH2, IH3. destruct e; try done; exfalso; by apply He.
  Qed.
End LogFacts.

Ltac log_simpl :=
  rewrite ?events_received_app, ?data_broadcasts_app, ?activation_broadcasts_app;
  cbn [events_received data_broadcasts activation_broadcasts omap list_omap app].

Section PassSpec.
  Context {M C : Type} `{!MetricsManager M C} `{!StatsdStats}.
  Implicit Types (p s : State M) (env : Env C) (key k : ConfigKey) (m : M).

Lemma passEventToManager_spec env event key acc s :
    wp (passEventToManager env event key acc)
       (λ _ s' es,
          (∀ k, k ≠ key → slice k s' = slice k s)
          ∧ shared s' = shared s
          ∧ passed env event key (slice key s) (slice key s') es) s.
  Proof.
    unfold passEventToManager, passed. wp_step. wp_step.
    rewrite sl_manager_slice.
    destruct (mMetricsManagers s !! key) as [m|] eqn:Hm; cycle 1.
    { wp_step. rewrite !sl_manager_slice, Hm.
      split; [done|]. split; [done|]. split; [done|]. split; [done|].
      split; [done|]. split; [by left|]. by intros _ m0 [=]. }
    unfold takes_event.
    destruct (mRestricted event && negb (hasRestrictedMetricsDelegate m)) eqn:Hskip;
      cbn [negb].
    { wp_step. rewrite !sl_manager_slice, Hm.
      split; [done|]. split; [done|]. split; [done|]. split; [done|].
      split; [done|]. split; [by left|]. intros _ m0 [= <-]. by rewrite Hskip. }
    wp_step. wp_step. wp_step. unfold setManager at 1. wp_step. wp_step.
    set (m1 := onLogEvent event m).
    set (s1 := set_mMetricsManagers (insert key m1) s).
    apply wp_conseq with
      (Q := λ _ s' es, s' = s1 ∧ events_received es = []
                       ∧ data_broadcasts es = [] ∧ activation_broadcasts es = []).
    { destruct (negb (eqb (isActive m) (isActive m1))); by repeat wp_step. }
    intros _ s1' es1 (-> & He1 & Hd1 & Ha1). cbn beta.
    wp_step. eapply wp_conseq; [apply flushIfNecessaryLocked_spec|].
    intros m' s2 es2 (Hoth & Hsh & Hev & Hact & Hman & Hpaced & Hlim). cbn beta.
    unfold setManager. repeat wp_step.
    assert (Hb1 : sl_lastBroadcastTime (slice key s1)
                  = sl_lastBroadcastTime (slice key s)) by (by destruct s).
    assert (Hc1 : sl_lastByteSizeTime (slice key s1)
                  = sl_lastByteSizeTime (slice key s)) by (by destruct s).
    split; [|split; [|split; [|split; [|split; [|split]]]]].
    - intros k Hk. slice_simpl. rewrite Hoth by done. subst s1. by slice_simpl.
    - slice_simpl. rewrite Hsh. subst s1. by slice_simpl.
    - log_simpl. rewrite He1, Hev. done.
    - log_simpl. rewrite Ha1, Hact. done.
    - rewrite sl_manager_slice, mMetricsManagers_set, lookup_insert_eq. split; eauto.
    - rewrite <- Hb1.
      replace (sl_lastBroadcastTime (slice key (set_mMetricsManagers (insert key m') s2)))
        with (sl_lastBroadcastTime (slice key s2)) by (by destruct s2).
      log_simpl. rewrite Hd1. cbn [app]. rewrite app_nil_r. exact Hpaced.
    - intros Hlaws m0 [= <-] _ Hdue. exists m'. split.
      + rewrite sl_manager_slice, mMetricsManagers_set. apply lookup_insert_eq.
      + apply Hlim; [done|]. by rewrite Hc1.
  Qed.
End PassSpec.

Section LoopSpec.
  Context {M C : Type} `{!MetricsManager M C} `{!StatsdStats}.
  Implicit Types (p s : State M) (env : Env C) (key k : ConfigKey) (m : M).

Lemma managerKeys_NoDup s : NoDup (managerKeys s).
  Proof. apply NoDup_fst_map_to_list. Qed.

Lemma elem_of_managerKeys k s :
    k ∈ managerKeys s ↔ is_Some (mMetricsManagers s !! k).
  Proof.
    unfold managerKeys. rewrite list_elem_of_fmap. split.
    - intros ([k' m] & -> & Hin). apply elem_of_map_to_list in Hin. eauto.
    - intros [m Hm]. exists (k, m). split; [done|]. by apply elem_of_map_to_list.
  Qed.

  (** The loop of [OnLogEvent] over the managers: every key of the map gets
      one pass, that changes the slice of this key only. *)
Lemma dispatch_loop_spec env event acc s :
    wp (foldM (managerKeys s) acc (passEventToManager env event))
       (λ _ s' es,
          shared s' = shared s
          ∧ (∀ k, k ∉ managerKeys s → slice k s' = slice k s)
          ∧ ∃ ess, es = concat ess
                   ∧ Forall2 (λ k es_k,
                                passed env event k (slice k s) (slice k s') es_k)
                             (managerKeys s) ess) s.
  Proof.
    assert (Hsh : frames shared (λ _, True)
                    (foldM (managerKeys s) acc (passEventToManager env event))).
    { apply frames_foldM. intros k b s0.
      pose proof (passEventToManager_spec env event k b s0) as (_ & Hs & _).
      split; [exact Hs | apply Forall_true; done]. }
    destruct (Hsh s) as [Hs _].
    unfold wp. split; [exact Hs|].
    apply (foldM_slices slice (passed env event) (passEventToManager env event));
      [|apply managerKeys_NoDup].
    intros k b s0. eapply wp_conseq; [apply passEventToManager_spec|].
    intros _ s' es (H1 & _ & H3). by split.
  Qed.
End LoopSpec.

Section ActivationSpec.
  Context {M C : Type} `{!MetricsManager M C} `{!StatsdStats}.
  Implicit Types (p s : State M) (env : Env C) (uid : Z).

Lemma but_activation_times_set f s :
    but_activation_times (set_mLastActivationBroadcastTimes f s)
    = but_activation_times s.
  Proof. by destruct s. Qed.

Lemma mLastActivationBroadcastTimes_set f s :
    mLastActivationBroadcastTimes (set_mLastActivationBroadcastTimes f s)
    = f (mLastActivationBroadcastTimes s).
  Proof. by destruct s. Qed.

  (** The loop that sends the activation broadcasts. *)
Lemma sendActivationBroadcasts_spec env elapsed perUid uids :
    NoDup uids →
    ∀ s,
    wp (sendActivationBroadcasts env elapsed perUid uids)
       (λ _ s' es,
          but_activation_times s' = but_activation_times s
          ∧ events_received es = []
          ∧ data_broadcasts es = []
          ∧ ∀ uid,
              (uid ∉ uids →
               filter (λ u, u = uid) (activation_broadcasts es) = []
               ∧ mLastActivationBroadcastTimes s' !! uid
                 = mLastActivationBroadcastTimes s !! uid)
              ∧ paced kMinActivationBroadcastPeriodNs elapsed
                  (mLastActivationBroadcastTimes s !! uid)
                  (mLastActivationBroadcastTimes s' !! uid)
                  (filter (λ u, u = uid) (activation_broadcasts es)) uid) s.
  Proof.
    induction 1 as [|uid0 uids Hnotin Hnd IH]; intros s.
    - simpl. wp_step. repeat split; try done. by left.
    - cbn [sendActivationBroadcasts]. wp_step. wp_step.
      match goal with
      | |- context [if ?c then emit _ else _] => destruct c eqn:Hwin
      end.
      + (* inside the window: the guardrail is noted and the loop is left *)
        wp_step. repeat split; try done. by left.
      + destruct (mSendActivationBroadcast env uid0 (default [] (perUid !! uid0)))
          eqn:Hsent.
        * (* delivered: the time of the uid is put on record *)
          repeat wp_step.
          eapply wp_conseq; [apply IH|].
          intros _ s' es (Hbut & Hev & Hdata & Huids). cbn beta.
          split; [by rewrite Hbut, but_activation_times_set|].
          split; [by log_simpl|]. split; [by log_simpl|].
          intros uid. log_simpl.
          destruct (Huids uid) as [Hout Hpaced].
          destruct (decide (uid = uid0)) as [->|Hne].
          -- split; [intros Hx; exfalso; apply Hx; by left|].
             destruct (Hout Hnotin) as [Hnone Hsame].
             rewrite filter_cons_True by done. rewrite Hnone, Hsame.
             right. split; [done|].
             rewrite mLastActivationBroadcastTimes_set, lookup_insert_eq.
             split; [done|]. intros last Hl. rewrite Hl in Hwin.
             apply bool_decide_eq_false in Hwin. lia.
          -- rewrite filter_cons_False by done.
             rewrite mLastActivationBroadcastTimes_set, lookup_insert_ne in Hpaced
               by done.
             rewrite mLastActivationBroadcastTimes_set, lookup_insert_ne in Hout
               by done.
             split; [|exact Hpaced].
             intros Hx. apply Hout. intros Hin. apply Hx. by right.
        * (* not delivered: nothing is put on record *)
          repeat wp_step.
          eapply wp_conseq; [apply IH|].
          intros _ s' es (Hbut & Hev & Hdata & Huids). cbn beta.
          split; [done|]. split; [by log_simpl|]. split; [by log_simpl|].
          intros uid. log_simpl.
          destruct (Huids uid) as [Hout Hpaced]. split; [|exact Hpaced].
          intros Hx. apply Hout. intros Hin. apply Hx. by right.
  Qed.
End ActivationSpec.

Section CallSpec.
  Context {M C : Type} `{!MetricsManager M C} `{!StatsdStats} `{!AtomsProto}.
  Implicit Types (p s : State M) (env : Env C) (key k : ConfigKey) (uid : Z).

  (** The shape of a call of [OnLogEvent]: the preparation, then, if the
      event is still to be dispatched, one pass per manager of the map and
      the loop of the activation broadcasts. *)
Lemma OnLogEvent_structure env event elapsed p :
    let prep := OnLogEvent_prepare env event elapsed p in
    let r := OnLogEvent env event elapsed p in
    let s1 := state_of prep in
    match result prep with
    | None => state_of r = s1 ∧ effects r = effects prep ++ []
    | Some event' =>
        ∃ s2 ess es_act,
          effects r = effects prep ++ [] ++ concat ess ++ es_act
          ∧ shared s2 = shared s1
          ∧ (∀ k, k ∉ managerKeys s1 → slice k s2 = slice k s1)
          ∧ Forall2 (λ k es_k, passed env event' k (slice k s1) (slice k s2) es_k)
                    (managerKeys s1) ess
          ∧ but_activation_times (state_of r) = but_activation_times s2
          ∧ events_received es_act = []
          ∧ data_broadcasts es_act = []
          ∧ ∀ uid,
              paced kMinActivationBroadcastPeriodNs elapsed
                (mLastActivationBroadcastTimes s2 !! uid)
                (mLastActivationBroadcastTimes (state_of r) !! uid)
                (filter (λ u, u = uid) (activation_broadcasts es_act)) uid
    end.
  Proof.
    intros prep r s1. subst r. unfold OnLogEvent. rewrite bind_run.
    fold prep. fold s1. destruct (result prep) as [event'|]; [|done].
    cbn [state_of effects fst snd].
    rewrite bind_run. cbn [result state_of effects get fst snd].
    rewrite bind_run. cbn [state_of effects fst snd].
    pose proof (dispatch_loop_spec env event'
                  {| uidsWithActiveConfigsChanged := ∅; activeConfigsPerUid := ∅ |} s1)
      as (Hsh & Hout & ess & Hes & Hall).
    set (loop := foldM (managerKeys s1) _ (passEventToManager env event') s1) in *.
    pose proof (sendActivationBroadcasts_spec env elapsed
                  (activeConfigsPerUid (result loop))
                  (elements (uidsWithActiveConfigsChanged (result loop)))
                  (NoDup_elements _) (state_of loop))
      as (Hbut & Hev & Hdata & Hact).
    exists (state_of loop), ess, (effects (sendActivationBroadcasts env elapsed
                                            (activeConfigsPerUid (result loop))
                                            (elements (uidsWithActiveConfigsChanged
                                                         (result loop)))
                                            (state_of loop))).
    split; [by rewrite Hes|]. split; [done|]. split; [done|]. split; [done|].
    split; [done|]. split; [done|]. split; [done|].
    intros uid. apply Hact.
  Qed.
End CallSpec.

Section ConcatFacts.
  Implicit Types (ess : list (list Effect)).

Lemma elem_of_events_received_concat ess x :
    x ∈ events_received (concat ess) ↔ ∃ es, es ∈ ess ∧ x ∈ events_received es.
  Proof.
    induction ess as [|es ess IH]; simpl.
    - split; [inversion 1 | intros (? & H & _); inversion H].
    - rewrite events_received_app, elem_of_app, IH. split.
      + intros [H | (es' & H1 & H2)].
        * exists es. split; [by left | done].
        * exists es'. split; [by right | done].
      + intros (es' & H1 & H2). apply elem_of_cons in H1 as [-> | H1]; eauto.
  Qed.

  (** When the pass of a key delivers broadcasts for this key only, and at
      most one, the broadcasts of a key in the log of the loop are those of
      its pass. *)
Lemma data_broadcasts_of_key (keys : list ConfigKey) ess key :
    NoDup keys →
    Forall2 (λ k es_k, data_broadcasts es_k = [] ∨ data_broadcasts es_k = [k])
            keys ess →
    (key ∉ keys → filter (λ k, k = key) (data_broadcasts (concat ess)) = [])
    ∧ (∀ i es_key, keys !! i = Some key → ess !! i = Some es_key →
         filter (λ k, k = key) (data_broadcasts (concat ess))
         = data_broadcasts es_key).
  Proof.
    intros Hnd Hall. induction Hall as [|k es_k keys ess Hk Hall IH]; simpl.
    - split; [done|]. intros i es_key Hi. done.
    - apply NoDup_cons in Hnd as [Hnotin Hnd]. destruct (IH Hnd) as [IH1 IH2].
      rewrite data_broadcasts_app, filter_app. split.
      + intros Hx. apply not_elem_of_cons in Hx as [Hne Hx]. rewrite (IH1 Hx).
        destruct Hk as [-> | ->]; [done|]. by rewrite filter_cons_False.
      + intros [|i] es_key Hi Hes; simpl in Hi, Hes.
        * injection Hi as ->. injection Hes as ->. rewrite (IH1 Hnotin), app_nil_r.
          destruct Hk as [-> | ->]; [done|]. by rewrite filter_cons_True.
        * rewrite (IH2 i es_key Hi Hes).
          assert (Hne : k ≠ key).
          { intros ->. apply Hnotin. by eapply list_elem_of_lookup_2. }
          destruct Hk as [-> | ->]; [done|]. by rewrite filter_cons_False.
  Qed.
End ConcatFacts.

Section CallFacts.
  Context {M C : Type} `{!MetricsManager M C} `{!StatsdStats} `{!AtomsProto}.
  Implicit Types (p s : State M) (env : Env C) (key k : ConfigKey) (uid : Z).

Lemma prepare_observations env event elapsed p :
    let prep := OnLogEvent_prepare env event elapsed p in
    pacing (state_of prep) = pacing p
    ∧ events_received (effects prep) = []
    ∧ data_broadcasts (effects prep) = []
    ∧ activation_broadcasts (effects prep) = [].
  Proof.
    intros prep. destruct (OnLogEvent_prepare_pacing env event elapsed p) as [Hp He].
    split; [exact Hp|]. by apply no_dispatch_call_observations.
  Qed.

Lemma shared_activation_times s s' :
    shared s' = shared s →
    mLastActivationBroadcastTimes s' = mLastActivationBroadcastTimes s.
  Proof. destruct s, s'. by intros [=]. Qed.

Lemma but_activation_times_slice s s' k :
    but_activation_times s' = but_activation_times s → slice k s' = slice k s.
  Proof. destruct s, s'. intros [=]. unfold slice; cbn. by subst. Qed.

Lemma passed_data_broadcasts env event k before after es :
    passed env event k before after es →
    data_broadcasts es = [] ∨ data_broadcasts es = [k].
  Proof. intros (_ & _ & _ & [[? _] | [? _]] & _); auto. Qed.

  (** Activation broadcasts of one call, per uid. *)
Lemma OnLogEvent_activation_paced env event elapsed p uid :
    let r := OnLogEvent env event elapsed p in
    paced kMinActivationBroadcastPeriodNs elapsed
      (mLastActivationBroadcastTimes p !! uid)
      (mLastActivationBroadcastTimes (state_of r) !! uid)
      (filter (λ u, u = uid) (activation_broadcasts (effects r))) uid.
  Proof.
    intros r. subst r.
    pose proof (OnLogEvent_structure env event elapsed p) as Hst.
    pose proof (prepare_observations env event elapsed p) as (Hpace & _ & _ & Hpa).
    cbv zeta in Hst, Hpace, Hpa.
    assert (Ht1 : mLastActivationBroadcastTimes
                    (state_of (OnLogEvent_prepare env event elapsed p))
                  = mLastActivationBroadcastTimes p).
    { unfold pacing in Hpace. by injection Hpace. }
    destruct (result (OnLogEvent_prepare env event elapsed p)) as [event'|].
    - destruct Hst as (s2 & ess & es_act & -> & Hsh & _ & Hall & _ & _ & _ & Hact).
      rewrite !activation_broadcasts_app, Hpa.
      change (activation_broadcasts []) with (@nil Z). cbn [app].
      assert (Hloop : activation_broadcasts (concat ess) = []).
      { clear -Hall. induction Hall as [|k es_k keys ess Hk _ IH]; [done|].
        simpl. rewrite activation_broadcasts_app, IH.
        destruct Hk as (_ & -> & _). done. }
      rewrite Hloop. cbn [app].
      rewrite <- Ht1, <- (shared_activation_times _ _ Hsh). apply Hact.
    - destruct Hst as [-> ->]. rewrite app_nil_r, Hpa, Ht1. by left.
  Qed.

  (** Data-ready broadcasts of one call, per key. *)
Lemma OnLogEvent_data_paced env event elapsed p key :
    let r := OnLogEvent env event elapsed p in
    paced kMinBroadcastPeriodNs (getElapsedRealtimeNs env)
      (mLastBroadcastTimes p !! key)
      (mLastBroadcastTimes (state_of r) !! key)
      (filter (λ k, k = key) (data_broadcasts (effects r))) key.
  Proof.
    intros r. subst r.
    pose proof (OnLogEvent_structure env event elapsed p) as Hst.
    pose proof (prepare_observations env event elapsed p) as (Hpace & _ & Hpd & _).
    cbv zeta in Hst, Hpace, Hpd.
    assert (Ht1 : mLastBroadcastTimes
                    (state_of (OnLogEvent_prepare env event elapsed p))
                  = mLastBroadcastTimes p).
    { unfold pacing in Hpace. by injection Hpace. }
    destruct (result (OnLogEvent_prepare env event elapsed p)) as [event'|].
    - destruct Hst as (s2 & ess & es_act & -> & _ & Hout & Hall & Hbut & _ & Hda & _).
      rewrite !data_broadcasts_app, Hpd, Hda, app_nil_r.
      change (data_broadcasts []) with (@nil ConfigKey). cbn [app].
      apply (but_activation_times_slice _ _ key) in Hbut.
      apply (f_equal sl_lastBroadcastTime) in Hbut.
      rewrite !sl_lastBroadcastTime_slice in Hbut. rewrite Hbut, <- Ht1.
      destruct (data_broadcasts_of_key
                  (managerKeys (state_of (OnLogEvent_prepare env event elapsed p)))
                  ess key (managerKeys_NoDup _)) as [Hno Hat].
      { eapply Forall2_impl; [exact Hall|]. intros k es_k Hp.
        exact (passed_data_broadcasts _ _ _ _ _ _ Hp). }
      destruct (decide (key ∈ managerKeys
                          (state_of (OnLogEvent_prepare env event elapsed p))))
        as [Hin|Hnin].
      + apply list_elem_of_lookup in Hin as [i Hi].
        destruct (Forall2_lookup_l _ _ _ _ _ Hall Hi) as (es_key & Hes & Hp).
        rewrite (Hat i es_key Hi Hes).
        destruct Hp as (_ & _ & _ & Hp & _).
        by rewrite !sl_lastBroadcastTime_slice in Hp.
      + rewrite (Hno Hnin). left. split; [done|].
        specialize (Hout key Hnin). apply (f_equal sl_lastBroadcastTime) in Hout.
        by rewrite !sl_lastBroadcastTime_slice in Hout.
    - destruct Hst as [-> ->]. rewrite app_nil_r, Hpd, Ht1. by left.
  Qed.
End CallFacts.

Section PacedRuns.
  Context {S Cl K : Type} `{!EqDecision K}.
  Variable step : Cl → S → S * list Effect.
  Variable time : Cl → Z.
  Variable record : S → option Z.
  Variable sent : list Effect → list K.
  Variable k : K.
  Variable period : Z.
  Hypothesis period_nonneg : 0 ≤ period.
  Hypothesis step_paced : ∀ c s,
    paced period (time c) (record s) (record (step c s).1)
          (filter (λ k', k' = k) (sent (step c s).2)) k.

Lemma elem_of_sent_filter l : k ∈ sent l → filter (λ k', k' = k) (sent l) ≠ [].
  Proof.
    intros Hin Hnil. assert (Hf : k ∈ filter (λ k', k' = k) (sent l)).
    { by apply list_elem_of_filter. }
    rewrite Hnil in Hf. inversion Hf.
  Qed.

  (** A broadcast delivered later in a run is at least one period after the
      time on record when the run starts. *)
Lemma run_after_record calls : ∀ s j cj lj last,
    run_calls step calls s !! j = Some (cj, lj) →
    k ∈ sent lj → record s = Some last → period ≤ time cj - last.
  Proof.
    induction calls as [|c calls IH]; intros s j cj lj last Hj Hin Hrec; [done|].
    simpl in Hj. destruct (step_paced c s) as [[Hnone Hsame] | (Hone & Hnew & Hgap)].
    - destruct j as [|j]; simpl in Hj.
      + injection Hj as <- <-. by apply elem_of_sent_filter in Hin.
      + eapply IH; [exact Hj | exact Hin |]. by rewrite Hsame.
    - destruct j as [|j]; simpl in Hj.
      + injection Hj as <- <-. by apply Hgap.
      + specialize (IH _ _ _ _ _ Hj Hin Hnew). specialize (Hgap last Hrec). lia.
  Qed.

Lemma run_separated calls : ∀ s, separated period time sent (run_calls step calls s) k.
  Proof.
    induction calls as [|c calls IH]; intros s.
    - split; intros; done.
    - destruct (IH (step c s).1) as [IH1 IH2]. split.
      + intros i j ci li cj lj Hij Hi Hj Hini Hinj. simpl in Hi, Hj.
        destruct j as [|j]; [lia|]. simpl in Hj. destruct i as [|i]; simpl in Hi.
        * injection Hi as <- <-.
          destruct (step_paced c s) as [[Hnone _] | (_ & Hnew & _)].
          -- by apply elem_of_sent_filter in Hini.
          -- by eapply run_after_record.
        * eapply IH1; [|exact Hi|exact Hj|done|done]. lia.
      + intros [|i] ci li Hi; simpl in Hi.
        * injection Hi as <- <-.
          destruct (step_paced c s) as [[-> _] | (-> & _)]; simpl; lia.
        * by eapply IH2.
  Qed.
End PacedRuns.

Section RateLimitFacts.
  Context {M C : Type} `{!MetricsManager M C} `{!StatsdStats} `{!AtomsProto}.
  Implicit Types (p : State M) (m : M) (env : Env C) (key : ConfigKey).

Lemma OnLogEvent_activation_separated calls p uid :
    0 ≤ kMinActivationBroadcastPeriodNs →
    separated kMinActivationBroadcastPeriodNs call_elapsedRealtimeNs
              activation_broadcasts (run_OnLogEvent calls p) uid.
  Proof.
    intros Hpos. unfold run_OnLogEvent.
    apply (run_separated OnLogEvent_step call_elapsedRealtimeNs
             (λ s, mLastActivationBroadcastTimes s !! uid)); [done|].
    intros c s. apply OnLogEvent_activation_paced.
  Qed.

Lemma OnLogEvent_data_separated calls p key :
    0 ≤ kMinBroadcastPeriodNs →
    separated kMinBroadcastPeriodNs (λ c, getElapsedRealtimeNs (call_env c))
              data_broadcasts (run_OnLogEvent calls p) key.
  Proof.
    intros Hpos. unfold run_OnLogEvent.
    apply (run_separated OnLogEvent_step (λ c, getElapsedRealtimeNs (call_env c))
             (λ s, mLastBroadcastTimes s !! key)); [done|].
    intros c s. apply OnLogEvent_data_paced.
  Qed.

  (** The loop at the end of [OnLogEvent], at a uid with a broadcast on
      record: strictly inside the window it notes the guardrail hit and
      returns; from the end of the window on it invokes the callback. *)
Lemma sendActivationBroadcasts_window env elapsed perUid uid uids p last :
    mLastActivationBroadcastTimes p !! uid = Some last →
    (elapsed - last < kMinActivationBroadcastPeriodNs →
     sendActivationBroadcasts env elapsed perUid (uid :: uids) p
     = (tt, p, [StatsdStats_noteActivationBroadcastGuardrailHit uid]))
    ∧ (kMinActivationBroadcastPeriodNs ≤ elapsed - last →
       ∃ rest,
         effects (sendActivationBroadcasts env elapsed perUid (uid :: uids) p)
         = call_mSendActivationBroadcast uid (default [] (perUid !! uid))
             (mSendActivationBroadcast env uid (default [] (perUid !! uid)))
           :: rest).
  Proof.
    intros Hlast. split; intros Hgap.
    - cbn [sendActivationBroadcasts]. run_proc. rewrite Hlast.
      by rewrite bool_decide_eq_true_2 by done.
    - cbn [sendActivationBroadcasts]. rewrite bind_run.
      change (get p) with (p, p, @nil Effect).
      cbn [result state_of effects fst snd app].
      rewrite Hlast, bool_decide_eq_false_2 by lia.
      rewrite bind_run. cbn [result state_of effects fst snd emit app].
      eexists. reflexivity.
  Qed.

  (** [flushIfNecessaryLocked] at a key with a broadcast on record, when
      the byte-size check runs and asks for a broadcast. *)
Lemma flushIfNecessaryLocked_window env key m p last :
    byteSize_check_due env key p →
    hasRestrictedMetricsDelegate m = false →
    (byteSize m ≤ getMaxMetricsBytes m)%N →
    (getTriggerGetDataBytes m < byteSize m)%N ∨ key ∈ mOnDiskDataConfigs p →
    mLastBroadcastTimes p !! key = Some last →
    let now := getElapsedRealtimeNs env in
    (now - last < kMinBroadcastPeriodNs →
     effects (flushIfNecessaryLocked env key m p) = [])
    ∧ (kMinBroadcastPeriodNs ≤ now - last →
       effects (flushIfNecessaryLocked env key m p)
       = call_mSendBroadcast key (mSendBroadcast env key)
         :: (if mSendBroadcast env key
             then [StatsdStats_noteBroadcastSent key] else [])).
  Proof.
    intros Hdue Hr Hmax Hask Hlast now.
    assert (Hreq : bool_decide (getTriggerGetDataBytes m < byteSize m)%N
                   || bool_decide (key ∈ mOnDiskDataConfigs p) = true).
    { apply orb_true_iff. destruct Hask; [left|right]; by apply bool_decide_eq_true_2. }
    split; intros Hgap; unfold flushIfNecessaryLocked; run_proc;
      rewrite (byteSize_check_runs env key p Hdue), Hr;
      rewrite (bool_decide_eq_false_2 (getMaxMetricsBytes m < byteSize m)%N) by lia;
      rewrite Hreq; cbn beta iota zeta; rewrite Hr.
    - destruct p; cbn in Hlast |- *. rewrite Hlast.
      by rewrite bool_decide_eq_true_2 by done.
    - destruct p; cbn in Hlast |- *. rewrite Hlast.
      rewrite bool_decide_eq_false_2 by (subst now; lia).
      by destruct (mSendBroadcast env key).
  Qed.
End RateLimitFacts.


Section ReceivedFacts.
  Context {M C : Type} `{!MetricsManager M C} `{!StatsdStats} `{!AtomsProto}.
  Implicit Types (p s : State M) (env : Env C) (key k : ConfigKey) (m : M).

Lemma passed_events_received env event k before after es x :
    passed env event k before after es →
    x ∈ events_received es →
    x = (k, event)
    ∧ ∃ m, sl_manager before = Some m ∧ takes_event event m = true.
  Proof.
    intros (Hev & _) Hin. rewrite Hev in Hin.
    destruct (sl_manager before) as [m|]; [|inversion Hin].
    destruct (takes_event event m) eqn:Ht; [|inversion Hin].
    apply list_elem_of_singleton in Hin. eauto.
  Qed.

  (** The log of the loop over the managers, read per key. *)
Lemma loop_events_received env event s1 s2 ess k ev' :
    Forall2 (λ k es_k, passed env event k (slice k s1) (slice k s2) es_k)
            (managerKeys s1) ess →
    (k, ev') ∈ events_received (concat ess) ↔
    ev' = event
    ∧ ∃ m, mMetricsManagers s1 !! k = Some m ∧ takes_event event m = true.
  Proof.
    intros Hall. rewrite elem_of_events_received_concat. split.
    - intros (es & Hes & Hin). apply list_elem_of_lookup in Hes as [i Hi].
      destruct (Forall2_lookup_r _ _ _ _ _ Hall Hi) as (ki & Hki & Hp).
      destruct (passed_events_received _ _ _ _ _ _ _ Hp Hin) as ([= -> ->] & m & Hm & Ht).
      rewrite sl_manager_slice in Hm. eauto.
    - intros (-> & m & Hm & Ht).
      assert (Hin : k ∈ managerKeys s1) by (apply elem_of_managerKeys; eauto).
      apply list_elem_of_lookup in Hin as [i Hi].
      destruct (Forall2_lookup_l _ _ _ _ _ Hall Hi) as (es & Hes & Hp).
      exists es. split; [by eapply list_elem_of_lookup_2|].
      destruct Hp as (-> & _). rewrite sl_manager_slice, Hm, Ht. by left.
  Qed.

  (** The managers that a call of [OnLogEvent] hands an event: those of the
      map at the start of the loop that take the prepared event. *)
Lemma OnLogEvent_events_received env event elapsed p k ev' :
    let prep := OnLogEvent_prepare env event elapsed p in
    let r := OnLogEvent env event elapsed p in
    (k, ev') ∈ events_received (effects r) ↔
    result prep = Some ev'
    ∧ ∃ m, mMetricsManagers (state_of prep) !! k = Some m
           ∧ takes_event ev' m = true.
  Proof.
    intros prep r. subst r.
    pose proof (OnLogEvent_structure env event elapsed p) as Hst.
    pose proof (prepare_observations env event elapsed p) as (_ & Hpe & _).
    cbv zeta in Hst, Hpe. fold prep in Hst, Hpe.
    destruct (result prep) as [event'|].
    - destruct Hst as (s2 & ess & es_act & -> & _ & _ & Hall & _ & Hea & _).
      rewrite !events_received_app, Hpe, Hea, app_nil_r.
      change (events_received []) with (@nil (ConfigKey * LogEvent)). cbn [app].
      rewrite (loop_events_received _ _ _ _ _ _ _ Hall). split.
      + intros (-> & Hm). done.
      + intros ([= ->] & Hm). done.
    - destruct Hst as [_ ->]. rewrite app_nil_r, Hpe. split.
      + inversion 1.
      + intros [[=] _].
  Qed.

  (** A manager that is handed the event while its byte-size check is due
      is within its limit when the call returns. *)
Lemma OnLogEvent_within_limit env event elapsed p k ev' :
    guardrail_laws M C →
    let r := OnLogEvent env event elapsed p in
    (k, ev') ∈ events_received (effects r) →
    byteSize_check_due env k p →
    ∃ m', mMetricsManagers (state_of r) !! k = Some m' ∧ within_limit m'.
  Proof.
    intros Hlaws r Hin Hdue. subst r.
    pose proof (OnLogEvent_structure env event elapsed p) as Hst.
    pose proof (prepare_observations env event elapsed p) as (Hpace & Hpe & _).
    cbv zeta in Hst, Hpace, Hpe.
    assert (Ht1 : mLastByteSizeTimes
                    (state_of (OnLogEvent_prepare env event elapsed p))
                  = mLastByteSizeTimes p).
    { unfold pacing in Hpace. by injection Hpace. }
    destruct (result (OnLogEvent_prepare env event elapsed p)) as [event'|].
    - destruct Hst as (s2 & ess & es_act & Heff & _ & _ & Hall & Hbut & Hea & _).
      rewrite Heff, !events_received_app, Hpe, Hea, app_nil_r in Hin.
      change (events_received []) with (@nil (ConfigKey * LogEvent)) in Hin.
      cbn [app] in Hin.
      pose proof Hin as Hin'.
      rewrite (loop_events_received _ _ _ _ _ _ _ Hall) in Hin'.
      destruct Hin' as (-> & m & Hm & Ht).
      assert (Hk : k ∈ managerKeys (state_of (OnLogEvent_prepare env event elapsed p)))
        by (apply elem_of_managerKeys; eauto).
      apply list_elem_of_lookup in Hk as [i Hi].
      destruct (Forall2_lookup_l _ _ _ _ _ Hall Hi) as (es & Hes & Hp).
      destruct Hp as (_ & _ & _ & _ & Hlim).
      destruct (Hlim Hlaws m) as (m' & Hm' & Hwithin).
      + by rewrite sl_manager_slice.
      + done.
      + rewrite sl_lastByteSizeTime_slice, Ht1. exact Hdue.
      + exists m'. split; [|done].
        apply (but_activation_times_slice _ _ k) in Hbut.
        apply (f_equal sl_manager) in Hbut. rewrite !sl_manager_slice in Hbut.
        by rewrite Hbut, <- Hm', sl_manager_slice.
    - destruct Hst as [_ Heff]. rewrite Heff, app_nil_r, Hpe in Hin. inversion Hin.
  Qed.
End ReceivedFacts.

Lemma Sample_guardrail_laws : guardrail_laws Sample.Manager Sample.Manager.
Proof.
  split.
  - intros t m. reflexivity.
  - intros m Hm. cbn in *. unfold Sample.restricted.
    destruct (Sample.delegate m); cbn; [lia | exact Hm].
Qed.

(** C1.  At the return from a call of [OnLogEvent] that handed the event to
    the manager of a key while the byte-size check of the key was due (no
    check of the key within [kMinByteSizeCheckPeriodNs] before the call),
    the manager of the key is in the map and its [byteSize()] is at most its
    [maxMetricsBytes], provided [dropData] clears a manager and
    [flushRestrictedData] does not take a manager past its limit. *)
Theorem OnLogEvent_manager_within_limit_after_due_check :
  ∀ (M C : Type) (MM : MetricsManager M C) (SS : StatsdStats) (AP : AtomsProto)
    (env : Env C) (event : LogEvent) (elapsedRealtimeNs : Z) (p : State M)
    (key : ConfigKey) (received : LogEvent),
    guardrail_laws M C →
    (key, received)
      ∈ events_received (effects (OnLogEvent env event elapsedRealtimeNs p)) →
    byteSize_check_due env key p →
    ∃ m, mMetricsManagers (state_of (OnLogEvent env event elapsedRealtimeNs p))
           !! key = Some m
         ∧ (byteSize m ≤ getMaxMetricsBytes m)%N.
Proof.
  intros M C MM SS AP env event elapsed p key received Hlaws Hin Hdue.
  exact (OnLogEvent_within_limit env event elapsed p key received Hlaws Hin Hdue).
Qed.

(** A manager of 900 bytes with a limit of 1000 that an event grows by 600:
    the check finds 1500 bytes and the data is dropped. *)
Lemma OnLogEvent_manager_within_limit_after_due_check_witness :
  let m := Sample.mkManager 900 1000 500 600 None true 0 true in
  let r := OnLogEvent (Sample.env 100 true true Sample.no_answer)
             (Sample.event 10 100 []) 100
             (Sample.processor {[Sample.key1 := m]} ∅) in
  StatsdStats_noteDataDropped Sample.key1 1500 ∈ effects r
  ∧ ∃ m', mMetricsManagers (state_of r) !! Sample.key1 = Some m'
          ∧ (byteSize m' ≤ getMaxMetricsBytes m')%N.
Proof.
  intros m r. split.
  - assert (Heff : effects r !! 4%nat
                   = Some (StatsdStats_noteDataDropped Sample.key1 1500))
      by (vm_compute; reflexivity).
    by eapply list_elem_of_lookup_2.
  - apply (OnLogEvent_manager_within_limit_after_due_check
             Sample.Manager Sample.Manager Sample.manager Sample.constants
             Sample.atoms (Sample.env 100 true true Sample.no_answer)
             (Sample.event 10 100 []) 100
             (Sample.processor {[Sample.key1 := m]} ∅)
             Sample.key1 (Sample.event 10 100 [])).
    + exact Sample_guardrail_laws.
    + assert (Hev : events_received
                      (effects
                         (OnLogEvent (Sample.env 100 true true Sample.no_answer)
                            (Sample.event 10 100 []) 100
                            (Sample.processor {[Sample.key1 := m]} ∅)))
                    = [(Sample.key1, Sample.event 10 100 [])])
        by (vm_compute; reflexivity).
      rewrite Hev. by left.
    + intros last Hlast. vm_compute in Hlast. discriminate.
Defined.

(** C1 as stated fails: the byte-size check is rate-limited.  A manager
    with a limit of 1000 bytes that grows by 600 bytes per event is checked
    at the first of two events 100 ns apart and not at the second, after
    which it holds 1200 bytes. *)
Lemma OnLogEvent_leaves_manager_over_limit :
  let env t := Sample.env t true true Sample.no_answer in
  let r1 := OnLogEvent (env 100) (Sample.event 10 100 []) 100
              (Sample.processor {[Sample.key1 := Sample.growing]} ∅) in
  let r2 := OnLogEvent (env 200) (Sample.event 10 200 []) 200 (state_of r1) in
  byteSize <$> mMetricsManagers (state_of r2) !! Sample.key1 = Some 1200%N
  ∧ getMaxMetricsBytes <$> mMetricsManagers (state_of r2) !! Sample.key1
    = Some 1000%N.
Proof. by vm_compute. Qed.

Section InvariantSteps.
  Context {S X : Type}.
  Implicit Types (s : S) (f : S → X) (ok : Effect → Prop).

  (** Stepping over a computation that keeps the part [f] of the state,
      towards a postcondition that says so of the whole. *)
Lemma wp_seq_framed {A B} f ok (x : X) (m : Proc S A) (k : A → Proc S B)
      (R : B → S → Prop) s :
    frames f ok m → f s = x →
    (∀ a s', f s' = x →
       wp (k a) (λ b s2 es, f s2 = x ∧ Forall ok es ∧ R b s2) s') →
    wp (m ≫= k) (λ b s2 es, f s2 = x ∧ Forall ok es ∧ R b s2) s.
  Proof.
    intros Hm Hs Hk. apply wp_bind. eapply wp_frames; [exact Hm|].
    intros a s' es Hs' Hes. cbn beta. eapply wp_conseq; [apply Hk; congruence|].
    intros b s2 es2 (H1 & H2 & H3). split; [done|]. split; [|done].
    by apply Forall_app.
  Qed.

  (** Stepping over a computation that only computes a value. *)
Lemma wp_seq_read {A B} (m : Proc S A) (a : A) (k : A → Proc S B) Q s :
    m s = (a, s, []) → wp (k a) Q s → wp (m ≫= k) Q s.
  Proof. intros Hm Hk. apply wp_bind. unfold wp at 1. rewrite Hm. exact Hk. Qed.
End InvariantSteps.

Section PrepareResult.
  Context {M C : Type} `{!MetricsManager M C} `{!StatsdStats} `{!AtomsProto}.
  Implicit Types (p s : State M) (env : Env C) (event : LogEvent).

Lemma onBinaryPushStateChangedEventLocked_unpermitted env event s :
    has_permissions env event = false →
    onBinaryPushStateChangedEventLocked env event s = (event, s, []).
  Proof. intros Hp. unfold onBinaryPushStateChangedEventLocked. by rewrite Hp. Qed.

Lemma onWatchdogRollbackOccurredLocked_unpermitted env event s :
    has_permissions env event = false →
    onWatchdogRollbackOccurredLocked env event s = (event, s, []).
  Proof. intros Hp. unfold onWatchdogRollbackOccurredLocked. by rewrite Hp. Qed.

Lemma mapIsolatedUidToHostUidIfNecessaryLocked_run event s :
    mapIsolatedUidToHostUidIfNecessaryLocked event s
    = (result (mapIsolatedUidToHostUidIfNecessaryLocked event s), s, []).
  Proof.
    unfold mapIsolatedUidToHostUidIfNecessaryLocked. run_proc.
    by destruct (mAttributionChainIndexRange event) as [[? ?]|].
  Qed.

Lemma mapIsolatedUidToHostUidIfNecessaryLocked_result event s s' :
    mIsolatedUidMap s = mIsolatedUidMap s' →
    result (mapIsolatedUidToHostUidIfNecessaryLocked event s)
    = result (mapIsolatedUidToHostUidIfNecessaryLocked event s').
  Proof.
    intros Hi. unfold mapIsolatedUidToHostUidIfNecessaryLocked. run_proc.
    destruct (mAttributionChainIndexRange event) as [[? ?]|]; cbn; by rewrite Hi.
  Qed.

Lemma mapIsolatedUidToHostUidIfNecessaryLocked_header event s :
    let ev := result (mapIsolatedUidToHostUidIfNecessaryLocked event s) in
    mTagId ev = mTagId event ∧ mLogUid ev = mLogUid event
    ∧ mRestricted ev = mRestricted event.
  Proof.
    unfold mapIsolatedUidToHostUidIfNecessaryLocked. run_proc.
    by destruct (mAttributionChainIndexRange event) as [[? ?]|].
  Qed.

Lemma uids_and_trains_isolated s s' :
    uids_and_trains s = uids_and_trains s' → mIsolatedUidMap s = mIsolatedUidMap s'.
  Proof. unfold uids_and_trains. by intros [=]. Qed.

  (** [OnLogEvent] up to the validation, for an event that the handlers of
      train events leave alone (another atom, or a caller without the
      permissions) and that is not [ISOLATED_UID_CHANGED]. *)
Lemma OnLogEvent_prepare_spec env event elapsed p :
    (atom_of_id (mTagId event) ≠ BINARY_PUSH_STATE_CHANGED
     ∧ atom_of_id (mTagId event) ≠ WATCHDOG_ROLLBACK_OCCURRED)
    ∨ has_permissions env event = false →
    atom_of_id (mTagId event) ≠ ISOLATED_UID_CHANGED →
    let ev := result (mapIsolatedUidToHostUidIfNecessaryLocked event p) in
    wp (OnLogEvent_prepare env event elapsed)
       (λ res s es,
          uids_and_trains s = uids_and_trains p
          ∧ Forall (λ e, ¬ train_info_call e) es
          ∧ ((∀ ev', res = Some ev' →
                ev' = ev ∧ mValid event = true
                ∧ validateAppBreadcrumbEvent (mIsolatedUidMap p) ev = true)
             ∧ (mValid event = true →
                validateAppBreadcrumbEvent (mIsolatedUidMap p) ev = true →
                mMetricsManagers s ≠ ∅ → res = Some ev))) p.
  Proof.
    intros Hleft Hniso ev. unfold OnLogEvent_prepare.
    pose (framed := λ A B, @wp_seq_framed (State M) _ A B uids_and_trains
                             (λ e, ¬ train_info_call e) (uids_and_trains p)).
    apply framed; [by apply frames_emit; intros Hf | done |]. intros _ s1 H1.
    destruct (mValid event) eqn:Hv; cbn [negb].
    - apply (wp_seq_read _ event).
      { destruct Hleft as [[Hb _] | Hperm].
        - by rewrite bool_decide_eq_false_2.
        - destruct (bool_decide _); [|done].
          by apply onBinaryPushStateChangedEventLocked_unpermitted. }
      apply (wp_seq_read _ event).
      { destruct Hleft as [[_ Hw] | Hperm].
        - by rewrite bool_decide_eq_false_2.
        - destruct (bool_decide _); [|done].
          by apply onWatchdogRollbackOccurredLocked_unpermitted. }
      apply framed; [| done |].
      { frames_unfold. frames_auto; try (intros []; reflexivity);
          try (intros Hf; exact Hf). }
      intros _ s2 H2. rewrite bool_decide_eq_false_2 by done.
      apply (wp_seq_read _ ev).
      { rewrite mapIsolatedUidToHostUidIfNecessaryLocked_run. subst ev.
        by rewrite (mapIsolatedUidToHostUidIfNecessaryLocked_result event s2 p)
          by (by apply uids_and_trains_isolated). }
      apply framed; [by apply frames_emit; intros Hf | done |]. intros _ s3 H3.
      apply (wp_seq_read _ s3); [done|].
      destruct (bool_decide (mMetricsManagers s3 = ∅)) eqn:Hempty.
      + apply wp_ret. split; [done|]. split; [constructor|]. split; [done|].
        intros _ _ Hne. by apply bool_decide_eq_true_1 in Hempty.
      + repeat (apply framed;
                [ frames_unfold; frames_auto; try (intros []; reflexivity);
                  try (intros Hf; exact Hf)
                | done | intros _ ? ? ]).
        match goal with
        | |- wp (get ≫= _) _ ?s => apply (wp_seq_read _ s); [done|]
        end.
        match goal with
        | Hs : uids_and_trains ?s = _ |- wp _ _ ?s =>
            rewrite (uids_and_trains_isolated _ _ Hs)
        end.
        destruct (validateAppBreadcrumbEvent (mIsolatedUidMap p) ev) eqn:Hval;
          cbn [negb]; apply wp_ret; (split; [done|]); (split; [constructor|]).
        * split; [by intros ev' [= <-] | done].
        * split; [done | by intros _ ?].
    - apply framed; [by apply frames_emit; intros Hf | done |]. intros _ s2 H2.
      apply wp_ret. split; [done|]. split; [constructor|]. split; [done|].
      by intros ?.
  Qed.
End PrepareResult.

Section DispatchTrains.
  Context {M C : Type} `{!MetricsManager M C} `{!StatsdStats} `{!AtomsProto}.
  Implicit Types (p s : State M) (env : Env C) (event : LogEvent).

Lemma sendActivationBroadcasts_trains env elapsed perUid uids :
    frames uids_and_trains (λ e, ¬ train_info_call e)
           (sendActivationBroadcasts (M:=M) env elapsed perUid uids).
  Proof.
    induction uids as [|uid uids IH]; cbn [sendActivationBroadcasts].
    - apply frames_ret.
    - frames_auto; try (intros []; reflexivity); try (intros Hf; exact Hf).
  Qed.

  (** What follows the validation in [OnLogEvent] neither reads nor writes
      train info. *)
Lemma OnLogEvent_dispatch_trains env elapsed (prepared : option LogEvent) :
    frames uids_and_trains (λ e, ¬ train_info_call e)
      (match prepared with
       | None => mret tt
       | Some event =>
           p ← get;
           acc ← foldM (managerKeys p) (mkActiveConfigs ∅ ∅)
                       (passEventToManager (M:=M) env event);
           sendActivationBroadcasts env elapsed (activeConfigsPerUid acc)
             (elements (uidsWithActiveConfigsChanged acc))
       end).
  Proof.
    destruct prepared as [event|]; [|apply frames_ret].
    apply frames_bind; [apply frames_get | intros p].
    apply frames_bind; [| intros acc; apply sendActivationBroadcasts_trains].
    apply frames_foldM. intros key acc.
    unfold passEventToManager, flushIfNecessaryLocked, setManager.
    frames_auto; try (intros []; reflexivity); try (intros Hf; exact Hf).
  Qed.

Lemma validateAppBreadcrumbEvent_other isolated event :
    atom_of_id (mTagId event) ≠ APP_BREADCRUMB_REPORTED →
    validateAppBreadcrumbEvent isolated event = true.
  Proof.
    intros Hne. unfold validateAppBreadcrumbEvent.
    by rewrite bool_decide_eq_false_2.
  Qed.

  (** The check of the source accepts the events that the specification
      describes. *)
Lemma validateAppBreadcrumbEvent_accepts isolated event :
    atom_of_id (mTagId event) = APP_BREADCRUMB_REPORTED →
    validateAppBreadcrumbEvent isolated event = true
    ↔ breadcrumb_accepted isolated event.
  Proof.
    intros Htag. unfold validateAppBreadcrumbEvent, breadcrumb_accepted.
    rewrite bool_decide_eq_true_2 by done.
    destruct (GetLong event (to_uint64 (event_size event - 2))) as [uid err].
    destruct (GetLong event (event_size event)) as [state err'].
    destruct err; cbn [write_err].
    2,3: rewrite bool_decide_eq_true_2 by done;
      (split; [done | by intros (? & ? & [= _ ?] & _)]).
    rewrite (bool_decide_eq_false_2 (NO_ERROR ≠ NO_ERROR)) by (by intros ?).
    destruct (decide (getHostUidOrSelf isolated (mLogUid event) = uid)) as [Hu|Hu];
      destruct (decide (getHostUidOrSelf isolated (mLogUid event) = AID_STATSD))
        as [Hs|Hs].
    1,2,3: assert (Hok : bool_decide (getHostUidOrSelf isolated (mLogUid event) ≠ uid)
                    && bool_decide (getHostUidOrSelf isolated (mLogUid event)
                                    ≠ AID_STATSD) = false)
        by (apply andb_false_iff;
            first [ left; apply bool_decide_eq_false_2; by intros ?
                  | right; apply bool_decide_eq_false_2; by intros ? ]);
      rewrite Hok; clear Hok;
      (destruct err'; cbn [write_err];
       [ rewrite (bool_decide_eq_false_2 (NO_ERROR ≠ NO_ERROR)) by (by intros ?);
         destruct (decide (state < 0)) as [Hlo|Hlo];
         [ rewrite (bool_decide_eq_true_2 (state < 0)) by done; cbn [orb];
           split; [done | intros (? & ? & _ & [= <-] & _ & ?); lia]
         | rewrite (bool_decide_eq_false_2 (state < 0)) by done; cbn [orb];
           destruct (decide (state > 3)) as [Hhi|Hhi];
           [ rewrite (bool_decide_eq_true_2 (state > 3)) by done;
             split; [done | intros (? & ? & _ & [= <-] & _ & ?); lia]
           | rewrite (bool_decide_eq_false_2 (state > 3)) by done;
             split; [intros _; exists uid, state; repeat split; auto; lia | done] ] ]
       | rewrite bool_decide_eq_true_2 by done;
         split; [done | by intros (? & ? & _ & [= _ ?] & _)]
       | rewrite bool_decide_eq_true_2 by done;
         split; [done | by intros (? & ? & _ & [= _ ?] & _)] ]).
    rewrite !bool_decide_eq_true_2 by done. cbn [andb].
    split; [done|]. intros (u & st & [= <-] & _ & [?|?] & _); done.
  Qed.
End DispatchTrains.

Section UnprivilegedCalls.
  Context {M C : Type} `{!MetricsManager M C} `{!StatsdStats} `{!AtomsProto}.
  Implicit Types (p s : State M) (env : Env C) (event : LogEvent).

  (** A call of [OnLogEvent] with an event that the handlers of train
      events leave alone. *)
Lemma OnLogEvent_unprivileged env event elapsed p :
    (atom_of_id (mTagId event) ≠ BINARY_PUSH_STATE_CHANGED
     ∧ atom_of_id (mTagId event) ≠ WATCHDOG_ROLLBACK_OCCURRED)
    ∨ has_permissions env event = false →
    atom_of_id (mTagId event) ≠ ISOLATED_UID_CHANGED →
    let r := OnLogEvent env event elapsed p in
    let s1 := state_of (OnLogEvent_prepare env event elapsed p) in
    let ev := result (mapIsolatedUidToHostUidIfNecessaryLocked event p) in
    Forall (λ e, ¬ train_info_call e) (effects r)
    ∧ trainInfoOnDisk (state_of r) = trainInfoOnDisk p
    ∧ ∀ k ev',
        (k, ev') ∈ events_received (effects r) ↔
        ev' = ev ∧ mValid event = true
        ∧ validateAppBreadcrumbEvent (mIsolatedUidMap p) ev = true
        ∧ ∃ m, mMetricsManagers s1 !! k = Some m ∧ takes_event ev m = true.
  Proof.
    intros Hleft Hniso r s1 ev.
    pose proof (OnLogEvent_prepare_spec env event elapsed p Hleft Hniso)
      as (Hs & Hes & Hres1 & Hres2).
    fold s1 in Hs, Hres2.
    assert (Hrest := OnLogEvent_dispatch_trains env elapsed
                       (result (OnLogEvent_prepare env event elapsed p)) s1).
    destruct Hrest as [Hs' Hes'].
    assert (Hr : r = (OnLogEvent_prepare env event elapsed ≫= _) p) by reflexivity.
    rewrite bind_run in Hr. fold s1 in Hr.
    split; [|split].
    - rewrite Hr. cbn [effects snd]. by apply Forall_app.
    - rewrite Hr. cbn [state_of fst snd].
      transitivity (uids_and_trains s1).2; [by rewrite <- Hs' | by rewrite Hs].
    - intros k ev'. subst r. rewrite OnLogEvent_events_received. fold s1. split.
      + intros (Hsome & Hm). destruct (Hres1 ev' Hsome) as (-> & Hv & Hval). done.
      + intros (-> & Hv & Hval & m & Hm & Ht). split; [|eauto].
        apply Hres2; [done|done|]. intros Hempty. rewrite Hempty in Hm.
        by rewrite lookup_empty in Hm.
  Qed.
End UnprivilegedCalls.

(** C2.  For an event whose tag is [BINARY_PUSH_STATE_CHANGED] or
    [WATCHDOG_ROLLBACK_OCCURRED], logged by a caller that lacks the DUMP or
    the PACKAGE_USAGE_STATS permission, [OnLogEvent] neither reads nor
    writes train info and leaves the fields of the event as they came; the
    event is then handled as any other: when it is valid, every manager of
    the map that takes it is handed it, with its uids mapped to host uids as
    the only change. *)
Theorem OnLogEvent_train_event_without_permission :
  ∀ (M C : Type) (MM : MetricsManager M C) (SS : StatsdStats) (AP : AtomsProto)
    (env : Env C) (event : LogEvent) (elapsedRealtimeNs : Z) (p : State M),
    atom_of_id (mTagId event) = BINARY_PUSH_STATE_CHANGED
    ∨ atom_of_id (mTagId event) = WATCHDOG_ROLLBACK_OCCURRED →
    has_permissions env event = false →
    let r := OnLogEvent env event elapsedRealtimeNs p in
    let s1 := state_of (OnLogEvent_prepare env event elapsedRealtimeNs p) in
    let ev := result (mapIsolatedUidToHostUidIfNecessaryLocked event p) in
    Forall (λ e, ¬ train_info_call e) (effects r)
    ∧ trainInfoOnDisk (state_of r) = trainInfoOnDisk p
    ∧ ∀ k ev',
        (k, ev') ∈ events_received (effects r) ↔
        ev' = ev ∧ mValid event = true
        ∧ ∃ m, mMetricsManagers s1 !! k = Some m ∧ takes_event ev m = true.
Proof.
  intros M C MM SS AP env event elapsed p Htag Hperm r s1 ev.
  assert (Hniso : atom_of_id (mTagId event) ≠ ISOLATED_UID_CHANGED)
    by (destruct Htag as [-> | ->]; discriminate).
  assert (Hnb : atom_of_id (mTagId ev) ≠ APP_BREADCRUMB_REPORTED).
  { pose proof (mapIsolatedUidToHostUidIfNecessaryLocked_header event p) as (Ht & _).
    cbv zeta in Ht. unfold ev. rewrite Ht.
    destruct Htag as [-> | ->]; discriminate. }
  destruct (OnLogEvent_unprivileged env event elapsed p (or_intror Hperm) Hniso)
    as (Hes & Htr & Hev).
  subst r s1 ev.
  split; [done|]. split; [done|]. intros k ev'. rewrite (Hev k ev').
  rewrite (validateAppBreadcrumbEvent_other _ _ Hnb). split.
  - intros (? & ? & _ & ?). done.
  - intros (? & ? & ?). done.
Qed.

(** A [BINARY_PUSH_STATE_CHANGED] event of a caller without permissions: no
    train info is touched, the manager is handed the event. *)
Lemma OnLogEvent_train_event_without_permission_witness :
  let event := Sample.event 102 100 [STRING "train"; LONG 5] in
  let r := OnLogEvent (Sample.env 100 false true Sample.no_answer) event 100
             (Sample.processor {[Sample.key1 := Sample.growing]} ∅) in
  Forall (λ e, ¬ train_info_call e) (effects r)
  ∧ (Sample.key1, event) ∈ events_received (effects r).
Proof.
  intros event r.
  destruct (OnLogEvent_train_event_without_permission
              Sample.Manager Sample.Manager Sample.manager Sample.constants
              Sample.atoms (Sample.env 100 false true Sample.no_answer) event 100
              (Sample.processor {[Sample.key1 := Sample.growing]} ∅))
    as (Hes & _ & Hev).
  - left. reflexivity.
  - reflexivity.
  - split; [exact Hes|]. apply Hev. split; [reflexivity|]. split; [reflexivity|].
    exists Sample.growing. split; reflexivity.
Defined.

(** C2 as stated fails: the handler returns, [OnLogEvent] goes on.  A
    [BINARY_PUSH_STATE_CHANGED] event of a caller without permissions is
    handed to the manager. *)
Lemma OnLogEvent_dispatches_train_event_without_permission :
  let event := Sample.event 102 100 [STRING "train"; LONG 5] in
  let env := Sample.env 100 false true Sample.no_answer in
  has_permissions env event = false
  ∧ atom_of_id (mTagId event) = BINARY_PUSH_STATE_CHANGED
  ∧ events_received
      (effects (OnLogEvent env event 100
                  (Sample.processor {[Sample.key1 := Sample.growing]} ∅)))
    = [(Sample.key1, event)].
Proof. by vm_compute. Qed.

(** C7.  For an [APP_BREADCRUMB_REPORTED] event, the manager of a key is
    handed the event by [OnLogEvent] iff the event is valid, the uid that it
    carries is the host uid of the caller or the caller is statsd, the state
    that it carries lies in [0, 3], and the manager is in the map and takes
    the event; the event handed over is the one logged, with its uids mapped
    to host uids.  An event that is invalid or fails the check reaches no
    manager. *)
Theorem OnLogEvent_forwards_valid_accepted_breadcrumb :
  ∀ (M C : Type) (MM : MetricsManager M C) (SS : StatsdStats) (AP : AtomsProto)
    (env : Env C) (event : LogEvent) (elapsedRealtimeNs : Z) (p : State M),
    atom_of_id (mTagId event) = APP_BREADCRUMB_REPORTED →
    let r := OnLogEvent env event elapsedRealtimeNs p in
    let s1 := state_of (OnLogEvent_prepare env event elapsedRealtimeNs p) in
    let ev := result (mapIsolatedUidToHostUidIfNecessaryLocked event p) in
    (∀ k ev',
        (k, ev') ∈ events_received (effects r) ↔
        ev' = ev ∧ mValid event = true
        ∧ breadcrumb_accepted (mIsolatedUidMap p) ev
        ∧ ∃ m, mMetricsManagers s1 !! k = Some m ∧ takes_event ev m = true)
    ∧ (¬ (mValid event = true ∧ breadcrumb_accepted (mIsolatedUidMap p) ev) →
       events_received (effects r) = []).
Proof.
  intros M C MM SS AP env event elapsed p Htag r s1 ev.
  assert (Hniso : atom_of_id (mTagId event) ≠ ISOLATED_UID_CHANGED)
    by (rewrite Htag; discriminate).
  assert (Hleft : atom_of_id (mTagId event) ≠ BINARY_PUSH_STATE_CHANGED
                  ∧ atom_of_id (mTagId event) ≠ WATCHDOG_ROLLBACK_OCCURRED)
    by (rewrite Htag; split; discriminate).
  assert (Hb : atom_of_id (mTagId ev) = APP_BREADCRUMB_REPORTED).
  { pose proof (mapIsolatedUidToHostUidIfNecessaryLocked_header event p) as (Ht & _).
    cbv zeta in Ht. unfold ev. by rewrite Ht. }
  destruct (OnLogEvent_unprivileged env event elapsed p (or_introl Hleft) Hniso)
    as (_ & _ & Hev).
  subst r s1 ev.
  assert (Hiff : ∀ k ev',
             (k, ev') ∈ events_received
                          (effects (OnLogEvent env event elapsed p)) ↔
             ev' = result (mapIsolatedUidToHostUidIfNecessaryLocked event p)
             ∧ mValid event = true
             ∧ breadcrumb_accepted (mIsolatedUidMap p)
                 (result (mapIsolatedUidToHostUidIfNecessaryLocked event p))
             ∧ ∃ m, mMetricsManagers
                      (state_of (OnLogEvent_prepare env event elapsed p)) !! k
                    = Some m
                    ∧ takes_event
                        (result (mapIsolatedUidToHostUidIfNecessaryLocked event p))
                        m = true).
  { intros k ev'. rewrite (Hev k ev').
    by rewrite (validateAppBreadcrumbEvent_accepts _ _ Hb). }
  split; [exact Hiff|].
  intros Hnot.
  destruct (events_received (effects (OnLogEvent env event elapsed p)))
    as [|[k ev'] rest] eqn:Hrec; [done|].
  exfalso. apply Hnot.
  assert (Hin : (k, ev') ∈ (k, ev') :: rest) by (by left).
  apply Hiff in Hin as (_ & ? & ? & _). done.
Qed.

(** A breadcrumb of uid 1000 with state 2, logged by uid 1000. *)
Lemma OnLogEvent_forwards_valid_accepted_breadcrumb_witness :
  let event := Sample.event 47 100 [INT 1000; INT 7; INT 2] in
  let r := OnLogEvent (Sample.env 100 true true Sample.no_answer) event 100
             (Sample.processor {[Sample.key1 := Sample.growing]} ∅) in
  (Sample.key1, event) ∈ events_received (effects r).
Proof.
  intros event r.
  destruct (OnLogEvent_forwards_valid_accepted_breadcrumb
              Sample.Manager Sample.Manager Sample.manager Sample.constants
              Sample.atoms (Sample.env 100 true true Sample.no_answer) event 100
              (Sample.processor {[Sample.key1 := Sample.growing]} ∅))
    as (Hev & _).
  - reflexivity.
  - apply Hev. split; [reflexivity|]. split; [reflexivity|]. split.
    + exists 1000, 2. split; [reflexivity|]. split; [reflexivity|].
      split; [by left | lia].
    + exists Sample.growing. split; reflexivity.
Defined.

(** C7 as stated fails for an event that is not valid: a breadcrumb that
    carries the uid of its caller and the state 2 reaches no manager. *)
Lemma OnLogEvent_drops_invalid_breadcrumb_with_good_fields :
  let event :=
    mkLogEvent 47 100 1000 1 false false false
               (Sample.field <$> [INT 1000; INT 7; INT 2]) None in
  let p := Sample.processor {[Sample.key1 := Sample.growing]} ∅ in
  atom_of_id (mTagId event) = APP_BREADCRUMB_REPORTED
  ∧ GetLong event (event_size event - 2) = (mLogUid event, NO_ERROR)
  ∧ GetLong event (event_size event) = (2, NO_ERROR)
  ∧ mMetricsManagers p !! Sample.key1 = Some Sample.growing
  ∧ events_received
      (effects (OnLogEvent (Sample.env 100 true true Sample.no_answer)
                  event 100 p))
    = [].
Proof. by vm_compute. Qed.

Section OtherCalls.
  Context {M C : Type} `{!MetricsManager M C} `{!StatsdStats} `{!AtomsProto}.
  Implicit Types (p s : State M) (env : Env C) (key : ConfigKey).

Lemma no_broadcasts log :
    Forall no_broadcast_call log →
    data_broadcasts log = [] ∧ activation_broadcasts log = [].
  Proof.
    induction 1 as [|e l He _ [IH1 IH2]]; [done|].
    unfold data_broadcasts, activation_broadcasts in *. cbn.
    rewrite IH1, IH2. by destruct e.
  Qed.

Lemma WriteDataToDiskLocked_key_quiet env key ts wall reason latency :
    frames (broadcast_times (M:=M)) no_broadcast_call
           (WriteDataToDiskLocked_key env key ts wall reason latency).
  Proof.
    unfold WriteDataToDiskLocked_key, onConfigMetricsReportLocked, setManager.
    frames_auto; intros []; reflexivity.
  Qed.

Lemma WriteDataToDiskLocked_quiet env reason latency elapsed wall :
    frames (broadcast_times (M:=M)) no_broadcast_call
           (WriteDataToDiskLocked env reason latency elapsed wall).
  Proof.
    unfold WriteDataToDiskLocked. frames_auto; [by intros []|].
    apply WriteDataToDiskLocked_key_quiet.
  Qed.

Lemma OnConfigUpdatedLocked_quiet env ts key config modularUpdate :
    frames (broadcast_times (M:=M)) no_broadcast_call
           (OnConfigUpdatedLocked env ts key config modularUpdate).
  Proof.
    unfold OnConfigUpdatedLocked, setManager, updateLogEventFilterLocked.
    frames_auto; intros []; reflexivity.
  Qed.

Lemma resetConfigsLocked_quiet env ts keys :
    frames (broadcast_times (M:=M)) no_broadcast_call
           (resetConfigsLocked env ts keys).
  Proof.
    unfold resetConfigsLocked, setManager.
    frames_auto; try apply OnConfigUpdatedLocked_quiet; intros []; reflexivity.
  Qed.

Lemma flushRestrictedDataLocked_quiet t :
    frames (broadcast_times (M:=M)) no_broadcast_call (flushRestrictedDataLocked t).
  Proof.
    unfold flushRestrictedDataLocked, setManager. frames_auto; intros []; reflexivity.
  Qed.

Lemma enforceDataTtlsLocked_quiet wall t :
    frames (broadcast_times (M:=M)) no_broadcast_call (enforceDataTtlsLocked wall t).
  Proof.
    unfold enforceDataTtlsLocked, setManager. frames_auto; intros []; reflexivity.
  Qed.

Lemma querySql_quiet env sql minV configId pkg callingUid ind :
    frames (broadcast_times (M:=M)) no_broadcast_call
           (querySql env sql minV configId pkg callingUid ind).
  Proof.
    unfold querySql.
    frames_auto;
      first [apply flushRestrictedDataLocked_quiet
            | apply enforceDataTtlsLocked_quiet ].
  Qed.

Lemma processWatchdogRollbackOccurred_quiet type pkg :
    frames (broadcast_times (M:=M)) no_broadcast_call
           (processWatchdogRollbackOccurred type pkg).
  Proof.
    unfold processWatchdogRollbackOccurred, readTrainInfo, writeTrainInfo.
    frames_auto; intros []; reflexivity.
  Qed.

  (** Every call other than [OnLogEvent] delivers no broadcast and leaves
      the times of the last broadcasts as they are. *)
Lemma other_calls_quiet (c : ProcessorCall C) p :
    (∀ c', c ≠ Call_OnLogEvent c') →
    broadcast_times (processor_step c p).1 = broadcast_times p
    ∧ data_broadcasts (processor_step c p).2 = []
    ∧ activation_broadcasts (processor_step c p).2 = [].
  Proof.
    intros Hother.
    assert (Hframes : ∀ {A} (m : Proc (State M) A),
              frames (broadcast_times (M:=M)) no_broadcast_call m →
              broadcast_times (ran (m p)).1 = broadcast_times p
              ∧ data_broadcasts (ran (m p)).2 = []
              ∧ activation_broadcasts (ran (m p)).2 = []).
    { intros A m Hm. destruct (Hm p) as [Hs Hlog]. split; [exact Hs|].
      by apply no_broadcasts. }
    destruct c; cbn [processor_step].
    - by destruct (Hother c).
    - apply Hframes. unfold OnConfigUpdated. frames_auto.
      + apply WriteDataToDiskLocked_key_quiet.
      + apply OnConfigUpdatedLocked_quiet.
    - apply Hframes, WriteDataToDiskLocked_quiet.
    - apply Hframes. unfold resetConfigs, resetConfigsLocked_all. frames_auto.
      apply resetConfigsLocked_quiet.
    - apply Hframes, querySql_quiet.
    - apply Hframes. unfold EnforceDataTtls. frames_auto.
      apply enforceDataTtlsLocked_quiet.
    - apply Hframes, processWatchdogRollbackOccurred_quiet.
    - apply Hframes. unfold noteOnDiskData. frames_auto. by intros [].
    - apply Hframes. unfold setAnomalyAlarm. frames_auto. by intros [].
    - apply Hframes. unfold cancelAnomalyAlarm. frames_auto. by intros [].
  Qed.
End OtherCalls.

Section ProcessorRuns.
  Context {M C : Type} `{!MetricsManager M C} `{!StatsdStats} `{!AtomsProto}.
  Implicit Types (p s : State M) (env : Env C) (key : ConfigKey).

Lemma processor_step_activation_paced (c : ProcessorCall C) p uid :
    paced kMinActivationBroadcastPeriodNs (elapsed_of c)
      (mLastActivationBroadcastTimes p !! uid)
      (mLastActivationBroadcastTimes (processor_step c p).1 !! uid)
      (filter (λ u, u = uid) (activation_broadcasts (processor_step c p).2)) uid.
  Proof.
    destruct c as [c| | | | | | | | |];
      [apply OnLogEvent_activation_paced|..];
      (match goal with
       | |- context [processor_step ?c ?p] =>
           destruct (other_calls_quiet c p) as (Ht & _ & Ha); [by intros ?|];
           pose proof (f_equal snd Ht) as Hx;
           change (mLastActivationBroadcastTimes (processor_step c p).1
                   = mLastActivationBroadcastTimes p) in Hx
       end;
       left; rewrite Ha, Hx; by split).
  Qed.

Lemma processor_step_data_paced (c : ProcessorCall C) p key :
    paced kMinBroadcastPeriodNs (clock_of c)
      (mLastBroadcastTimes p !! key)
      (mLastBroadcastTimes (processor_step c p).1 !! key)
      (filter (λ k, k = key) (data_broadcasts (processor_step c p).2)) key.
  Proof.
    destruct c as [c| | | | | | | | |];
      [apply OnLogEvent_data_paced|..];
      (match goal with
       | |- context [processor_step ?c ?p] =>
           destruct (other_calls_quiet c p) as (Ht & Hd & _); [by intros ?|];
           pose proof (f_equal fst Ht) as Hx;
           change (mLastBroadcastTimes (processor_step c p).1
                   = mLastBroadcastTimes p) in Hx
       end;
       left; rewrite Hd, Hx; by split).
  Qed.

Lemma run_processor_quiet calls : ∀ p i c l,
    run_processor calls p !! i = Some (c, l) →
    (∀ c', c ≠ Call_OnLogEvent c') →
    data_broadcasts l = [] ∧ activation_broadcasts l = [].
  Proof.
    unfold run_processor.
    induction calls as [|c0 calls IH]; intros p i c l Hi Hother; [done|].
    cbn [run_calls] in Hi. destruct i as [|i]; cbn in Hi.
    - injection Hi as <- <-.
      by destruct (other_calls_quiet c0 p Hother) as (_ & ? & ?).
    - by eapply IH.
  Qed.
End ProcessorRuns.



Section MultiConditionTriggerCompletion.
  Import MultiConditionTrigger.
  Implicit Types (s : t) (c : string) (calls : list string) (names : gset string).

Lemma remaining_after_mark (R S : gset string) c :
    R ∖ {[c]} ⊆ S ↔ R ⊆ {[c]} ∪ S.
  Proof.
    split; intros H x Hx.
    - destruct (decide (x = c)) as [->|Hne]; [set_solver|].
      apply elem_of_union_r, H. set_solver.
    - apply elem_of_difference in Hx as [Hx Hc]. specialize (H x Hx).
      apply elem_of_union in H as [H|H]; [done|done].
  Qed.

Lemma run_from_dispatch_count calls : ∀ s,
    flag_agrees s →
    length (filter (λ b, b = true) (snd <$> run_from s calls))
    = if mCompleted s then 0%nat
      else if bool_decide (mRemainingConditionNames s ⊆ list_to_set calls)
           then 1%nat else 0%nat.
  Proof.
    induction calls as [|c calls IH]; intros s Hf.
    - simpl. destruct (mCompleted s) eqn:Hs; [done|].
      rewrite bool_decide_eq_false_2; [done|].
      intros Hsub. unfold flag_agrees in Hf. rewrite Hs in Hf.
      symmetry in Hf. apply bool_decide_eq_false_1 in Hf. apply Hf.
      apply set_eq. intros x. split; [apply Hsub | inversion 1].
    - cbn [run_from fmap list_fmap].
      pose proof (markComplete_flag_agrees c s Hf) as Hf'.
      specialize (IH (fst (markComplete c s)) Hf').
      unfold markComplete in *. destruct (mCompleted s) eqn:Hs.
      + cbn [fst snd] in *. rewrite Hs in IH. by rewrite filter_cons_False.
      + cbn [fst snd mCompleted mRemainingConditionNames] in *.
        cbn [list_to_set foldr].
        destruct (bool_decide (mRemainingConditionNames s ∖ {[c]} = ∅)) eqn:Hb.
        * rewrite filter_cons_True by done. cbn [length]. rewrite IH.
          apply bool_decide_eq_true_1 in Hb.
          rewrite bool_decide_eq_true_2; [done|].
          apply remaining_after_mark. rewrite Hb. apply empty_subseteq.
        * rewrite filter_cons_False by done. rewrite IH.
          by rewrite (bool_decide_ext _ _ (remaining_after_mark _ _ c)).
  Qed.

Lemma run_from_remaining calls : ∀ s x,
    flag_agrees s →
    last (fst <$> run_from s calls) = Some x →
    mRemainingConditionNames x = mRemainingConditionNames s ∖ list_to_set calls.
  Proof.
    induction calls as [|c calls IH]; intros s x Hf Hl; [done|].
    cbn [run_from fmap list_fmap] in Hl. rewrite last_cons in Hl.
    pose proof (markComplete_flag_agrees c s Hf) as Hf'.
    cbn [list_to_set foldr].
    destruct (last (fst <$> run_from (fst (markComplete c s)) calls)) as [y|] eqn:El.
    - injection Hl as <-. rewrite (IH _ _ Hf' El), (markComplete_remaining c s Hf).
      apply set_eq. intros z. rewrite !elem_of_difference, elem_of_union. tauto.
    - injection Hl as <-. rewrite (markComplete_remaining c s Hf).
      destruct calls as [|c' calls];
        [|cbn [run_from fmap list_fmap] in El; rewrite last_cons in El;
          by destruct (last _)].
      apply set_eq. intros z. rewrite !elem_of_difference, elem_of_union.
      split; [intros [? ?]; split; [done|]; intros [?|Hz]; [done|inversion Hz] | tauto].
  Qed.
End MultiConditionTriggerCompletion.

(** X1.  Over its whole life a trigger is dispatched once when every
    condition name it was built with is among the names marked complete, and
    never otherwise; order and repetition of the calls do not matter.  The
    names it still awaits after the calls are those it was built with that
    no call has marked. *)
Theorem MultiConditionTrigger_dispatched_iff_all_marked :
  ∀ (names : gset string) (calls : list string),
    MultiConditionTrigger.dispatch_count names calls
    = (if bool_decide (names ⊆ list_to_set calls) then 1%nat else 0%nat)
    ∧ ∀ s, last (MultiConditionTrigger.states names calls) = Some s →
           MultiConditionTrigger.mRemainingConditionNames s
           = names ∖ list_to_set calls.
Proof.
  intros names calls. split.
  - unfold MultiConditionTrigger.dispatch_count, MultiConditionTrigger.dispatches,
      MultiConditionTrigger.run.
    cbn [fmap list_fmap].
    pose proof (run_from_dispatch_count calls
                  (fst (MultiConditionTrigger.create names))
                  (create_flag_agrees names)) as Hc.
    unfold MultiConditionTrigger.create in *.
    cbn [fst snd MultiConditionTrigger.mCompleted
         MultiConditionTrigger.mRemainingConditionNames] in *.
    destruct (bool_decide (names = ∅)) eqn:He.
    + rewrite filter_cons_True by done. cbn [length]. rewrite Hc.
      apply bool_decide_eq_true_1 in He. subst names.
      rewrite bool_decide_eq_true_2; [done | apply empty_subseteq].
    + rewrite filter_cons_False by done. exact Hc.
  - intros s Hl.
    unfold MultiConditionTrigger.states, MultiConditionTrigger.run in Hl.
    cbn [fmap list_fmap] in Hl. rewrite last_cons in Hl.
    destruct (last (fst <$> MultiConditionTrigger.run_from
                      (fst (MultiConditionTrigger.create names)) calls)) as [s'|]
      eqn:El.
    + injection Hl as <-.
      exact (run_from_remaining calls _ _ (create_flag_agrees names) El).
    + injection Hl as <-. destruct calls as [|c calls].
      * cbn. apply set_eq. intros z. rewrite elem_of_difference.
        split; [intros ?; split; [done | inversion 1] | tauto].
      * cbn [MultiConditionTrigger.run_from fmap list_fmap] in El.
        rewrite last_cons in El. by destruct (last _).
Qed.

Section TrainUpdateFacts.
  Context {M C : Type}.
  Implicit Types (p : State M) (d t : InstallTrainInfo) (ids : list Z) (env : Env C).

Lemma getAndUpdateTrainInfoOnDisk_run env is_rollback t p :
    trainName t ≠ EmptyString →
    let u := updated_train_info (uninitialized_InstallTrainInfo env) is_rollback t
               (trainInfoOnDisk p !! trainName t) in
    getAndUpdateTrainInfoOnDisk env is_rollback t p
    = (u, set_trainInfoOnDisk (insert (trainName t) u) p,
       [StorageManager_readTrainInfo (trainName t);
        StorageManager_writeTrainInfo u]).
  Proof.
    intros Hname u. subst u. unfold getAndUpdateTrainInfoOnDisk.
    rewrite bool_decide_eq_false_2 by done.
    rewrite bind_run, readTrainInfo_run. cbn [result state_of effects fst snd].
    destruct (trainInfoOnDisk p !! trainName t) as [d|] eqn:Hd.
    - rewrite bool_decide_eq_true_2 by eauto. cbn [default from_option]. unfold id.
      match goal with
      | |- context [let '(_, _) := ?X in _] => destruct X as [t1 reset] eqn:Hsel
      end.
      rewrite status_switch_marker, write_and_return_run.
      cbn [result state_of effects fst snd app].
      assert (Hu : (if is_rollback
                    then with_rollback_bits d
                           (with_experimentIds
                              (with_marker
                                 (marker_of_state
                                    (status (if (negb reset || is_rollback) && true
                                             then with_experimentIds (experimentIds d) t1
                                             else t1)))
                                 (experimentIds
                                    (if (negb reset || is_rollback) && true
                                     then with_experimentIds (experimentIds d) t1
                                     else t1)))
                              (if (negb reset || is_rollback) && true
                               then with_experimentIds (experimentIds d) t1 else t1))
                    else with_experimentIds
                           (with_marker
                              (marker_of_state
                                 (status (if (negb reset || is_rollback) && true
                                          then with_experimentIds (experimentIds d) t1
                                          else t1)))
                              (experimentIds
                                 (if (negb reset || is_rollback) && true
                                  then with_experimentIds (experimentIds d) t1
                                  else t1)))
                           (if (negb reset || is_rollback) && true
                            then with_experimentIds (experimentIds d) t1 else t1))
                   = updated_train_info (uninitialized_InstallTrainInfo env)
                       is_rollback t (Some d)).
      { unfold updated_train_info, kept_experimentIds. cbn [default from_option].
        unfold id. destruct t as [v n st ids rs re rl], d as [dv dn dst dids drs dre drl].
        cbn in Hsel |- *. clear Hd Hname.
        destruct (decide (v = -1)) as [Hv|Hv].
        - rewrite (bool_decide_eq_true_2 (v = -1)) in * by done.
          rewrite (bool_decide_eq_false_2 (v ≠ -1 ∧ v ≠ dv)) by tauto.
          cbn in Hsel. injection Hsel as <- <-.
          destruct ids as [|a ids], dids as [|b dids], is_rollback; cbn;
            try reflexivity; case_bool_decide; reflexivity.
        - rewrite (bool_decide_eq_false_2 (v = -1)) in * by done.
          destruct (decide (v = dv)) as [Hdv|Hdv].
          + rewrite (bool_decide_eq_false_2 (v ≠ dv)) in * by tauto.
            rewrite (bool_decide_eq_false_2 (v ≠ -1 ∧ v ≠ dv)) by tauto.
            cbn in Hsel. injection Hsel as <- <-.
            destruct ids as [|a ids], dids as [|b dids], is_rollback; cbn;
              try reflexivity; case_bool_decide; reflexivity.
          + rewrite (bool_decide_eq_true_2 (v ≠ dv)) in * by done.
            rewrite (bool_decide_eq_true_2 (v ≠ -1 ∧ v ≠ dv)) by tauto.
            cbn in Hsel. injection Hsel as <- <-.
            destruct ids as [|a ids], dids as [|b dids], is_rollback; cbn;
              try reflexivity; case_bool_decide; reflexivity. }
      rewrite Hu.
      assert (Hn : trainName (updated_train_info (uninitialized_InstallTrainInfo env)
                                is_rollback t (Some d)) = trainName t) by reflexivity.
      by rewrite Hn.
    - rewrite bool_decide_eq_false_2 by (intros [? ?]; done).
      cbn [default from_option negb orb andb].
      replace ((true || is_rollback) && false) with false by (by destruct is_rollback).
      rewrite status_switch_marker, write_and_return_run.
      cbn [result state_of effects fst snd app].
      assert (Hu : (if is_rollback
                    then with_rollback_bits (uninitialized_InstallTrainInfo env)
                           (with_experimentIds
                              (with_marker (marker_of_state (status t))
                                           (experimentIds t)) t)
                    else with_experimentIds
                           (with_marker (marker_of_state (status t))
                                        (experimentIds t)) t)
                   = updated_train_info (uninitialized_InstallTrainInfo env)
                       is_rollback t None).
      { unfold updated_train_info, kept_experimentIds. cbn [default from_option].
        destruct t, is_rollback; reflexivity. }
      rewrite Hu.
      assert (Hn : trainName (updated_train_info (uninitialized_InstallTrainInfo env)
                                is_rollback t None) = trainName t) by reflexivity.
      by rewrite Hn.
  Qed.

Lemma with_marker_idem_any o ids :
    with_marker o (with_marker o ids) = with_marker o ids.
  Proof.
    destruct o as [k|]; [apply with_marker_idem|]. by destruct ids.
  Qed.

Lemma with_marker_head o a l : ∃ l', with_marker o (a :: l) = a :: l'.
  Proof.
    destruct o as [k|]; [|by eexists]. cbn. destruct (decide _); by eexists.
  Qed.

  (** Updating with the record just stored changes nothing. *)
Lemma updated_train_info_idem uninitialized is_rollback t read :
    updated_train_info uninitialized is_rollback t
      (Some (updated_train_info uninitialized is_rollback t read))
    = updated_train_info uninitialized is_rollback t read.
  Proof.
    set (u := updated_train_info uninitialized is_rollback t read).
    assert (Hv : trainVersionCode t ≠ -1 → trainVersionCode u = trainVersionCode t).
    { intros Hv. subst u. unfold updated_train_info. cbn.
      destruct read; [by rewrite bool_decide_eq_false_2|done]. }
    assert (Hkept : kept_experimentIds is_rollback t (Some u) = experimentIds u).
    { unfold kept_experimentIds.
      rewrite (bool_decide_eq_false_2 (_ ∧ _)) by (intros [H1 H2]; by apply H2, eq_sym, Hv).
      destruct is_rollback; [by rewrite andb_false_r|]. cbn [orb negb andb].
      destruct (experimentIds t) as [|a ids] eqn:Hids; [done|].
      assert (Hhead : ∃ l, experimentIds u = a :: l).
      { subst u. unfold updated_train_info. cbn [experimentIds].
        unfold kept_experimentIds. rewrite Hids.
        destruct read as [d|]; [|apply with_marker_head].
        cbn [negb andb]. rewrite andb_true_r.
        destruct (experimentIds d) as [|b dids] eqn:Hd.
        - rewrite orb_true_r. apply with_marker_head.
        - destruct (decide (a = b)) as [->|Hab].
          + destruct (_ || _); apply with_marker_head.
          + rewrite (bool_decide_eq_true_2 (a ≠ b)) by done. rewrite orb_true_r.
            apply with_marker_head. }
      destruct Hhead as [l ->]. by rewrite bool_decide_eq_false_2 by (by intros ?). }
    unfold updated_train_info at 1. rewrite Hkept. cbn [default from_option].
    unfold id.
    assert (Hids : with_marker (marker_of_state (status t)) (experimentIds u)
                   = experimentIds u).
    { subst u. unfold updated_train_info. cbn [experimentIds].
      apply with_marker_idem_any. }
    rewrite Hids. subst u. unfold updated_train_info. cbn.
    f_equal.
    - destruct read as [d|]; case_bool_decide; done.
    - by destruct is_rollback.
    - by destruct is_rollback.
    - by destruct is_rollback.
  Qed.
End TrainUpdateFacts.

(** X2.  [getAndUpdateTrainInfoOnDisk] stores the train under its name
    with: the version received, unless that is -1 and a record is stored,
    whose version is then kept; the name and status received; the experiment
    ids received when nothing is stored or when the event is not a rollback
    and brings a new version or another first id, the stored ids otherwise,
    in both cases with the marker of the status; the three flags received,
    or on a rollback those of the record read.  The record stored is the
    record returned; one read and one write are made.  With an empty train
    name nothing is read, written or changed. *)
Theorem getAndUpdateTrainInfoOnDisk_stores_updated_record :
  ∀ (M C : Type) (env : Env C) (is_rollback : bool) (trainInfo : InstallTrainInfo)
    (p : State M),
    let r := getAndUpdateTrainInfoOnDisk env is_rollback trainInfo p in
    let u := updated_train_info (uninitialized_InstallTrainInfo env) is_rollback
               trainInfo (trainInfoOnDisk p !! trainName trainInfo) in
    if bool_decide (trainName trainInfo = EmptyString)
    then r = (trainInfo, p, [])
    else result r = u
         ∧ trainInfoOnDisk (state_of r) = <[trainName trainInfo := u]> (trainInfoOnDisk p)
         ∧ effects r = [StorageManager_readTrainInfo (trainName trainInfo);
                        StorageManager_writeTrainInfo u].
Proof.
  intros M C env is_rollback t p r u. subst r u. case_bool_decide as Hname.
  - unfold getAndUpdateTrainInfoOnDisk. by rewrite bool_decide_eq_true_2.
  - rewrite getAndUpdateTrainInfoOnDisk_run by done.
    cbn [result state_of effects fst snd]. by rewrite trainInfoOnDisk_set.
Qed.

(** X3.  Handing [getAndUpdateTrainInfoOnDisk] the same train info a second
    time returns the record that the first call returned and leaves the
    state, the records on disk included, as the first call left it. *)
Theorem getAndUpdateTrainInfoOnDisk_idempotent :
  ∀ (M C : Type) (env : Env C) (is_rollback : bool) (trainInfo : InstallTrainInfo)
    (p : State M),
    let once := getAndUpdateTrainInfoOnDisk env is_rollback trainInfo p in
    let twice := getAndUpdateTrainInfoOnDisk env is_rollback trainInfo
                   (state_of once) in
    result twice = result once ∧ state_of twice = state_of once.
Proof.
  intros M C env is_rollback t p once twice. subst once twice.
  destruct (decide (trainName t = EmptyString)) as [Hname|Hname].
  - unfold getAndUpdateTrainInfoOnDisk. by rewrite !bool_decide_eq_true_2.
  - rewrite (getAndUpdateTrainInfoOnDisk_run env is_rollback t p Hname).
    cbn [result state_of effects fst snd].
    rewrite getAndUpdateTrainInfoOnDisk_run by done.
    cbn [result state_of effects fst snd].
    rewrite trainInfoOnDisk_set, lookup_insert_eq, updated_train_info_idem.
    split; [done|]. rewrite set_trainInfoOnDisk_twice.
    apply set_trainInfoOnDisk_ext. cbn. apply insert_insert_eq.
Qed.

Section KeptIds.
  Implicit Types (d t : InstallTrainInfo).

  (** The list [getAndUpdateTrainInfoOnDisk] goes on with, case by case. *)
Lemma kept_experimentIds_stored is_rollback t d :
    is_rollback = true
    ∨ ((trainVersionCode t = -1 ∨ trainVersionCode t = trainVersionCode d)
       ∧ (experimentIds t = []
          ∨ head (experimentIds t) = head (experimentIds d))) →
    kept_experimentIds is_rollback t (Some d) = experimentIds d.
  Proof.
    unfold kept_experimentIds. intros [-> | [Hv Hids]].
    - by rewrite andb_false_r.
    - rewrite (bool_decide_eq_false_2 (_ ∧ _)) by (intros [? ?]; destruct Hv; done).
      destruct (experimentIds t) as [|a ids], (experimentIds d) as [|b dids];
        cbn in *; try done.
      + by destruct Hids.
      + destruct Hids as [?|[= ->]]; [done|].
        by rewrite (bool_decide_eq_false_2 (b ≠ b)) by (intros ?; done).
  Qed.

Lemma kept_experimentIds_received t d :
    (trainVersionCode t ≠ -1 ∧ trainVersionCode t ≠ trainVersionCode d)
    ∨ (experimentIds t ≠ []
       ∧ head (experimentIds t) ≠ head (experimentIds d)) →
    kept_experimentIds false t (Some d) = experimentIds t.
  Proof.
    unfold kept_experimentIds. intros [Hv | [Hne Hhead]].
    - by rewrite (bool_decide_eq_true_2 (_ ∧ _)) by done.
    - destruct (experimentIds t) as [|a ids], (experimentIds d) as [|b dids];
        cbn in *; try done.
      + by rewrite orb_true_r.
      + rewrite (bool_decide_eq_true_2 (a ≠ b)) by (intros ->; done).
        by rewrite orb_true_r.
  Qed.
End KeptIds.

(** C6, as the code has it.  The hard-coded handlers add exactly the marker
    id of the status, at the end of the list and only when the list does
    not hold it yet.  Watchdog rollback: for a stored record whose list is
    non-empty with first element firstId, rollback-initiate yields the
    stored list with firstId+4 and rollback-success with firstId+5; any
    other type returns the list as stored; the new list is written back.
    Binary push: the marker (install-success firstId+1,
    installer-rollback-initiated firstId+2, installer-rollback-success
    firstId+3, none for another status) is derived from, and added to, the
    list that [getAndUpdateTrainInfoOnDisk] goes on with, which is the
    stored list only when a record is stored and the event is a rollback, or
    brings no new version (-1 or the stored version) and no list that
    starts with another id; it is the list of the event when nothing is
    stored, or when the event is no rollback and brings a new version or a
    list that starts with another id than the stored one. *)
Theorem status_marker_appended_once :
  ∀ (M C : Type) (env : Env C) (p : State M),
    (∀ (rollbackType : RollbackType) (packageName : string) (d : InstallTrainInfo),
        packageName ≠ EmptyString →
        trainInfoOnDisk p !! packageName = Some d →
        experimentIds d ≠ [] →
        let r := processWatchdogRollbackOccurred rollbackType packageName p in
        result r = with_marker (marker_of_rollback rollbackType) (experimentIds d)
        ∧ (is_Some (marker_of_rollback rollbackType) →
           trainInfoOnDisk (state_of r) !! trainName d
           = Some (with_experimentIds (result r) d)))
    ∧ (∀ (is_rollback : bool) (trainInfo : InstallTrainInfo),
         trainName trainInfo ≠ EmptyString →
         let r := getAndUpdateTrainInfoOnDisk env is_rollback trainInfo p in
         let read := trainInfoOnDisk p !! trainName trainInfo in
         let base := kept_experimentIds is_rollback trainInfo read in
         experimentIds (result r)
         = with_marker (marker_of_state (status trainInfo)) base
         ∧ status (result r) = status trainInfo
         ∧ trainInfoOnDisk (state_of r) !! trainName trainInfo = Some (result r)
         ∧ (read = None → base = experimentIds trainInfo)
         ∧ (∀ d, read = Some d →
                 is_rollback = true
                 ∨ ((trainVersionCode trainInfo = -1
                     ∨ trainVersionCode trainInfo = trainVersionCode d)
                    ∧ (experimentIds trainInfo = []
                       ∨ head (experimentIds trainInfo)
                         = head (experimentIds d))) →
                 base = experimentIds d)
         ∧ (∀ d, read = Some d →
                 is_rollback = false →
                 (trainVersionCode trainInfo ≠ -1
                  ∧ trainVersionCode trainInfo ≠ trainVersionCode d)
                 ∨ (experimentIds trainInfo ≠ []
                    ∧ head (experimentIds trainInfo)
                      ≠ head (experimentIds d)) →
                 base = experimentIds trainInfo))
    ∧ (∀ (k firstId : Z) (rest : list Z),
         with_marker (Some k) (firstId :: rest)
         = if bool_decide (firstId + k ∈ firstId :: rest)
           then firstId :: rest else (firstId :: rest) ++ [firstId + k]).
Proof.
  intros M C env p. split; [|split].
  - intros type pkg d Hpkg Hd Hne r. subst r.
    destruct (marker_of_rollback type) as [k|] eqn:Hk.
    + rewrite (processWatchdog_stored type pkg p d k) by done.
      cbn [result state_of fst snd]. split; [done|]. intros _.
      rewrite trainInfoOnDisk_set. apply lookup_insert_eq.
    + destruct type as [| |code]; try done.
      rewrite (processWatchdog_other code pkg p d) by done.
      cbn [result state_of fst snd]. split; [|by intros [? ?]].
      by destruct (experimentIds d).
  - intros is_rollback t Hname r read base. subst r base.
    rewrite (getAndUpdateTrainInfoOnDisk_run env is_rollback t p Hname).
    cbn [result state_of fst snd]. fold read.
    split; [reflexivity|]. split; [reflexivity|]. split.
    { rewrite trainInfoOnDisk_set. apply lookup_insert_eq. }
    split; [by intros ->|]. split.
    + intros d -> Hcase. by apply kept_experimentIds_stored.
    + intros d -> -> Hcase. by apply kept_experimentIds_received.
  - intros k firstId rest. unfold with_marker.
    destruct (decide _); [by rewrite bool_decide_eq_true_2
                         | by rewrite bool_decide_eq_false_2].
Qed.

(** A stored train of version 7 with the ids 100 and 555, and an install
    success of the same version whose list starts with 100: the marker 101
    is added to the stored list. *)
Lemma status_marker_appended_once_witness :
  let stored := mkInstallTrainInfo 7 "train" (OTHER_STATE 0) [100; 555]
                  false false false in
  let received := mkInstallTrainInfo 7 "train" INSTALL_SUCCESS [100]
                    false false false in
  let p := Sample.processor ∅ {["train"%string := stored]} in
  experimentIds
    (result (getAndUpdateTrainInfoOnDisk
               (Sample.env 100 true true Sample.no_answer) false received p))
  = [100; 555; 101].
Proof.
  intros stored received p.
  destruct (status_marker_appended_once Sample.Manager Sample.Manager
              (Sample.env 100 true true Sample.no_answer) p) as (_ & H & _).
  destruct (H false received) as (Hids & _); [done|].
  rewrite Hids. by vm_compute.
Defined.

(** C6 as stated fails for the binary-push handler: the stored list of the
    train starts with 100, and an install success of a new version whose
    list starts with 200 is stored with the marker 201 derived from the
    list of the event; the id 101 that the stored list would give is not
    added. *)
Lemma status_marker_derived_from_event_list_on_new_version :
  let stored := mkInstallTrainInfo 7 "train" (OTHER_STATE 0) [100; 555]
                  false false false in
  let received := mkInstallTrainInfo 8 "train" INSTALL_SUCCESS [200]
                    false false false in
  let p := Sample.processor ∅ {["train"%string := stored]} in
  let r := getAndUpdateTrainInfoOnDisk
             (Sample.env 100 true true Sample.no_answer) false received p in
  experimentIds <$> trainInfoOnDisk p !! "train"%string = Some [100; 555]
  ∧ experimentIds (result r) = [200; 201]
  ∧ experimentIds <$> trainInfoOnDisk (state_of r) !! "train"%string
    = Some [200; 201].
Proof. by vm_compute. Qed.

Section MalformedTrainEvents.
  Context {M C : Type} `{!AtomsProto}.
  Implicit Types (p : State M) (env : Env C) (event : LogEvent) (err e : status_t).

Lemma write_err_l err e : err ≠ NO_ERROR → write_err err e ≠ NO_ERROR.
  Proof. by destruct e. Qed.

Lemma write_err_r err e : e ≠ NO_ERROR → write_err err e ≠ NO_ERROR.
  Proof. by destruct e. Qed.

Lemma onBinaryPushStateChangedEventLocked_malformed env event p :
    (GetString event 1).2 ≠ NO_ERROR ∨ (GetLong event 2).2 ≠ NO_ERROR
    ∨ (GetBool event 3).2 ≠ NO_ERROR ∨ (GetBool event 4).2 ≠ NO_ERROR
    ∨ (GetBool event 5).2 ≠ NO_ERROR ∨ (GetLong event 6).2 ≠ NO_ERROR
    ∨ (GetStorage event 7).2 ≠ NO_ERROR ∨ (GetBool event 10).2 ≠ NO_ERROR
    ∨ ExperimentIds_ParseFromArray env (GetStorage event 7).1 = None →
    onBinaryPushStateChangedEventLocked env event p = (event, p, []).
  Proof.
    intros Hbad. unfold onBinaryPushStateChangedEventLocked.
    destruct (has_permissions env event); [|done]. cbn [negb].
    destruct (GetString event 1) as [name e1], (GetLong event 2) as [version e2],
      (GetBool event 3) as [staging e3], (GetBool event 4) as [rollback e4],
      (GetBool event 5) as [lowLatency e5], (GetLong event 6) as [state e6],
      (GetStorage event 7) as [bytes e7], (GetBool event 10) as [is_rollback e8].
    cbn [fst snd] in Hbad. case_bool_decide as Herr; [done|].
    destruct Hbad as [Hb|[Hb|[Hb|[Hb|[Hb|[Hb|[Hb|[Hb|Hb]]]]]]]];
      try (exfalso;
           match type of Herr with
           | ?x = NO_ERROR =>
               assert (x ≠ NO_ERROR)
                 by (repeat first [ by apply write_err_r | apply write_err_l ]);
               done
           end).
    by rewrite Hb.
  Qed.

Lemma onWatchdogRollbackOccurredLocked_malformed env event p :
    (GetInt event 1).2 ≠ NO_ERROR ∨ (GetString event 2).2 ≠ NO_ERROR →
    onWatchdogRollbackOccurredLocked env event p = (event, p, []).
  Proof.
    intros Hbad. unfold onWatchdogRollbackOccurredLocked.
    destruct (has_permissions env event); [|done]. cbn [negb].
    destruct (GetInt event 1) as [type e1], (GetString event 2) as [name e2].
    cbn [fst snd] in Hbad. case_bool_decide as Herr; [done|].
    exfalso.
    match type of Herr with
    | ?x = NO_ERROR =>
        assert (x ≠ NO_ERROR)
          by (destruct Hbad as [Hb|Hb]; [apply write_err_l | ]; by apply write_err_r);
        done
    end.
  Qed.
End MalformedTrainEvents.

(** X4.  A train event that does not parse is left alone.  When one of the
    fields 1 to 7 or 10 of a [BINARY_PUSH_STATE_CHANGED] event is missing or
    of another type, or its experiment ids do not parse, and when field 1 or
    2 of a [WATCHDOG_ROLLBACK_OCCURRED] event is missing or of another type,
    the handler returns the event as it came, touches no train info and
    makes no call, whatever the permissions of the caller. *)
Theorem train_event_handlers_leave_malformed_events :
  ∀ (M C : Type) (AP : AtomsProto) (env : Env C) (event : LogEvent) (p : State M),
    ((GetString event 1).2 ≠ NO_ERROR ∨ (GetLong event 2).2 ≠ NO_ERROR
     ∨ (GetBool event 3).2 ≠ NO_ERROR ∨ (GetBool event 4).2 ≠ NO_ERROR
     ∨ (GetBool event 5).2 ≠ NO_ERROR ∨ (GetLong event 6).2 ≠ NO_ERROR
     ∨ (GetStorage event 7).2 ≠ NO_ERROR ∨ (GetBool event 10).2 ≠ NO_ERROR
     ∨ ExperimentIds_ParseFromArray env (GetStorage event 7).1 = None →
     onBinaryPushStateChangedEventLocked env event p = (event, p, []))
    ∧ ((GetInt event 1).2 ≠ NO_ERROR ∨ (GetString event 2).2 ≠ NO_ERROR →
       onWatchdogRollbackOccurredLocked env event p = (event, p, [])).
Proof.
  intros M C AP env event p. split.
  - apply onBinaryPushStateChangedEventLocked_malformed.
  - apply onWatchdogRollbackOccurredLocked_malformed.
Qed.

(** A binary-push event of a permitted caller that lacks field 10, and a
    watchdog event whose package name is a number. *)
Lemma train_event_handlers_leave_malformed_events_witness :
  let env := Sample.env 100 true true Sample.no_answer in
  let p := Sample.processor ∅ ∅ in
  let push := Sample.event 102 100 [STRING "train"; LONG 5; INT 0; INT 0; INT 0;
                                    LONG 5; STORAGE []] in
  let watchdog := Sample.event 147 100 [INT 1; INT 7] in
  has_permissions env push = true
  ∧ onBinaryPushStateChangedEventLocked env push p = (push, p, [])
  ∧ onWatchdogRollbackOccurredLocked env watchdog p = (watchdog, p, []).
Proof.
  intros env p push watchdog. split; [reflexivity|].
  destruct (train_event_handlers_leave_malformed_events
              Sample.Manager Sample.Manager Sample.atoms env push p) as [Hpush _].
  destruct (train_event_handlers_leave_malformed_events
              Sample.Manager Sample.Manager Sample.atoms env watchdog p)
    as [_ Hwatchdog].
  split.
  - apply Hpush. do 7 right. left. by vm_compute.
  - apply Hwatchdog. right. by vm_compute.
Defined.

Section ReadOnlyQueries.
  Context {M C : Type} `{!MetricsManager M C}.
  Implicit Types (p : State M) (key : ConfigKey) (m : M) (uid id : Z).

Lemma foldl_push_back_if {A B} (test : A → bool) (item : A → B) (l : list A) :
    ∀ out, foldl (λ out x, if test x then out ++ [item x] else out) out l
           = out ++ omap (λ x, if test x then Some (item x) else None) l.
  Proof.
    induction l as [|x l IH]; intros out; cbn.
    - by rewrite app_nil_r.
    - rewrite IH. destruct (test x); [|done]. by rewrite <- app_assoc.
  Qed.

Lemma foldl_append_some {A B} (items : A → option (list B)) (l : list A) :
    ∀ out, foldl (λ out x, match items x with
                            | Some new => out ++ new
                            | None => out
                            end) out l
           = out ++ concat (omap items l).
  Proof.
    induction l as [|x l IH]; intros out; cbn.
    - by rewrite app_nil_r.
    - rewrite IH. destruct (items x); [|done]. cbn. by rewrite <- app_assoc.
  Qed.

Lemma GetActiveConfigsLocked_elem_of p uid out id :
    id ∈ GetActiveConfigsLocked p uid out ↔
    ∃ m, mMetricsManagers p !! mkConfigKey uid id = Some m ∧ isActive m = true.
  Proof.
    unfold GetActiveConfigsLocked. rewrite foldl_push_back_if. cbn [app].
    rewrite list_elem_of_omap. split.
    - intros ([[u i] m] & Hin & Hsome). cbn in Hsome.
      apply elem_of_map_to_list in Hin.
      destruct (decide (u = uid)) as [->|Hne].
      + rewrite bool_decide_eq_true_2 in Hsome by done. cbn in Hsome.
        destruct (isActive m) eqn:Ha; [|done]. injection Hsome as ->. eauto.
      + by rewrite bool_decide_eq_false_2 in Hsome.
    - intros (m & Hm & Ha). exists (mkConfigKey uid id, m). split.
      + by apply elem_of_map_to_list.
      + cbn. rewrite bool_decide_eq_true_2 by done. by rewrite Ha.
  Qed.

Lemma GetActiveConfigsLocked_NoDup p uid out :
    NoDup (GetActiveConfigsLocked p uid out).
  Proof.
    unfold GetActiveConfigsLocked. rewrite foldl_push_back_if. cbn [app].
    pose proof (NoDup_fst_map_to_list (mMetricsManagers p)) as Hnd.
    induction (map_to_list (mMetricsManagers p)) as [|[[u i] m] l IH]; cbn.
    - constructor.
    - cbn in Hnd. apply NoDup_cons in Hnd as [Hnotin Hnd].
      destruct (bool_decide (u = uid) && isActive m) eqn:Ht; [|by apply IH].
      apply NoDup_cons. split; [|by apply IH].
      intros Hin. apply list_elem_of_omap in Hin as ([[u' i'] m'] & Hin & Hsome).
      cbn in Hsome. destruct (bool_decide (u' = uid) && isActive m') eqn:Ht'; [|done].
      injection Hsome as ->.
      apply andb_true_iff in Ht as [Hu _]. apply andb_true_iff in Ht' as [Hu' _].
      apply bool_decide_eq_true_1 in Hu, Hu'. subst u u'.
      apply Hnotin. apply list_elem_of_fmap. by exists (mkConfigKey uid i, m').
  Qed.
End ReadOnlyQueries.

(** X5.  [GetActiveConfigsLocked(uid, out)] leaves in [out], whatever it
    held, the ids of exactly the configurations of [uid] that are in the map
    with a manager that is active, each id once. *)
Theorem GetActiveConfigsLocked_lists_active_configs_of_uid :
  ∀ (M C : Type) (MM : MetricsManager M C) (p : State M) (uid : Z)
    (outActiveConfigs : list Z),
    (∀ id, id ∈ GetActiveConfigsLocked p uid outActiveConfigs ↔
           ∃ m, mMetricsManagers p !! mkConfigKey uid id = Some m
                ∧ isActive m = true)
    ∧ NoDup (GetActiveConfigsLocked p uid outActiveConfigs)
    ∧ GetActiveConfigsLocked p uid outActiveConfigs = GetActiveConfigsLocked p uid [].
Proof.
  intros M C MM p uid out. split; [|split].
  - intros id. apply GetActiveConfigsLocked_elem_of.
  - apply GetActiveConfigsLocked_NoDup.
  - reflexivity.
Qed.

Section RestrictedKeys.
  Context {M C : Type} `{!MetricsManager M C}.
  Implicit Types (p : State M) (key : ConfigKey) (m : M) (uids : gset Z).

Lemma getRestrictedConfigKeysToQueryLocked_elem_of
      p callingUid configId uids err reason key :
    key ∈ (getRestrictedConfigKeysToQueryLocked p callingUid configId uids
             err reason).1.1 ↔
    GetId key = configId ∧ GetUid key ∈ uids
    ∧ ∃ m, mMetricsManagers p !! key = Some m
           ∧ validateRestrictedMetricsDelegate callingUid m = true.
  Proof.
    unfold getRestrictedConfigKeysToQueryLocked.
    set (matched := list_to_set _ : gset ConfigKey).
    assert (Hmatched : ∀ k, k ∈ matched ↔
              GetId k = configId ∧ GetUid k ∈ uids
              ∧ is_Some (mMetricsManagers p !! k)).
    { intros k. subst matched. rewrite elem_of_list_to_set, list_elem_of_filter,
        list_elem_of_fmap. split.
      - intros (Hsome & uid & -> & Hin). apply elem_of_elements in Hin. done.
      - intros (Hid & Hin & Hsome). split; [done|]. exists (GetUid k).
        split; [destruct k; cbn in *; by subst | by apply elem_of_elements]. }
    assert (Hres : key ∈ matched ∖ filter
                     (λ configKey,
                        match mMetricsManagers p !! configKey with
                        | Some m => negb (validateRestrictedMetricsDelegate callingUid m)
                        | None => false
                        end = true) matched ↔
              GetId key = configId ∧ GetUid key ∈ uids
              ∧ ∃ m, mMetricsManagers p !! key = Some m
                     ∧ validateRestrictedMetricsDelegate callingUid m = true).
    { rewrite elem_of_difference, elem_of_filter, Hmatched. split.
      - intros ((Hid & Hin & [m Hm]) & Hnot). split; [done|]. split; [done|].
        exists m. split; [done|].
        destruct (validateRestrictedMetricsDelegate callingUid m) eqn:Hv; [done|].
        exfalso. apply Hnot. rewrite Hm, Hv. by eauto.
      - intros (Hid & Hin & m & Hm & Hv). split; [eauto|].
        intros [Hx _]. by rewrite Hm, Hv in Hx. }
    repeat case_bool_decide; exact Hres.
  Qed.

Lemma getRestrictedConfigKeysToQueryLocked_errors
      p callingUid configId uids err reason :
    let r := getRestrictedConfigKeysToQueryLocked p callingUid configId uids
               err reason in
    let matches := ∃ key, GetId key = configId ∧ GetUid key ∈ uids
                          ∧ is_Some (mMetricsManagers p !! key) in
    (r.1.1 ≠ ∅ → r.1.2 = err ∧ r.2 = reason)
    ∧ (r.1.1 = ∅ → ¬ matches →
       r.1.2 = "No configs found matching the config key"%string
       ∧ r.2 = CONFIG_KEY_NOT_FOUND)
    ∧ (r.1.1 = ∅ → matches →
       r.1.2 = "No matching configs for restricted metrics delegate"%string
       ∧ r.2 = CONFIG_KEY_WITH_UNMATCHED_DELEGATE).
  Proof.
    intros r matches. subst r matches. unfold getRestrictedConfigKeysToQueryLocked.
    set (matched := list_to_set _ : gset ConfigKey).
    assert (Hmatched : ∀ k, k ∈ matched ↔
              GetId k = configId ∧ GetUid k ∈ uids
              ∧ is_Some (mMetricsManagers p !! k)).
    { intros k. subst matched. rewrite elem_of_list_to_set, list_elem_of_filter,
        list_elem_of_fmap. split.
      - intros (Hsome & uid & -> & Hin). apply elem_of_elements in Hin. done.
      - intros (Hid & Hin & Hsome). split; [done|]. exists (GetUid k).
        split; [destruct k; cbn in *; by subst | by apply elem_of_elements]. }
    case_bool_decide as Hempty; cbn [fst snd].
    - split; [|split].
      + intros Hne. exfalso. apply Hne. rewrite Hempty.
        apply set_eq. intros k. rewrite elem_of_difference. split; [|inversion 1].
        intros [Hk _]. inversion Hk.
      + done.
      + intros _ (key & Hkey). exfalso. apply Hmatched in Hkey.
        rewrite Hempty in Hkey. inversion Hkey.
    - case_bool_decide as Hres; cbn [fst snd].
      + split; [done|]. split; [|done]. intros _ Hno. exfalso. apply Hempty.
        apply set_eq. intros k. split; [|inversion 1]. intros Hk.
        exfalso. apply Hno. exists k. by apply Hmatched.
      + split; [done|]. split; intros He; done.
  Qed.
End RestrictedKeys.

(** X6.  [getRestrictedConfigKeysToQueryLocked] returns the keys with the
    config id asked for and a uid of the package whose manager is in the map
    and validates the calling uid as its restricted-metrics delegate.  It
    writes [err] and [invalidQueryReason] exactly when it returns no key:
    "no configs found" when no key of the package is in the map, "unmatched
    delegate" when there are such keys and none validates the caller. *)
Theorem getRestrictedConfigKeysToQueryLocked_keys_and_errors :
  ∀ (M C : Type) (MM : MetricsManager M C) (p : State M)
    (callingUid configId : Z) (configPackageUids : gset Z)
    (err : string) (invalidQueryReason : InvalidQueryReason),
    let r := getRestrictedConfigKeysToQueryLocked p callingUid configId
               configPackageUids err invalidQueryReason in
    let matches := ∃ key, GetId key = configId ∧ GetUid key ∈ configPackageUids
                          ∧ is_Some (mMetricsManagers p !! key) in
    (∀ key, key ∈ r.1.1 ↔
            GetId key = configId ∧ GetUid key ∈ configPackageUids
            ∧ ∃ m, mMetricsManagers p !! key = Some m
                   ∧ validateRestrictedMetricsDelegate callingUid m = true)
    ∧ (r.1.1 ≠ ∅ → r.1.2 = err ∧ r.2 = invalidQueryReason)
    ∧ (r.1.1 = ∅ → ¬ matches →
       r.1.2 = "No configs found matching the config key"%string
       ∧ r.2 = CONFIG_KEY_NOT_FOUND)
    ∧ (r.1.1 = ∅ → matches →
       r.1.2 = "No matching configs for restricted metrics delegate"%string
       ∧ r.2 = CONFIG_KEY_WITH_UNMATCHED_DELEGATE).
Proof.
  intros M C MM p callingUid configId uids err reason r matches. split.
  - intros key. apply getRestrictedConfigKeysToQueryLocked_elem_of.
  - apply getRestrictedConfigKeysToQueryLocked_errors.
Qed.

Section FillRestrictedMetrics.
  Context {M C : Type} `{!MetricsManager M C}.
  Implicit Types (p : State M) (key : ConfigKey) (m : M).

Lemma foldl_metric_ids p (keys : list ConfigKey) :
    ∀ output,
      foldl (λ output key,
               match mMetricsManagers p !! key with
               | Some m => output ++ getAllMetricIds m
               | None => output
               end) output keys
      = output
        ++ concat (omap (λ key, getAllMetricIds <$> mMetricsManagers p !! key) keys).
  Proof.
    induction keys as [|key keys IH]; intros output; cbn.
    - by rewrite app_nil_r.
    - rewrite IH. destruct (mMetricsManagers p !! key); [|done]. cbn.
      by rewrite <- app_assoc.
  Qed.

Lemma elem_of_concat {A} (x : A) (ls : list (list A)) :
    x ∈ concat ls ↔ ∃ l, x ∈ l ∧ l ∈ ls.
  Proof.
    induction ls as [|l ls IH]; cbn.
    - split; [inversion 1 | intros (? & _ & Hl); inversion Hl].
    - rewrite elem_of_app, IH. split.
      + intros [Hx | (l' & Hx & Hl')]; [exists l | exists l'];
          (split; [done|]); [by left | by right].
      + intros (l' & Hx & Hl'). apply elem_of_cons in Hl' as [-> | Hl']; eauto.
  Qed.
End FillRestrictedMetrics.

(** X7.  [fillRestrictedMetrics] keeps what [output] holds and appends to it
    the metric ids of the managers whose key has the config id asked for and
    a uid of the package (the uid of the table of AIDs when the package is
    listed there, the uids of the uid map otherwise) and that validate
    [delegateUid] as their restricted-metrics delegate, and nothing else:
    without such a manager [output] is left as it was. *)
Theorem fillRestrictedMetrics_appends_ids_of_validated_configs :
  ∀ (M C : Type) (MM : MetricsManager M C) (env : Env C) (p : State M)
    (configId : Z) (configPackage : string) (delegateUid : Z)
    (indeterminate : InvalidQueryReason) (output : list Z),
    let configPackageUids : gset Z :=
      match sAidToUidMapping env configPackage with
      | Some uid => {[uid]}
      | None => getAppUid env configPackage
      end in
    ∃ added,
      fillRestrictedMetrics env p configId configPackage delegateUid
        indeterminate output = output ++ added
      ∧ ∀ id, id ∈ added ↔
              ∃ key m, GetId key = configId ∧ GetUid key ∈ configPackageUids
                       ∧ mMetricsManagers p !! key = Some m
                       ∧ validateRestrictedMetricsDelegate delegateUid m = true
                       ∧ id ∈ getAllMetricIds m.
Proof.
  intros M C MM env p configId pkg delegateUid ind output uids.
  unfold fillRestrictedMetrics. fold uids.
  pose proof (getRestrictedConfigKeysToQueryLocked_elem_of p delegateUid configId
                uids EmptyString ind) as Hkeys.
  destruct (getRestrictedConfigKeysToQueryLocked p delegateUid configId uids
              EmptyString ind) as [[keys e] r].
  cbn [fst snd] in Hkeys. rewrite foldl_metric_ids. eexists. split; [reflexivity|].
  intros id. rewrite elem_of_concat. split.
  - intros (ids & Hid & Hids). apply list_elem_of_omap in Hids as (key & Hkey & Hsome).
    apply elem_of_elements, Hkeys in Hkey as (Hc & Hu & m & Hm & Hv).
    rewrite Hm in Hsome. injection Hsome as <-. by exists key, m.
  - intros (key & m & Hc & Hu & Hm & Hv & Hid). exists (getAllMetricIds m).
    split; [done|]. apply list_elem_of_omap. exists key. split.
    + apply elem_of_elements, Hkeys. eauto.
    + by rewrite Hm.
Qed.

Section QueryCauses.
  Context {M C : Type} `{!MetricsManager M C}.
  Implicit Types (p : State M) (env : Env C) (log : list Effect) (key : ConfigKey).

Lemma flattenRows_None rows columns acc :
    Exists (λ row, length row ≠ columns) rows →
    flattenRows rows columns acc = None.
  Proof.
    intros Hex. revert acc. induction Hex as [row rows Hrow | row rows _ IH];
      intros acc; cbn [flattenRows].
    - by rewrite bool_decide_eq_true_2.
    - case_bool_decide; [done | apply IH].
  Qed.

Lemma flattenRows_Some rows columns acc :
    Forall (λ row, length row = columns) rows →
    ∃ data, flattenRows rows columns acc = Some data.
  Proof.
    intros Hall. revert acc. induction Hall as [|row rows Hrow _ IH];
      intros acc; cbn [flattenRows]; [by eexists|].
    rewrite bool_decide_eq_false_2 by (intros Hne; by apply Hne). apply IH.
  Qed.

  (** What [querySql] shows on a device that runs U or later with a
      supported sqlite version, by the keys selected and the answer of the
      database. *)
Lemma querySql_observations env sql minV configId pkg callingUid ind p :
    isAtLeastU env = true → minV ≤ getDbVersion env →
    let uids : gset Z :=
      match sAidToUidMapping env pkg with
      | Some uid => {[uid]}
      | None => getAppUid env pkg
      end in
    let sel := getRestrictedConfigKeysToQueryLocked p callingUid configId uids
                 EmptyString ind in
    query_observations
      (effects (querySql env sql minV configId pkg callingUid ind p))
    = match elements sel.1.1 with
      | [] => [sendFailure_called sel.1.2; failure_noted sel.2]
      | [key] =>
          let answer := query env key sql in
          if query_ok answer then
            (if bool_decide (length (query_columnNames answer)
                             ≠ length (query_columnTypes answer))
             then [sendFailure_called "Inconsistent row sizes";
                   failure_noted INCONSISTENT_ROW_SIZE]
             else [])
            ++ match flattenRows (query_rows answer)
                       (length (query_columnNames answer)) [] with
               | None => [sendFailure_called "Inconsistent row sizes";
                          failure_noted INCONSISTENT_ROW_SIZE]
               | Some _ => [sendResults_called; success_noted]
               end
          else [sendFailure_called
                  ("failed to query db " +:+ query_err answer +:+ ":");
                failure_noted QUERY_FAILURE]
      | _ :: _ :: _ => [sendFailure_called "Ambiguous ConfigKey";
                        failure_noted AMBIGUOUS_CONFIG_KEY]
      end.
  Proof.
    intros HU Hver uids sel.
    match goal with
    | |- _ = ?rhs =>
        change (wp (querySql env sql minV configId pkg callingUid ind)
                  (λ _ _ es, query_observations es = rhs) p)
    end.
    unfold querySql. rewrite HU. cbn [negb].
    rewrite bool_decide_eq_false_2 by lia.
    wp_step. wp_step. fold uids. fold sel.
    destruct sel as [[keys err] reason]. cbn [fst snd].
    destruct (elements keys) as [|key [|key2 rest]] eqn:Hel.
    - wp_step. wp_step. wp_step. reflexivity.
    - wp_step.
      apply (wp_frames (λ _, tt) query_silent);
        [apply flushRestrictedDataLocked_silent | intros _ s1 es1 _ Hes1].
      wp_step.
      apply (wp_frames (λ _, tt) query_silent);
        [apply enforceDataTtlsLocked_silent | intros _ s2 es2 _ Hes2].
      wp_step. wp_step. cbn zeta.
      destruct (query_ok (query env key sql)) eqn:Hok; cbn [negb].
      + wp_step. case_bool_decide as Hcols.
        * repeat wp_step.
          destruct (flattenRows _ _ _) as [data|] eqn:Hflat;
            repeat wp_step;
            rewrite !query_observations_app, (query_observations_silent es1 Hes1),
              (query_observations_silent es2 Hes2); reflexivity.
        * change (when false ?m) with (mret tt : Proc (State M) unit).
          repeat wp_step.
          destruct (flattenRows _ _ _) as [data|] eqn:Hflat;
            repeat wp_step;
            rewrite !query_observations_app, (query_observations_silent es1 Hes1),
              (query_observations_silent es2 Hes2); reflexivity.
      + wp_step. wp_step. wp_step.
        rewrite !query_observations_app, (query_observations_silent es1 Hes1),
          (query_observations_silent es2 Hes2). reflexivity.
    - wp_step. wp_step. wp_step. reflexivity.
  Qed.

Lemma querySql_unsupported_version env sql minV configId pkg callingUid ind p :
    isAtLeastU env = true → getDbVersion env < minV →
    query_observations
      (effects (querySql env sql minV configId pkg callingUid ind p))
    = [sendFailure_called
         ("Unsupported sqlite version. Installed Version: "
          +:+ pretty (getDbVersion env) +:+ ", Requested Version: "
          +:+ pretty minV +:+ ".");
       failure_noted UNSUPPORTED_SQLITE_VERSION].
  Proof.
    intros HU Hver. unfold querySql. rewrite HU. cbn [negb].
    rewrite bool_decide_eq_true_2 by lia. reflexivity.
  Qed.
End QueryCauses.

(** C3, as the code has it, cause by cause.  [querySql] shows its caller
    and the statistics exactly this.  Device older than U (flag disabled):
    the failure is noted with [FLAG_DISABLED] and the callback is not
    invoked.  From U on: an unsupported sqlite version, no configuration
    with the id and a uid of the package, no such configuration that
    accepts the calling delegate, more than one such configuration, a
    query that the database fails, and a row that has not as many cells as
    there are column names each give one [sendFailure] with the text of
    that cause, the failure noted with its reason, and no [sendResults];
    a query that the database answers with rows of the right size gives
    one [sendResults], the success noted, and no [sendFailure] -- except
    that an answer whose column names and column types differ in number
    first gives a [sendFailure] of inconsistent row sizes and then goes on
    to the rows. *)
Theorem querySql_outcome_by_cause :
  ∀ (M C : Type) (MM : MetricsManager M C) (env : Env C)
    (sqlQuery : string) (minSqlClientVersion configId : Z)
    (configPackage : string) (callingUid : Z) (indeterminate : InvalidQueryReason)
    (p : State M),
    let obs :=
      query_observations
        (effects (querySql env sqlQuery minSqlClientVersion configId configPackage
                    callingUid indeterminate p)) in
    let failure text reason := obs = [sendFailure_called text; failure_noted reason] in
    let configPackageUids : gset Z :=
      match sAidToUidMapping env configPackage with
      | Some uid => {[uid]}
      | None => getAppUid env configPackage
      end in
    let matched := ∃ key, GetId key = configId ∧ GetUid key ∈ configPackageUids
                          ∧ is_Some (mMetricsManagers p !! key) in
    let candidate key :=
      GetId key = configId ∧ GetUid key ∈ configPackageUids
      ∧ ∃ m, mMetricsManagers p !! key = Some m
             ∧ validateRestrictedMetricsDelegate callingUid m = true in
    (isAtLeastU env = false → obs = [failure_noted FLAG_DISABLED])
    ∧ (isAtLeastU env = true → getDbVersion env < minSqlClientVersion →
       failure ("Unsupported sqlite version. Installed Version: "
                +:+ pretty (getDbVersion env) +:+ ", Requested Version: "
                +:+ pretty minSqlClientVersion +:+ ".")
               UNSUPPORTED_SQLITE_VERSION)
    ∧ (isAtLeastU env = true → minSqlClientVersion ≤ getDbVersion env →
       (¬ matched →
        failure "No configs found matching the config key" CONFIG_KEY_NOT_FOUND)
       ∧ (matched → (∀ key, ¬ candidate key) →
          failure "No matching configs for restricted metrics delegate"
                  CONFIG_KEY_WITH_UNMATCHED_DELEGATE)
       ∧ (∀ key1 key2, candidate key1 → candidate key2 → key1 ≠ key2 →
          failure "Ambiguous ConfigKey" AMBIGUOUS_CONFIG_KEY)
       ∧ (∀ key, candidate key → (∀ key', candidate key' → key' = key) →
          let answer := query env key sqlQuery in
          let columns := length (query_columnNames answer) in
          let mismatch :=
            if bool_decide (columns ≠ length (query_columnTypes answer))
            then [sendFailure_called "Inconsistent row sizes";
                  failure_noted INCONSISTENT_ROW_SIZE]
            else [] in
          (query_ok answer = false →
           failure ("failed to query db " +:+ query_err answer +:+ ":")
                   QUERY_FAILURE)
          ∧ (query_ok answer = true →
             Exists (λ row, length row ≠ columns) (query_rows answer) →
             obs = mismatch ++ [sendFailure_called "Inconsistent row sizes";
                                failure_noted INCONSISTENT_ROW_SIZE])
          ∧ (query_ok answer = true →
             Forall (λ row, length row = columns) (query_rows answer) →
             obs = mismatch ++ [sendResults_called; success_noted]))).
Proof.
  intros M C MM env sql minV configId pkg uid ind p obs failure uids matched
    candidate.
  set (sel := getRestrictedConfigKeysToQueryLocked p uid configId uids
                EmptyString ind).
  assert (Hcand : ∀ key, key ∈ sel.1.1 ↔ candidate key).
  { intros key. apply getRestrictedConfigKeysToQueryLocked_elem_of. }
  destruct (getRestrictedConfigKeysToQueryLocked_errors p uid configId uids
              EmptyString ind) as (_ & Hnone & Hdelegate).
  fold sel in Hnone, Hdelegate. fold matched in Hnone, Hdelegate.
  assert (Hempty : (∀ key, ¬ candidate key) → sel.1.1 = ∅ ∧ elements sel.1.1 = []).
  { intros Hno. assert (He : sel.1.1 = ∅).
    { apply set_eq. intros key. rewrite Hcand. split; [by intros ?%Hno | inversion 1]. }
    split; [done|]. rewrite He. apply elements_empty. }
  split; [|split].
  - intros HU. subst obs. by rewrite querySql_flag_disabled.
  - intros HU Hver. by apply querySql_unsupported_version.
  - intros HU Hver.
    pose proof (querySql_observations env sql minV configId pkg uid ind p HU Hver)
      as Hobs. cbn zeta in Hobs. fold uids in Hobs. fold sel in Hobs.
    fold obs in Hobs.
    split; [|split; [|split]].
    + intros Hnm.
      assert (Hno : ∀ key, ¬ candidate key).
      { intros key (Hid & Huid & m & Hm & _). apply Hnm. exists key. eauto. }
      destruct (Hempty Hno) as [He Hel]. destruct (Hnone He Hnm) as [Herr Hreason].
      unfold failure. by rewrite Hobs, Hel, Herr, Hreason.
    + intros Hm Hno.
      destruct (Hempty Hno) as [He Hel]. destruct (Hdelegate He Hm) as [Herr Hreason].
      unfold failure. by rewrite Hobs, Hel, Herr, Hreason.
    + intros key1 key2 H1 H2 Hne. unfold failure. rewrite Hobs.
      apply Hcand, elem_of_elements in H1. apply Hcand, elem_of_elements in H2.
      destruct (elements sel.1.1) as [|k [|k' rest]]; [inversion H1| |done].
      apply list_elem_of_singleton in H1, H2. congruence.
    + intros key Hkey Honly answer columns mismatch.
      assert (Hel : elements sel.1.1 = [key]).
      { assert (He : sel.1.1 = {[key]}).
        { apply set_eq. intros k. rewrite Hcand, elem_of_singleton. split.
          - apply Honly.
          - by intros ->. }
        rewrite He. apply elements_singleton. }
      rewrite Hel in Hobs. cbn zeta in Hobs.
      fold answer in Hobs. fold columns in Hobs. fold mismatch in Hobs.
      split; [|split].
      * intros Hok. unfold failure. by rewrite Hobs, Hok.
      * intros Hok Hex. rewrite Hobs, Hok.
        by rewrite (flattenRows_None _ _ [] Hex).
      * intros Hok Hall. rewrite Hobs, Hok.
        by destruct (flattenRows_Some (query_rows answer) columns [] Hall) as [data ->].
Qed.

(** One configuration of uid 1000 and a query that the database answers
    with one row of the right size: one [sendResults], no [sendFailure]. *)
Lemma querySql_outcome_by_cause_witness :
  query_observations
    (effects (querySql (Sample.env 100 true true sample_answer) "SELECT 1" 1 1
                "package" 1000 UNKNOWN_REASON sample_query_processor))
  = [sendResults_called; success_noted].
Proof.
  destruct (querySql_outcome_by_cause
              Sample.Manager Sample.Manager Sample.manager
              (Sample.env 100 true true sample_answer) "SELECT 1" 1 1
              "package" 1000 UNKNOWN_REASON sample_query_processor)
    as (_ & _ & H).
  assert (Hv : 1 ≤ getDbVersion (Sample.env 100 true true sample_answer))
    by (cbn; lia).
  destruct (H eq_refl Hv) as (_ & _ & _ & Hone).
  destruct (Hone Sample.key1) as (_ & _ & Hok).
  - split; [done|]. split.
    + change ((1000 : Z) ∈ ({[1000]} : gset Z)). by apply elem_of_singleton.
    + exists Sample.growing. split; [by vm_compute | done].
  - intros [u i] (Hid & Huid & _). cbn [GetId GetUid] in Hid, Huid.
    change (u ∈ ({[1000]} : gset Z)) in Huid.
    apply elem_of_singleton in Huid. by subst.
  - apply Hok; [done|]. repeat constructor.
Defined.

Section UidMapping.
  Context {M C : Type}.
  Implicit Types (p : State M) (event : LogEvent) (fv : FieldValue).

Lemma mapIsolatedUidToHostUidIfNecessaryLocked_chain event first second p :
    mAttributionChainIndexRange event = Some (first, second) →
    mapIsolatedUidToHostUidIfNecessaryLocked event p
    = (with_values event
         (imap (λ i fv,
                  if bool_decide (first ≤ i ≤ second)%nat && isAttributionUidField fv
                  then mapUidValue (mIsolatedUidMap p) fv else fv)
               (mValues event)), p, []).
  Proof.
    intros Hchain. unfold mapIsolatedUidToHostUidIfNecessaryLocked. run_proc.
    by rewrite Hchain.
  Qed.

Lemma mapUidValue_empty fv : mapUidValue ∅ fv = fv.
  Proof.
    unfold mapUidValue. destruct fv as [v u a]. cbn.
    destruct v; try done; unfold getHostUidOrSelf; by rewrite lookup_empty.
  Qed.
End UidMapping.

(** X8.  For an event with an attribution chain at the indices [first] to
    [second] of its values (indices that the event has),
    [mapIsolatedUidToHostUidIfNecessaryLocked] replaces the integer of every
    attribution-uid field of the chain by its host uid (itself when the uid
    is not isolated) and leaves every other value, the number of values, the
    tag, the origin of the event, the processor and the log as they are;
    with no isolated uid on record the event is unchanged. *)
Theorem mapIsolatedUidToHostUidIfNecessaryLocked_maps_chain_uids_only :
  ∀ (M : Type) (event : LogEvent) (first second : nat) (p : State M),
    mAttributionChainIndexRange event = Some (first, second) →
    (second < length (mValues event))%nat →
    let r := mapIsolatedUidToHostUidIfNecessaryLocked event p in
    state_of r = p ∧ effects r = []
    ∧ mTagId (result r) = mTagId event ∧ mLogUid (result r) = mLogUid event
    ∧ mLogPid (result r) = mLogPid event
    ∧ length (mValues (result r)) = length (mValues event)
    ∧ (∀ i fv uid,
         mValues event !! i = Some fv → (first ≤ i ≤ second)%nat →
         isAttributionUidField fv = true → mValue fv = INT uid →
         mValues (result r) !! i
         = Some (with_mValue fv (INT (getHostUidOrSelf (mIsolatedUidMap p) uid))))
    ∧ (∀ i fv,
         mValues event !! i = Some fv →
         ¬ ((first ≤ i ≤ second)%nat ∧ isAttributionUidField fv = true) →
         mValues (result r) !! i = Some fv)
    ∧ (mIsolatedUidMap p = ∅ → result r = event).
Proof.
  intros M event first second p Hchain Hin r. subst r.
  rewrite (mapIsolatedUidToHostUidIfNecessaryLocked_chain event first second p Hchain).
  cbn [result state_of effects fst snd].
  split; [done|]. split; [done|]. split; [done|]. split; [done|]. split; [done|].
  split; [cbn; by rewrite length_imap|]. split; [|split].
  - intros i fv uid Hi Hrange Hattr Hint. cbn. rewrite list_lookup_imap, Hi. cbn.
    rewrite bool_decide_eq_true_2, Hattr by done. cbn.
    unfold mapUidValue. by rewrite Hint.
  - intros i fv Hi Hnot. cbn. rewrite list_lookup_imap, Hi. cbn.
    destruct (bool_decide (first ≤ i ≤ second)%nat) eqn:Hr; [|done].
    destruct (isAttributionUidField fv) eqn:Ha; [|done].
    exfalso. apply Hnot. split; [by apply bool_decide_eq_true_1 in Hr | done].
  - intros Hempty. rewrite Hempty.
    assert (Hid : imap (λ i fv,
                          if bool_decide (first ≤ i ≤ second)%nat
                             && isAttributionUidField fv
                          then mapUidValue ∅ fv else fv) (mValues event)
                  = mValues event).
    { apply list_eq. intros i. rewrite list_lookup_imap.
      destruct (mValues event !! i) as [fv|]; [|done]. cbn.
      destruct (_ && _); [by rewrite mapUidValue_empty | done]. }
    rewrite Hid. by destruct event.
Qed.

(** An event whose values 1 and 2 form the attribution chain, logged when
    the isolated uid 99001 belongs to the host uid 10007. *)
Lemma mapIsolatedUidToHostUidIfNecessaryLocked_maps_chain_uids_only_witness :
  let node := mkFieldValue (INT 99001) false true in
  let tag := mkFieldValue (STRING "tag") false false in
  let other := mkFieldValue (INT 99001) false false in
  let event := mkLogEvent 10 100 1000 1 true false false [other; node; tag] (Some (1, 2))%nat in
  let p := set_mIsolatedUidMap (λ _, {[99001 := 10007]}) (Sample.processor ∅ ∅) in
  mValues (result (mapIsolatedUidToHostUidIfNecessaryLocked event p))
  = [other; mkFieldValue (INT 10007) false true; tag].
Proof.
  intros node tag other event p.
  destruct (mapIsolatedUidToHostUidIfNecessaryLocked_maps_chain_uids_only
              Sample.Manager event 1%nat 2%nat p eq_refl)
    as (_ & _ & _ & _ & _ & Hlen & Hin & Hout & _); [cbn; lia|].
  apply list_eq. intros [|[|[|i]]].
  - apply (Hout 0%nat other); [done|]. intros [? _]. lia.
  - rewrite (Hin 1%nat node 99001); [done|done|lia|done|done].
  - apply (Hout 2%nat tag); [done|]. intros [_ ?]. done.
  - transitivity (@None FieldValue); [|done].
    apply lookup_ge_None_2. rewrite Hlen. cbn. lia.
Defined.

(** X9.  [onIsolatedUidChangedEventLocked] changes the table of isolated
    uids and nothing else, and makes no call.  When the three fields parse,
    the isolated uid (field 2, as an [int]) resolves afterwards to the
    parent uid (field 1, as an [int]) if the event is a creation (field 3)
    and to itself if it is a removal, and every other uid resolves as
    before; when a field does not parse nothing changes. *)
Theorem onIsolatedUidChangedEventLocked_updates_one_uid :
  ∀ (M : Type) (event : LogEvent) (p : State M),
    let r := onIsolatedUidChangedEventLocked event p in
    let is_create := (GetBool event 3).1 in
    let parent_uid := to_int32 (GetLong event 1).1 in
    let isolated_uid := to_int32 (GetLong event 2).1 in
    effects r = []
    ∧ set_mIsolatedUidMap (λ _, mIsolatedUidMap p) (state_of r) = p
    ∧ (if bool_decide ((GetBool event 3).2 = NO_ERROR
                       ∧ (GetLong event 1).2 = NO_ERROR
                       ∧ (GetLong event 2).2 = NO_ERROR)
       then ∀ uid,
              getHostUidOrSelf (mIsolatedUidMap (state_of r)) uid
              = if bool_decide (uid = isolated_uid)
                then (if is_create then parent_uid else isolated_uid)
                else getHostUidOrSelf (mIsolatedUidMap p) uid
       else state_of r = p).
Proof.
  intros M event p r is_create parent_uid isolated_uid.
  subst r is_create parent_uid isolated_uid.
  unfold onIsolatedUidChangedEventLocked.
  destruct (GetBool event 3) as [is_create err], (GetLong event 1) as [parent err2],
    (GetLong event 2) as [isolated err3]. cbn [fst snd].
  case_bool_decide as Hok; [|by destruct p].
  destruct is_create; cbn [modify result state_of effects fst snd];
    (split; [done|]); (split; [by destruct p|]); intros uid;
    unfold getHostUidOrSelf; destruct p; cbn; case_bool_decide as Hu.
  - subst uid. by rewrite lookup_insert_eq.
  - by rewrite lookup_insert_ne.
  - subst uid. by rewrite lookup_delete_eq.
  - by rewrite lookup_delete_ne.
Qed.

Section ConfigRemoval.
  Context {M C : Type} `{!MetricsManager M C} `{!StatsdStats} `{!AtomsProto}.
  Implicit Types (p s : State M) (env : Env C) (key k : ConfigKey) (m : M).

Lemma WriteDataToDiskLocked_key_keeps env key ts wall reason latency :
    frames (λ s : State M, (delete key (mMetricsManagers s), pacing s)) (λ _, True)
           (WriteDataToDiskLocked_key env key ts wall reason latency).
  Proof.
    unfold WriteDataToDiskLocked_key, onConfigMetricsReportLocked, setManager.
    frames_auto; intros []; cbn; by rewrite ?delete_insert_eq.
  Qed.

  (** The processor after [OnConfigRemoved], member by member. *)
Lemma OnConfigRemoved_state env key p :
    let s := state_of (OnConfigRemoved env key p) in
    mMetricsManagers s = delete key (mMetricsManagers p)
    ∧ mLastBroadcastTimes s = delete key (mLastBroadcastTimes p)
    ∧ mLastByteSizeTimes s = delete key (mLastByteSizeTimes p)
    ∧ mLastActivationBroadcastTimes s
      = if forallb (λ k, negb (bool_decide (GetUid k = GetUid key)))
                   (map_to_list (delete key (mMetricsManagers p))).*1
        then delete (GetUid key) (mLastActivationBroadcastTimes p)
        else mLastActivationBroadcastTimes p.
  Proof.
    change (wp (OnConfigRemoved env key)
              (λ _ s _,
                 mMetricsManagers s = delete key (mMetricsManagers p)
                 ∧ mLastBroadcastTimes s = delete key (mLastBroadcastTimes p)
                 ∧ mLastByteSizeTimes s = delete key (mLastByteSizeTimes p)
                 ∧ mLastActivationBroadcastTimes s
                   = if forallb (λ k, negb (bool_decide (GetUid k = GetUid key)))
                                (map_to_list (delete key (mMetricsManagers p))).*1
                     then delete (GetUid key) (mLastActivationBroadcastTimes p)
                     else mLastActivationBroadcastTimes p) p).
    unfold OnConfigRemoved. wp_step. wp_step. apply wp_bind.
    apply (wp_conseq _ (λ _ s1 _, mMetricsManagers s1 = delete key (mMetricsManagers p)
                                  ∧ pacing s1 = pacing p)).
    - destruct (mMetricsManagers p !! key) as [m|] eqn:Hm.
      + apply wp_bind.
        eapply wp_frames; [apply WriteDataToDiskLocked_key_keeps|].
        intros _ s' _ [= Hman Hb Ha Hbs] _. cbn beta.
        wp_step. wp_step. apply wp_bind.
        apply (wp_conseq _ (λ _ s2 _, s2 = s')).
        { destruct (mMetricsManagers s' !! key); [|by apply wp_ret].
          apply wp_log_only; [solve [frames_auto]|done]. }
        intros _ s2 _ ->. cbn beta. wp_step. wp_step. wp_step.
        split; [by rewrite mMetricsManagers_set|].
        unfold pacing. destruct s'; cbn in *. by subst.
      + apply wp_ret. split; [by rewrite delete_id|done].
    - intros _ s1 _ [Hman [= Hb Ha Hbs]]. cbn beta.
      do 8 wp_step. apply wp_bind.
      unfold managerKeys.
      assert (Hkeys : mMetricsManagers
                        (set_mLastByteSizeTimes (delete key)
                           (set_mLastBroadcastTimes (delete key) s1))
                      = delete key (mMetricsManagers p))
        by (destruct s1; cbn in *; done).
      rewrite Hkeys.
      destruct (forallb _ _); cbn [when].
      + wp_step. wp_state. destruct s1; cbn in *. by subst.
      + wp_step. wp_state. destruct s1; cbn in *. by subst.
  Qed.
End ConfigRemoval.

Section ConfigRemovalWords.
  Context {M : Type}.
  Implicit Types (managers : gmap ConfigKey M) (key k : ConfigKey).

Lemma elem_of_other_keys managers key k :
    k ∈ (map_to_list (delete key managers)).*1 ↔
    k ≠ key ∧ is_Some (managers !! k).
  Proof.
    rewrite list_elem_of_fmap. split.
    - intros ([k' m] & -> & Hin). apply elem_of_map_to_list in Hin.
      apply lookup_delete_Some in Hin as [Hne Hm]. eauto.
    - intros (Hne & m & Hm). exists (k, m). split; [done|].
      apply elem_of_map_to_list, lookup_delete_Some. eauto.
  Qed.

Lemma last_config_for_uid managers key :
    forallb (λ k, negb (bool_decide (GetUid k = GetUid key)))
            (map_to_list (delete key managers)).*1 = true
    ↔ ∀ k, k ≠ key → is_Some (managers !! k) → GetUid k ≠ GetUid key.
  Proof.
    rewrite forallb_forall. split.
    - intros Hall k Hne Hk.
      assert (Hin : k ∈ (map_to_list (delete key managers)).*1)
        by (by apply elem_of_other_keys).
      apply list_elem_of_In, Hall, negb_true_iff, bool_decide_eq_false_1 in Hin.
      done.
    - intros Hall k Hin. apply list_elem_of_In, elem_of_other_keys in Hin as [Hne Hk].
      apply negb_true_iff, bool_decide_eq_false_2. by apply Hall.
  Qed.
End ConfigRemovalWords.

(** X10.  After [OnConfigRemoved(key)] the map holds no manager for the key
    and the managers of all other keys as before; the times of the last
    data-ready broadcast and of the last byte-size check of the key are
    forgotten, those of other keys kept; and the time of the last activation
    broadcast to the uid of the key is forgotten exactly when no other
    configuration of that uid is left in the map. *)
Theorem OnConfigRemoved_forgets_key_and_its_pacing :
  ∀ (M C : Type) (MM : MetricsManager M C) (SS : StatsdStats) (AP : AtomsProto)
    (env : Env C) (key : ConfigKey) (p : State M),
    let s := state_of (OnConfigRemoved env key p) in
    mMetricsManagers s = delete key (mMetricsManagers p)
    ∧ mLastBroadcastTimes s = delete key (mLastBroadcastTimes p)
    ∧ mLastByteSizeTimes s = delete key (mLastByteSizeTimes p)
    ∧ ((∀ k, k ≠ key → is_Some (mMetricsManagers p !! k) →
             GetUid k ≠ GetUid key) →
       mLastActivationBroadcastTimes s
       = delete (GetUid key) (mLastActivationBroadcastTimes p))
    ∧ ((∃ k, k ≠ key ∧ is_Some (mMetricsManagers p !! k)
             ∧ GetUid k = GetUid key) →
       mLastActivationBroadcastTimes s = mLastActivationBroadcastTimes p).
Proof.
  intros M C MM SS AP env key p s. subst s.
  destruct (OnConfigRemoved_state env key p) as (Hm & Hb & Hs & Ha).
  split; [done|]. split; [done|]. split; [done|]. split.
  - intros Hlast. apply last_config_for_uid in Hlast. by rewrite Hlast in Ha.
  - intros (k & Hne & Hk & Hu).
    destruct (forallb _ _) eqn:Hall; [|done].
    exfalso. by eapply (proj1 (last_config_for_uid _ _) Hall k).
Qed.

(** Two configurations of uid 1000 and one of uid 2000, with broadcast times
    on record: removing the first keeps the activation time of uid 1000. *)
Lemma OnConfigRemoved_forgets_key_and_its_pacing_witness :
  let key2 := mkConfigKey 1000 2 in
  let p := set_mLastActivationBroadcastTimes (λ _, {[1000 := 5]})
             (set_mLastBroadcastTimes (λ _, {[Sample.key1 := 7]})
                (Sample.processor {[Sample.key1 := Sample.growing;
                                    key2 := Sample.growing]} ∅)) in
  let s := state_of (OnConfigRemoved (Sample.env 100 true true Sample.no_answer)
                       Sample.key1 p) in
  mMetricsManagers s !! Sample.key1 = None
  ∧ mLastBroadcastTimes s !! Sample.key1 = None
  ∧ mLastActivationBroadcastTimes s !! 1000 = Some 5.
Proof.
  intros key2 p s.
  destruct (OnConfigRemoved_forgets_key_and_its_pacing
              Sample.Manager Sample.Manager Sample.manager Sample.constants
              Sample.atoms (Sample.env 100 true true Sample.no_answer)
              Sample.key1 p) as (Hm & Hb & _ & _ & Ha).
  fold s in Hm, Hb, Ha. rewrite Hm, Hb, Ha.
  - split; [apply lookup_delete_eq|]. split; [apply lookup_delete_eq | done].
  - exists key2. split; [done|]. split; [|done]. by vm_compute; eauto.
Defined.


Section DiskWrites.
  Context {M C : Type} `{!MetricsManager M C} `{!StatsdStats}.
  Implicit Types (p s : State M) (env : Env C) (key k : ConfigKey) (m : M).

Lemma WriteDataToDiskLocked_skips env reason latency elapsed wall p :
    to_uint64 elapsed
    < to_uint64 (mLastWriteTimeNs p + WRITE_DATA_COOL_DOWN_SEC * NS_PER_SEC) →
    WriteDataToDiskLocked env reason latency elapsed wall p = (tt, p, []).
  Proof.
    intros Hcool. unfold WriteDataToDiskLocked. run_proc.
    by rewrite bool_decide_eq_true_2.
  Qed.

Lemma WriteDataToDiskLocked_key_lastWrite env key ts wall reason latency :
    frames (λ s : State M, mLastWriteTimeNs s) (λ _, True)
           (WriteDataToDiskLocked_key env key ts wall reason latency).
  Proof.
    unfold WriteDataToDiskLocked_key, onConfigMetricsReportLocked, setManager.
    frames_auto; intros []; reflexivity.
  Qed.

Lemma WriteDataToDiskLocked_writes env reason latency elapsed wall p :
    ¬ (to_uint64 elapsed
       < to_uint64 (mLastWriteTimeNs p + WRITE_DATA_COOL_DOWN_SEC * NS_PER_SEC)) →
    mLastWriteTimeNs
      (state_of (WriteDataToDiskLocked env reason latency elapsed wall p))
    = elapsed.
  Proof.
    intros Hcool.
    change (wp (WriteDataToDiskLocked env reason latency elapsed wall)
              (λ _ s _, mLastWriteTimeNs s = elapsed) p).
    unfold WriteDataToDiskLocked. wp_step. wp_step.
    rewrite bool_decide_eq_false_2 by done. wp_step. wp_step.
    eapply wp_frames.
    - apply frames_forM_. intros k. apply WriteDataToDiskLocked_key_lastWrite.
    - intros _ s' _ Hs _. rewrite Hs. by destruct p.
  Qed.
End DiskWrites.

(** X12.  The cool-down of [WriteDataToDiskLocked].  A call whose elapsed
    time, read as unsigned, is below the time of the last write plus 15 s
    does nothing at all; any other call records its elapsed time as the time
    of the last write.  So a call that follows a write, at a time from that
    of the write up to 15 s after it, does nothing; and with no write on
    record, calls in the first 15 s of elapsed time do nothing. *)
Theorem WriteDataToDiskLocked_cool_down :
  ∀ (M C : Type) (MM : MetricsManager M C) (env : Env C)
    (reason : DumpReportReason) (latency : DumpLatency)
    (elapsedRealtimeNs wallClockNs : Z) (p : State M),
    let r := WriteDataToDiskLocked env reason latency elapsedRealtimeNs
               wallClockNs p in
    let cools := to_uint64 elapsedRealtimeNs
                 < to_uint64 (mLastWriteTimeNs p
                              + WRITE_DATA_COOL_DOWN_SEC * NS_PER_SEC) in
    (cools → r = (tt, p, []))
    ∧ (¬ cools → mLastWriteTimeNs (state_of r) = elapsedRealtimeNs)
    ∧ (¬ cools → 0 ≤ elapsedRealtimeNs →
       elapsedRealtimeNs + WRITE_DATA_COOL_DOWN_SEC * NS_PER_SEC < 2 ^ 64 →
       ∀ env' reason' latency' elapsed' wall',
         elapsedRealtimeNs ≤ elapsed'
         < elapsedRealtimeNs + WRITE_DATA_COOL_DOWN_SEC * NS_PER_SEC →
         WriteDataToDiskLocked env' reason' latency' elapsed' wall' (state_of r)
         = (tt, state_of r, []))
    ∧ (mLastWriteTimeNs p = 0 →
       0 ≤ elapsedRealtimeNs < WRITE_DATA_COOL_DOWN_SEC * NS_PER_SEC →
       r = (tt, p, [])).
Proof.
  intros M C MM env reason latency elapsed wall p r cools. subst r cools.
  split; [apply WriteDataToDiskLocked_skips|]. split;
    [apply WriteDataToDiskLocked_writes|]. split.
  - intros Hcool Hpos Hmax env' reason' latency' elapsed' wall' Hin.
    apply WriteDataToDiskLocked_skips.
    rewrite (WriteDataToDiskLocked_writes env reason latency elapsed wall p Hcool).
    unfold to_uint64, WRITE_DATA_COOL_DOWN_SEC, NS_PER_SEC in *.
    rewrite !Z.mod_small by lia. lia.
  - intros Hzero Hin. apply WriteDataToDiskLocked_skips. rewrite Hzero.
    unfold to_uint64, WRITE_DATA_COOL_DOWN_SEC, NS_PER_SEC in *.
    rewrite !Z.mod_small by lia. lia.
Qed.

(** A write at 20 s after one at 0: it is made; a write 5 s later is not. *)
Lemma WriteDataToDiskLocked_cool_down_witness :
  let env := Sample.env 100 true true Sample.no_answer in
  let p := Sample.processor {[Sample.key1 := Sample.growing]} ∅ in
  let r := WriteDataToDiskLocked env DEVICE_SHUTDOWN FAST (20 * NS_PER_SEC) 0 p in
  mLastWriteTimeNs (state_of r) = 20 * NS_PER_SEC
  ∧ WriteDataToDiskLocked env DEVICE_SHUTDOWN FAST (25 * NS_PER_SEC) 0 (state_of r)
    = (tt, state_of r, []).
Proof.
  intros env p r.
  destruct (WriteDataToDiskLocked_cool_down
              Sample.Manager Sample.Manager Sample.manager env DEVICE_SHUTDOWN FAST
              (20 * NS_PER_SEC) 0 p) as (_ & Hwrite & Hnext & _).
  split.
  - apply Hwrite. by vm_compute.
  - apply Hnext; [by vm_compute | by vm_compute | by vm_compute |].
    split; by vm_compute.
Defined.

Section DiskAnnouncement.
  Context {M C : Type} `{!MetricsManager M C} `{!StatsdStats}.
  Implicit Types (p s : State M) (env : Env C) (key k : ConfigKey) (m : M).

Lemma WriteDataToDiskLocked_key_written env key ts wall reason latency p m :
    mMetricsManagers p !! key = Some m →
    shouldWriteToDisk m = true →
    hasRestrictedMetricsDelegate m = false →
    let r := WriteDataToDiskLocked_key env key ts wall reason latency p in
    mOnDiskDataConfigs (state_of r) = {[key]} ∪ mOnDiskDataConfigs p
    ∧ mMetricsManagers (state_of r)
      = <[key := onDumpReport ts wall true true latency m]> (mMetricsManagers p)
    ∧ pacing (state_of r) = pacing p
    ∧ last (effects r) = Some (StorageManager_writeDataFile (getWallClockSec env) key).
  Proof.
    intros Hm Hw Hr. unfold WriteDataToDiskLocked_key, onConfigMetricsReportLocked,
      setManager. run_proc. rewrite Hm, Hw. cbn [negb]. rewrite Hr. run_proc.
    rewrite Hm, Hr. run_proc.
    destruct (bool_decide (getNumMetrics _ > 0));
      destruct (shouldPersistLocalHistory _); destruct p; cbn; done.
  Qed.

Lemma WriteDataToDiskLocked_key_not_written env key ts wall reason latency p :
    match mMetricsManagers p !! key with
    | Some m => shouldWriteToDisk m = false ∨ hasRestrictedMetricsDelegate m = true
    | None => True
    end →
    mOnDiskDataConfigs
      (state_of (WriteDataToDiskLocked_key env key ts wall reason latency p))
    = mOnDiskDataConfigs p.
  Proof.
    intros Hnot. unfold WriteDataToDiskLocked_key, setManager. run_proc.
    destruct (mMetricsManagers p !! key) as [m|]; [|done].
    destruct (shouldWriteToDisk m); cbn [negb]; [|done].
    destruct Hnot as [?|Hr]; [done|]. rewrite Hr. by destruct p.
  Qed.

Lemma flushIfNecessaryLocked_announces env key m s :
    byteSize_check_due env key s →
    hasRestrictedMetricsDelegate m = false →
    (byteSize m ≤ getMaxMetricsBytes m)%N →
    key ∈ mOnDiskDataConfigs s →
    (∀ last, mLastBroadcastTimes s !! key = Some last →
             kMinBroadcastPeriodNs ≤ getElapsedRealtimeNs env - last) →
    let r := flushIfNecessaryLocked env key m s in
    effects r = call_mSendBroadcast key (mSendBroadcast env key)
                :: (if mSendBroadcast env key
                    then [StatsdStats_noteBroadcastSent key] else [])
    ∧ (mSendBroadcast env key = true → key ∉ mOnDiskDataConfigs (state_of r)).
  Proof.
    intros Hdue Hr Hmax Hdisk Hopen r. subst r.
    unfold flushIfNecessaryLocked. run_proc.
    rewrite (byteSize_check_runs env key s Hdue), Hr.
    rewrite (bool_decide_eq_false_2 (getMaxMetricsBytes m < byteSize m)%N) by lia.
    rewrite (bool_decide_eq_true_2 (key ∈ mOnDiskDataConfigs s)) by done.
    rewrite orb_true_r. cbn beta iota zeta. rewrite Hr.
    assert (Hwin : match mLastBroadcastTimes s !! key with
                   | Some lastBroadcastTime =>
                       bool_decide (getElapsedRealtimeNs env - lastBroadcastTime
                                    < kMinBroadcastPeriodNs)
                   | None => false
                   end = false).
    { destruct (mLastBroadcastTimes s !! key) as [last|]; [|done].
      apply bool_decide_eq_false_2. specialize (Hopen last eq_refl). lia. }
    destruct s; cbn in Hwin |- *. rewrite Hwin.
    destruct (mSendBroadcast env key); cbn; (split; [done|]); [|done].
    intros _. rewrite elem_of_difference, elem_of_singleton. tauto.
  Qed.
End DiskAnnouncement.

(** X13.  Data written to disk is announced.  [WriteDataToDiskLocked(key)]
    on a manager that is to be written and has no restricted delegate dumps
    the manager with its data erased, writes the data file last, and puts the
    key among the keys with data on disk, without moving any time that paces
    checks or broadcasts; for a key without manager, a manager that is not
    to be written or a restricted one the set of keys stays.  With a key in
    that set, the next [flushIfNecessaryLocked] whose byte-size check is due,
    for an unrestricted manager within its limit and with no data-ready
    broadcast of the key in the last [kMinBroadcastPeriodNs], invokes the
    broadcast callback however few bytes the manager holds, and a delivered
    broadcast takes the key out of the set. *)
Theorem WriteDataToDiskLocked_key_marks_data_for_broadcast :
  ∀ (M C : Type) (MM : MetricsManager M C) (SS : StatsdStats) (env : Env C)
    (key : ConfigKey) (timestampNs wallClockNs : Z) (reason : DumpReportReason)
    (latency : DumpLatency) (p : State M),
    let r := WriteDataToDiskLocked_key env key timestampNs wallClockNs reason
               latency p in
    (∀ m, mMetricsManagers p !! key = Some m →
          shouldWriteToDisk m = true →
          hasRestrictedMetricsDelegate m = false →
          mOnDiskDataConfigs (state_of r) = {[key]} ∪ mOnDiskDataConfigs p
          ∧ mMetricsManagers (state_of r)
            = <[key := onDumpReport timestampNs wallClockNs true true latency m]>
                (mMetricsManagers p)
          ∧ pacing (state_of r) = pacing p
          ∧ last (effects r)
            = Some (StorageManager_writeDataFile (getWallClockSec env) key))
    ∧ (match mMetricsManagers p !! key with
       | Some m => shouldWriteToDisk m = false
                   ∨ hasRestrictedMetricsDelegate m = true
       | None => True
       end → mOnDiskDataConfigs (state_of r) = mOnDiskDataConfigs p)
    ∧ (∀ (env' : Env C) (m' : M) (s : State M),
         key ∈ mOnDiskDataConfigs s →
         byteSize_check_due env' key s →
         hasRestrictedMetricsDelegate m' = false →
         (byteSize m' ≤ getMaxMetricsBytes m')%N →
         (∀ last, mLastBroadcastTimes s !! key = Some last →
                  kMinBroadcastPeriodNs ≤ getElapsedRealtimeNs env' - last) →
         let f := flushIfNecessaryLocked env' key m' s in
         effects f = call_mSendBroadcast key (mSendBroadcast env' key)
                     :: (if mSendBroadcast env' key
                         then [StatsdStats_noteBroadcastSent key] else [])
         ∧ (mSendBroadcast env' key = true →
            key ∉ mOnDiskDataConfigs (state_of f))).
Proof.
  intros M C MM SS env key ts wall reason latency p r. subst r.
  split; [|split].
  - intros m Hm Hw Hr. by apply WriteDataToDiskLocked_key_written.
  - apply WriteDataToDiskLocked_key_not_written.
  - intros env' m' s Hdisk Hdue Hr Hmax Hopen.
    by apply flushIfNecessaryLocked_announces.
Qed.

(** A manager of 10 bytes, far below its trigger of 500: once its data is
    written to disk, the next check sends the data-ready broadcast. *)
Lemma WriteDataToDiskLocked_key_marks_data_for_broadcast_witness :
  let env := Sample.env 100 true true Sample.no_answer in
  let m := Sample.mkManager 10 1000 500 0 None true 0 true in
  let p := Sample.processor {[Sample.key1 := m]} ∅ in
  let s := state_of (WriteDataToDiskLocked_key env Sample.key1 100 100
                       CONFIG_UPDATED NO_TIME_CONSTRAINTS p) in
  Sample.key1 ∈ mOnDiskDataConfigs s
  ∧ effects (flushIfNecessaryLocked env Sample.key1 m s)
    = [call_mSendBroadcast Sample.key1 true;
       StatsdStats_noteBroadcastSent Sample.key1].
Proof.
  intros env m p s.
  destruct (WriteDataToDiskLocked_key_marks_data_for_broadcast
              Sample.Manager Sample.Manager Sample.manager Sample.constants
              env Sample.key1 100 100 CONFIG_UPDATED NO_TIME_CONSTRAINTS p)
    as (Hwritten & _ & Hflush).
  destruct (Hwritten m) as (Hdisk & _); [done..|]. fold s in Hdisk.
  assert (Hin : Sample.key1 ∈ mOnDiskDataConfigs s)
    by (rewrite Hdisk; apply elem_of_union_l; by apply elem_of_singleton).
  split; [exact Hin|].
  destruct (Hflush env m s) as [Heff _]; [done | | done | done | | exact Heff].
  - intros last Hlast. by vm_compute in Hlast.
  - intros last Hlast. by vm_compute in Hlast.
Defined.

Section QuietSteps.
  Context {S X K : Type}.
  Variable f : S → X.
  Variable obs : Effect → option K.

Lemma omap_quiet es : Forall (λ e, obs e = None) es → omap obs es = [].
  Proof.
    induction 1 as [|e es He _ IH]; [done|]. cbn. by rewrite He.
  Qed.

  (** Stepping over a computation that keeps [f] and shows nothing. *)
Lemma wp_quiet_bind {A B} (x : X) (m : Proc S A) (k : A → Proc S B)
      (G : X → list K → Prop) s :
    frames f (λ e, obs e = None) m → f s = x →
    (∀ a s', f s' = x → wp (k a) (λ _ s2 es, G (f s2) (omap obs es)) s') →
    wp (m ≫= k) (λ _ s2 es, G (f s2) (omap obs es)) s.
  Proof.
    intros Hm Hs Hk. apply wp_bind. eapply wp_frames; [exact Hm|].
    intros a s' es Hs' Hes. cbn beta. eapply wp_conseq; [apply Hk; congruence|].
    intros b s2 es2 HG. cbn beta. by rewrite omap_app, (omap_quiet es Hes).
  Qed.

Lemma wp_quiet {A} (m : Proc S A) (G : X → list K → Prop) s :
    frames f (λ e, obs e = None) m → G (f s) [] →
    wp m (λ _ s2 es, G (f s2) (omap obs es)) s.
  Proof.
    intros Hm HG. eapply wp_frames; [exact Hm|].
    intros a s' es Hs' Hes. by rewrite Hs', (omap_quiet es Hes).
  Qed.

Lemma wp_bind_obs {A B} (m : Proc S A) (k : A → Proc S B)
      (G : X → list K → Prop) s :
    wp m (λ a s1 e1,
            wp (k a) (λ _ s2 e2, G (f s2) (omap obs e1 ++ omap obs e2)) s1) s →
    wp (m ≫= k) (λ _ s2 es, G (f s2) (omap obs es)) s.
  Proof.
    intros H. apply wp_bind. eapply wp_conseq; [exact H|].
    intros a s1 e1 Hk. cbn beta in *. eapply wp_conseq; [exact Hk|].
    intros b s2 e2 HG. cbn beta in *. by rewrite omap_app.
  Qed.
End QuietSteps.

Section DispatchFrames.
  Context {M C : Type} `{!MetricsManager M C} `{!StatsdStats} `{!AtomsProto}.
  Context {X : Type}.
  Variable f : State M → X.
  Variable ok : Effect → Prop.
  Hypothesis f_managers : ∀ g s, f (set_mMetricsManagers g s) = f s.
  Hypothesis f_byteSize : ∀ g s, f (set_mLastByteSizeTimes g s) = f s.
  Hypothesis f_broadcast : ∀ g s, f (set_mLastBroadcastTimes g s) = f s.
  Hypothesis f_onDisk : ∀ g s, f (set_mOnDiskDataConfigs g s) = f s.
  Hypothesis f_activation : ∀ g s, f (set_mLastActivationBroadcastTimes g s) = f s.
  Hypothesis ok_dispatch : ∀ e, dispatch_call e → ok e.
  Hypothesis ok_flush : ∀ key, ok (MetricsManager_flushRestrictedData key).

Lemma sendActivationBroadcasts_frames (env : Env C) elapsed perUid uids :
    frames f ok (sendActivationBroadcasts (M:=M) env elapsed perUid uids).
  Proof.
    induction uids as [|uid uids IH]; cbn [sendActivationBroadcasts].
    - apply frames_ret.
    - frames_auto; try (by apply ok_dispatch); try (intros ?; apply f_activation).
  Qed.

  (** What follows the validation in [OnLogEvent] touches the managers and
      the pacing of checks and broadcasts only, and makes dispatch calls
      only. *)
Lemma OnLogEvent_dispatch_frames (env : Env C) elapsed
      (prepared : option LogEvent) :
    frames f ok
      (match prepared with
       | None => mret tt
       | Some event =>
           p ← get;
           acc ← foldM (managerKeys p) (mkActiveConfigs ∅ ∅)
                       (passEventToManager (M:=M) env event);
           sendActivationBroadcasts env elapsed (activeConfigsPerUid acc)
             (elements (uidsWithActiveConfigsChanged acc))
       end).
  Proof.
    destruct prepared as [event|]; [|apply frames_ret].
    apply frames_bind; [apply frames_get | intros p].
    apply frames_bind; [| intros acc; apply sendActivationBroadcasts_frames].
    apply frames_foldM. intros key acc.
    unfold passEventToManager, flushIfNecessaryLocked, setManager.
    frames_auto; try (by apply ok_dispatch); try apply ok_flush;
      first [ intros ?; apply f_managers | intros ?; apply f_byteSize
            | intros ?; apply f_broadcast | intros ?; apply f_onDisk ].
  Qed.

  (** A property of the part [f] and of the calls observed that holds of
      [OnLogEvent] up to the validation holds of the whole call. *)
Lemma OnLogEvent_from_prepare {K} (obs : Effect → option K)
      (env : Env C) event elapsed (G : X → list K → Prop) p :
    (∀ e, ok e → obs e = None) →
    wp (OnLogEvent_prepare env event elapsed)
       (λ _ s es, G (f s) (omap obs es)) p →
    wp (OnLogEvent env event elapsed) (λ _ s es, G (f s) (omap obs es)) p.
  Proof.
    intros Hok Hprep. unfold OnLogEvent. apply wp_bind_obs.
    eapply wp_conseq; [exact Hprep|]. intros prepared s1 e1 HG. cbn beta.
    eapply wp_frames; [apply (OnLogEvent_dispatch_frames env elapsed prepared)|].
    intros a s2 e2 Hs He. rewrite Hs.
    rewrite (omap_quiet obs e2), app_nil_r; [done|].
    eapply Forall_impl; [exact He | exact Hok].
  Qed.
End DispatchFrames.

Section DbGuardrails.
  Context {M C : Type} `{!MetricsManager M C} `{!StatsdStats} `{!AtomsProto}.
  Implicit Types (p s : State M) (env : Env C) (event : LogEvent).

Lemma OnLogEvent_prepare_db_guardrails env event elapsed p :
    wp (OnLogEvent_prepare env event elapsed)
       (λ _ s es,
          (λ x o, paced kMinDbGuardrailEnforcementPeriodNs elapsed
                        (Some (mLastDbGuardrailEnforcementTime p)) (Some x) o tt)
            (mLastDbGuardrailEnforcementTime s) (omap db_guardrail_run es)) p.
  Proof.
    set (G := λ x o, paced kMinDbGuardrailEnforcementPeriodNs elapsed
                          (Some (mLastDbGuardrailEnforcementTime p)) (Some x) o tt).
    pose (quiet := λ A B m k, @wp_quiet_bind (State M) Z unit
                                mLastDbGuardrailEnforcementTime db_guardrail_run A B
                                (mLastDbGuardrailEnforcementTime p) m k G).
    pose (quiet_end := λ A, @wp_quiet (State M) Z unit
                              mLastDbGuardrailEnforcementTime db_guardrail_run A).
    unfold OnLogEvent_prepare.
    apply quiet; [by apply frames_emit | done | intros _ s1 H1].
    destruct (mValid event); cbn [negb].
    2: { apply quiet; [by apply frames_emit | done | intros _ s2 H2].
         apply wp_ret. rewrite H2. by left. }
    do 4 (apply quiet;
          [ frames_unfold; frames_auto; try (intros []; reflexivity); done
          | done | clear dependent s1; intros ? s1 H1 ]).
    apply quiet; [by apply frames_emit | done | clear dependent s1; intros _ s1 H1].
    apply quiet; [apply frames_get | done | clear dependent s1; intros p1 s1 H1].
    destruct (bool_decide (mMetricsManagers p1 = ∅)).
    { apply wp_ret. rewrite H1. by left. }
    do 5 (apply quiet;
          [ frames_unfold; frames_auto; try (intros []; reflexivity); done
          | done | clear dependent s1; intros ? s1 H1 ]).
    apply (wp_bind_obs mLastDbGuardrailEnforcementTime db_guardrail_run _ _ G).
    unfold enforceDbGuardrailsIfNecessaryLocked.
    wp_step. wp_step. rewrite H1. case_bool_decide as Hwin.
    - wp_step. cbn [omap app].
      apply (quiet_end _ _ G).
      + frames_auto.
      + rewrite H1. by left.
    - wp_step. wp_step. wp_step. cbn [omap app db_guardrail_run].
      apply (quiet_end _ _ (λ x o, G x (tt :: o))).
      + frames_auto.
      + right. split; [done|]. split; [by destruct s1|].
        intros last [= <-]. lia.
  Qed.

Lemma filter_unit (l : list unit) : filter (λ k, k = tt) l = l.
  Proof.
    induction l as [|[] l IH]; [done|]. by rewrite filter_cons_True, IH.
  Qed.

Lemma OnLogEvent_db_guardrails_paced (c : Call C) p :
    paced kMinDbGuardrailEnforcementPeriodNs (call_elapsedRealtimeNs c)
          (Some (mLastDbGuardrailEnforcementTime p))
          (Some (mLastDbGuardrailEnforcementTime (OnLogEvent_step c p).1))
          (filter (λ k, k = tt) (db_guardrail_runs (OnLogEvent_step c p).2)) tt.
  Proof.
    rewrite filter_unit. unfold OnLogEvent_step, db_guardrail_runs.
    cbn [fst snd].
    apply (OnLogEvent_from_prepare mLastDbGuardrailEnforcementTime
             (λ e, dispatch_call e ∨ ∃ key, e = MetricsManager_flushRestrictedData key)
             (λ _ s, ltac:(by destruct s)) (λ _ s, ltac:(by destruct s))
             (λ _ s, ltac:(by destruct s)) (λ _ s, ltac:(by destruct s))
             (λ _ s, ltac:(by destruct s))
             (λ e He, or_introl He) (λ key, or_intror (ex_intro _ key eq_refl))
             db_guardrail_run (call_env c) (call_event c) (call_elapsedRealtimeNs c)
             (λ x o, paced kMinDbGuardrailEnforcementPeriodNs
                           (call_elapsedRealtimeNs c)
                           (Some (mLastDbGuardrailEnforcementTime p)) (Some x) o tt)).
    - intros e [He | [key ->]]; [by destruct e | done].
    - apply OnLogEvent_prepare_db_guardrails.
  Qed.
End DbGuardrails.

(** X14.  In a run of calls of [OnLogEvent], with a period that is not
    negative, [StorageManager::enforceDbGuardrails] is invoked at most once
    per call, and two calls that invoke it have [elapsedRealtimeNs]
    arguments at least [kMinDbGuardrailEnforcementPeriodNs] apart. *)
Theorem OnLogEvent_enforces_db_guardrails_once_per_period :
  ∀ (M C : Type) (MM : MetricsManager M C) (SS : StatsdStats) (AP : AtomsProto)
    (calls : list (Call C)) (p : State M),
    0 ≤ kMinDbGuardrailEnforcementPeriodNs →
    separated kMinDbGuardrailEnforcementPeriodNs call_elapsedRealtimeNs
              db_guardrail_runs (run_OnLogEvent calls p) tt.
Proof.
  intros M C MM SS AP calls p Hpos. unfold run_OnLogEvent.
  apply (run_separated OnLogEvent_step call_elapsedRealtimeNs
           (λ s, Some (mLastDbGuardrailEnforcementTime s))); [done|].
  intros c s. apply OnLogEvent_db_guardrails_paced.
Qed.

(** Three events half an hour apart, with a period of one hour and the last
    enforcement on record at 0: the guardrails are enforced at the second
    event and no more at the third. *)
Lemma OnLogEvent_enforces_db_guardrails_once_per_period_witness :
  let env t := Sample.env t true true Sample.no_answer in
  let call t := mkCall (env t) (Sample.event 10 t []) t in
  let calls := [call (1800 * NS_PER_SEC); call (3600 * NS_PER_SEC);
                call (5400 * NS_PER_SEC)] in
  let trace := run_OnLogEvent calls
                 (Sample.processor {[Sample.key1 := Sample.growing]} ∅) in
  (db_guardrail_runs ∘ snd) <$> trace = [[]; [tt]; []]
  ∧ separated kMinDbGuardrailEnforcementPeriodNs call_elapsedRealtimeNs
              db_guardrail_runs trace tt.
Proof.
  intros env call calls trace. split; [by vm_compute|].
  apply (OnLogEvent_enforces_db_guardrails_once_per_period
           Sample.Manager Sample.Manager Sample.manager Sample.constants
           Sample.atoms calls). by vm_compute.
Defined.

Section LoopFacts.
  Context {S A X : Type}.

  (** A loop over distinct indices whose body rewrites the slice of its own
      index as a function of what it finds there. *)
Lemma forM_slices (sl : A → S → X) (step : A → X → X) (body : A → Proc S unit) :
    (∀ x s, wp (body x)
               (λ _ s' _, (∀ k, k ≠ x → sl k s' = sl k s)
                          ∧ sl x s' = step x (sl x s)) s) →
    ∀ l s, NoDup l →
      wp (forM_ l body)
         (λ _ s' _, (∀ k, k ∉ l → sl k s' = sl k s)
                    ∧ ∀ x, x ∈ l → sl x s' = step x (sl x s)) s.
  Proof.
    intros Hbody l. induction l as [|x l IH]; intros s Hnd.
    - cbn. apply wp_ret. split; [done|]. intros x Hx. inversion Hx.
    - cbn [forM_]. apply NoDup_cons in Hnd as [Hx Hnd]. apply wp_bind.
      eapply wp_conseq; [apply Hbody|]. intros _ s1 _ [Hoth Hown]. cbn beta.
      eapply wp_conseq; [apply (IH s1 Hnd)|].
      intros _ s2 _ [Hoth2 Hown2]. cbn beta. split.
      + intros k Hk. apply not_elem_of_cons in Hk as [Hkx Hkl].
        rewrite Hoth2 by done. by apply Hoth.
      + intros y Hy. apply elem_of_cons in Hy as [-> | Hy].
        * by rewrite (Hoth2 x Hx).
        * rewrite (Hown2 y Hy). f_equal. apply Hoth. intros ->. done.
  Qed.
End LoopFacts.

Section ResetConfigs.
  Context {M C : Type} `{!MetricsManager M C} `{!StatsdStats} `{!AtomsProto}.
  Implicit Types (p s : State M) (env : Env C) (key k : ConfigKey) (m : M).

Lemma OnConfigUpdatedLocked_timeBase env ts key config modularUpdate :
    frames (λ s : State M, set_mMetricsManagers (λ _, ∅) s) (λ _, True)
           (OnConfigUpdatedLocked env ts key config modularUpdate).
  Proof.
    unfold OnConfigUpdatedLocked, setManager, updateLogEventFilterLocked.
    frames_auto; intros []; reflexivity.
  Qed.

  (** One pass of [resetConfigsLocked], on the manager of its key. *)
Lemma resetConfigsLocked_pass env ts key s :
    wp (emit (StorageManager_readConfigFromDisk key);;
        match readConfigFromDisk env key with
        | Some config =>
            OnConfigUpdatedLocked env ts key config false;;
            emit (StatsdStats_noteConfigReset key)
        | None =>
            p ← get;
            match mMetricsManagers p !! key with
            | Some m => setManager key (refreshTtl ts m)
            | None => mret tt
            end
        end)
       (λ _ s' _,
          (∀ k, k ≠ key →
                (mMetricsManagers s' !! k, set_mMetricsManagers (λ _, ∅) s')
                = (mMetricsManagers s !! k, set_mMetricsManagers (λ _, ∅) s))
          ∧ (mMetricsManagers s' !! key, set_mMetricsManagers (λ _, ∅) s')
            = (match readConfigFromDisk env key with
               | Some config =>
                   let built := newMetricsManager key config (mTimeBaseNs s) ts in
                   if isConfigValid built
                   then Some (refreshTtl ts (init built)) else None
               | None => refreshTtl ts <$> mMetricsManagers s !! key
               end, set_mMetricsManagers (λ _, ∅) s)) s.
  Proof.
    wp_step. wp_step. destruct (readConfigFromDisk env key) as [config|].
    - apply wp_bind.
      pose proof (OnConfigUpdatedLocked_key env ts key config false s) as Hkey.
      pose proof (OnConfigUpdatedLocked_timeBase env ts key config false s) as [Hsh _].
      assert (Hoth := λ k Hk, OnConfigUpdatedLocked_other env ts key config false s k Hk).
      unfold wp at 1.
      set (r := OnConfigUpdatedLocked env ts key config false s) in *.
      wp_step. split.
      + intros k Hk. by rewrite (Hoth k Hk), Hsh.
      + rewrite Hkey, Hsh. f_equal.
        unfold config_validated, updates_in_place.
        destruct (mMetricsManagers s !! key); cbn [andb];
          by destruct (isConfigValid _).
    - wp_step. wp_step. destruct (mMetricsManagers s !! key) as [m|] eqn:Hm.
      + unfold setManager. wp_step. split.
        * intros k Hk. destruct s; cbn. by rewrite lookup_insert_ne.
        * destruct s; cbn. by rewrite lookup_insert_eq.
      + wp_step. split; [done|]. by rewrite Hm.
  Qed.

Lemma timeBase_shared s s' :
    set_mMetricsManagers (λ _, ∅) s' = set_mMetricsManagers (λ _, ∅) s →
    mTimeBaseNs s' = mTimeBaseNs s.
  Proof. destruct s, s'. by intros [=]. Qed.

Lemma resetConfigsLocked_all_spec env ts p :
    let s := state_of (resetConfigsLocked_all env ts p) in
    set_mMetricsManagers (λ _, ∅) s = set_mMetricsManagers (λ _, ∅) p
    ∧ ∀ key,
        mMetricsManagers s !! key
        = match mMetricsManagers p !! key with
          | None => None
          | Some m =>
              match readConfigFromDisk env key with
              | Some config =>
                  let built := newMetricsManager key config (mTimeBaseNs p) ts in
                  if isConfigValid built
                  then Some (refreshTtl ts (init built)) else None
              | None => Some (refreshTtl ts m)
              end
          end.
  Proof.
    change (wp (resetConfigsLocked_all env ts)
              (λ _ s _,
                 set_mMetricsManagers (λ _, ∅) s = set_mMetricsManagers (λ _, ∅) p
                 ∧ ∀ key,
                     mMetricsManagers s !! key
                     = match mMetricsManagers p !! key with
                       | None => None
                       | Some m =>
                           match readConfigFromDisk env key with
                           | Some config =>
                               let built := newMetricsManager key config
                                              (mTimeBaseNs p) ts in
                               if isConfigValid built
                               then Some (refreshTtl ts (init built)) else None
                           | None => Some (refreshTtl ts m)
                           end
                       end) p).
    unfold resetConfigsLocked_all, resetConfigsLocked. wp_step. wp_step.
    eapply wp_conseq.
    - apply (forM_slices
               (λ k (s : State M),
                  (mMetricsManagers s !! k, set_mMetricsManagers (λ _, ∅) s))
               (λ k (x : option M * State M),
                  (match readConfigFromDisk env k with
                   | Some config =>
                       let built := newMetricsManager k config (mTimeBaseNs x.2) ts in
                       if isConfigValid built
                       then Some (refreshTtl ts (init built)) else None
                   | None => refreshTtl ts <$> x.1
                   end, x.2))).
      + intros k s. eapply wp_conseq; [apply resetConfigsLocked_pass|].
        intros _ s' _ [Hoth Hown]. split; [exact Hoth|]. rewrite Hown. cbn [fst snd].
        f_equal. by destruct s.
      + apply managerKeys_NoDup.
    - intros _ s _ [Hout Hin]. cbn beta in *.
      assert (Hsh : set_mMetricsManagers (λ _, ∅) s = set_mMetricsManagers (λ _, ∅) p).
      { destruct (managerKeys p) as [|k0 l] eqn:Hkeys.
        - assert (Hk : mkConfigKey 0 0 ∉ managerKeys p) by (rewrite Hkeys; inversion 1).
          rewrite <- Hkeys in Hout. specialize (Hout _ Hk). by injection Hout.
        - assert (Hk : k0 ∈ managerKeys p) by (rewrite Hkeys; by left).
          rewrite <- Hkeys in Hin. specialize (Hin _ Hk). by injection Hin. }
      split; [exact Hsh|]. intros key.
      destruct (mMetricsManagers p !! key) as [m|] eqn:Hm.
      + assert (Hk : key ∈ managerKeys p) by (apply elem_of_managerKeys; eauto).
        specialize (Hin key Hk). injection Hin as Hin _. rewrite Hin, Hm.
        cbn [fst snd fmap option_fmap option_map].
        destruct (readConfigFromDisk env key); [|done].
        by destruct p.
      + assert (Hk : key ∉ managerKeys p).
        { rewrite elem_of_managerKeys, Hm. by intros [? ?]. }
        specialize (Hout key Hk). injection Hout as Hout _. by rewrite Hout.
  Qed.

Lemma resetIfConfigTtlExpiredLocked_in_ttl env eventTimeNs p :
    (∀ key m, mMetricsManagers p !! key = Some m → isInTtl eventTimeNs m = true) →
    resetIfConfigTtlExpiredLocked env eventTimeNs p = (tt, p, []).
  Proof.
    intros Hall. unfold resetIfConfigTtlExpiredLocked. run_proc.
    assert (Hnone : filter (λ km : ConfigKey * M, isInTtl eventTimeNs km.2 = false)
                           (map_to_list (mMetricsManagers p)) = []).
    { assert (Hin : ∀ km, km ∈ map_to_list (mMetricsManagers p) →
                          isInTtl eventTimeNs km.2 = true).
      { intros [k m] Hin. apply elem_of_map_to_list in Hin. by apply (Hall k m). }
      induction (map_to_list (mMetricsManagers p)) as [|km l IH]; [done|].
      rewrite filter_cons_False.
      - apply IH. intros km' Hkm'. apply Hin. by right.
      - rewrite (Hin km) by (by left). done. }
    by rewrite Hnone.
  Qed.
End ResetConfigs.


Section RestrictedMaintenance.
  Context {M C : Type} `{!MetricsManager M C} `{!StatsdStats}.
  Implicit Types (p s : State M) (env : Env C) (key k : ConfigKey) (m : M).

  (** A loop over the keys of the managers whose pass for a key applies [g]
      to the manager of that key and touches nothing else. *)
Lemma for_all_managers (g : M → M) (body : ConfigKey → Proc (State M) unit) p :
    (∀ k s, wp (body k)
               (λ _ s' _,
                  (∀ k', k' ≠ k →
                     (mMetricsManagers s' !! k', set_mMetricsManagers (λ _, ∅) s')
                     = (mMetricsManagers s !! k', set_mMetricsManagers (λ _, ∅) s))
                  ∧ (mMetricsManagers s' !! k, set_mMetricsManagers (λ _, ∅) s')
                    = (g <$> mMetricsManagers s !! k,
                       set_mMetricsManagers (λ _, ∅) s)) s) →
    wp (forM_ (managerKeys p) body)
       (λ _ s _, set_mMetricsManagers (λ _, ∅) s = set_mMetricsManagers (λ _, ∅) p
                 ∧ ∀ key, mMetricsManagers s !! key = g <$> mMetricsManagers p !! key)
       p.
  Proof.
    intros Hbody. eapply wp_conseq.
    - apply (forM_slices
               (λ k (s : State M),
                  (mMetricsManagers s !! k, set_mMetricsManagers (λ _, ∅) s))
               (λ k (x : option M * State M), (g <$> x.1, x.2)));
        [|apply managerKeys_NoDup].
      intros k s. apply Hbody.
    - intros _ s _ [Hout Hin]. cbn beta in *.
      assert (Hsh : set_mMetricsManagers (λ _, ∅) s = set_mMetricsManagers (λ _, ∅) p).
      { destruct (managerKeys p) as [|k0 l] eqn:Hkeys.
        - assert (Hk : mkConfigKey 0 0 ∉ managerKeys p) by (rewrite Hkeys; inversion 1).
          rewrite <- Hkeys in Hout. specialize (Hout _ Hk). by injection Hout.
        - assert (Hk : k0 ∈ managerKeys p) by (rewrite Hkeys; by left).
          rewrite <- Hkeys in Hin. specialize (Hin _ Hk). by injection Hin. }
      split; [exact Hsh|]. intros key.
      destruct (mMetricsManagers p !! key) as [m|] eqn:Hm.
      + assert (Hk : key ∈ managerKeys p) by (apply elem_of_managerKeys; eauto).
        specialize (Hin key Hk). injection Hin as Hin _. by rewrite Hin, Hm.
      + assert (Hk : key ∉ managerKeys p).
        { rewrite elem_of_managerKeys, Hm. by intros [? ?]. }
        specialize (Hout key Hk). injection Hout as Hout _. by rewrite Hout.
  Qed.

Lemma flushRestrictedDataLocked_state elapsed p :
    let s := state_of (flushRestrictedDataLocked elapsed p) in
    set_mMetricsManagers (λ _, mMetricsManagers p) s
    = set_mLastFlushRestrictedTime elapsed p
    ∧ ∀ key, mMetricsManagers s !! key
             = flushRestrictedData <$> mMetricsManagers p !! key.
  Proof.
    change (wp (flushRestrictedDataLocked elapsed)
              (λ _ s _, set_mMetricsManagers (λ _, mMetricsManagers p) s
                        = set_mLastFlushRestrictedTime elapsed p
                        ∧ ∀ key, mMetricsManagers s !! key
                                 = flushRestrictedData <$> mMetricsManagers p !! key)
              p).
    unfold flushRestrictedDataLocked. wp_step. wp_step. apply wp_bind.
    eapply wp_conseq; [apply (for_all_managers flushRestrictedData)|].
    - intros k s. wp_step. wp_step.
      destruct (mMetricsManagers s !! k) as [m|] eqn:Hm.
      + wp_step. wp_step. unfold setManager. wp_step. split.
        * intros k' Hk. destruct s; cbn. by rewrite lookup_insert_ne.
        * destruct s; cbn. by rewrite lookup_insert_eq.
      + wp_step. split; [done|]. by rewrite Hm.
    - intros _ s _ [Hsh Hkeys]. cbn beta. wp_step. split.
      + destruct s, p; cbn in *. congruence.
      + intros key. rewrite <- Hkeys. by destruct s.
  Qed.

Lemma enforceDataTtlsLocked_state wall elapsed p :
    let s := state_of (enforceDataTtlsLocked wall elapsed p) in
    set_mMetricsManagers (λ _, mMetricsManagers p) s
    = set_mLastTtlTime elapsed p
    ∧ ∀ key, mMetricsManagers s !! key
             = enforceRestrictedDataTtls wall <$> mMetricsManagers p !! key.
  Proof.
    change (wp (enforceDataTtlsLocked wall elapsed)
              (λ _ s _, set_mMetricsManagers (λ _, mMetricsManagers p) s
                        = set_mLastTtlTime elapsed p
                        ∧ ∀ key, mMetricsManagers s !! key
                                 = enforceRestrictedDataTtls wall
                                     <$> mMetricsManagers p !! key)
              p).
    unfold enforceDataTtlsLocked. wp_step. wp_step. apply wp_bind.
    eapply wp_conseq; [apply (for_all_managers (enforceRestrictedDataTtls wall))|].
    - intros k s. wp_step. wp_step.
      destruct (mMetricsManagers s !! k) as [m|] eqn:Hm.
      + unfold setManager. wp_step. split.
        * intros k' Hk. destruct s; cbn. by rewrite lookup_insert_ne.
        * destruct s; cbn. by rewrite lookup_insert_eq.
      + wp_step. split; [done|]. by rewrite Hm.
    - intros _ s _ [Hsh Hkeys]. cbn beta. wp_step. split.
      + destruct s, p; cbn in *. congruence.
      + intros key. rewrite <- Hkeys. by destruct s.
  Qed.
End RestrictedMaintenance.

(** X17.  Periodic maintenance of restricted data.  Before Android U, or
    sooner than the minimal period after the last pass,
    [flushRestrictedDataIfNecessaryLocked] and
    [enforceDataTtlsIfNecessaryLocked] do nothing and make no call.
    Otherwise the pass visits every manager once: each manager is replaced
    by the result of [flushRestrictedData] (of [enforceRestrictedDataTtls]
    at the wall clock time), no key is added or lost, the time of the last
    pass becomes the elapsed time given, and no other member changes.
    [EnforceDataTtls] runs the same pass from Android U on, whatever the
    time of the last pass, and does nothing before. *)
Theorem restricted_data_maintenance_visits_every_manager_when_due :
  ∀ (M C : Type) (MM : MetricsManager M C) (SS : StatsdStats) (env : Env C)
    (wallClockNs elapsedRealtimeNs : Z) (p : State M),
    let f := flushRestrictedDataIfNecessaryLocked env elapsedRealtimeNs p in
    let e := enforceDataTtlsIfNecessaryLocked env wallClockNs elapsedRealtimeNs p in
    let d := EnforceDataTtls env wallClockNs elapsedRealtimeNs p in
    (if isAtLeastU env
        && bool_decide (kMinFlushRestrictedPeriodNs
                        ≤ elapsedRealtimeNs - mLastFlushRestrictedTime p)
     then set_mMetricsManagers (λ _, mMetricsManagers p) (state_of f)
          = set_mLastFlushRestrictedTime elapsedRealtimeNs p
          ∧ ∀ key, mMetricsManagers (state_of f) !! key
                   = flushRestrictedData <$> mMetricsManagers p !! key
     else f = (tt, p, []))
    ∧ (if isAtLeastU env
          && bool_decide (kMinTtlCheckPeriodNs ≤ elapsedRealtimeNs - mLastTtlTime p)
       then set_mMetricsManagers (λ _, mMetricsManagers p) (state_of e)
            = set_mLastTtlTime elapsedRealtimeNs p
            ∧ ∀ key, mMetricsManagers (state_of e) !! key
                     = enforceRestrictedDataTtls wallClockNs
                         <$> mMetricsManagers p !! key
       else e = (tt, p, []))
    ∧ (if isAtLeastU env
       then set_mMetricsManagers (λ _, mMetricsManagers p) (state_of d)
            = set_mLastTtlTime elapsedRealtimeNs p
            ∧ ∀ key, mMetricsManagers (state_of d) !! key
                     = enforceRestrictedDataTtls wallClockNs
                         <$> mMetricsManagers p !! key
       else d = (tt, p, [])).
Proof.
  intros M C MM SS env wall elapsed p f e d. subst f e d.
  unfold flushRestrictedDataIfNecessaryLocked, enforceDataTtlsIfNecessaryLocked,
    EnforceDataTtls.
  destruct (isAtLeastU env); cbn [negb andb]; [|done].
  split; [|split].
  - rewrite bind_run. change (get p) with (p, p, @nil Effect).
    unfold result, state_of, effects; cbn [fst snd].
    case_bool_decide; case_bool_decide; try lia; [|done].
    cbn [fst snd]. apply flushRestrictedDataLocked_state.
  - rewrite bind_run. change (get p) with (p, p, @nil Effect).
    unfold result, state_of, effects; cbn [fst snd].
    case_bool_decide; case_bool_decide; try lia; [|done].
    cbn [fst snd]. apply enforceDataTtlsLocked_state.
  - apply enforceDataTtlsLocked_state.
Qed.


Section QueryDatabase.
  Context {M C : Type} `{!MetricsManager M C} `{!StatsdStats}.
  Implicit Types (p s : State M) (env : Env C) (key k : ConfigKey) (m : M).

Lemma flushRestrictedDataLocked_no_query t :
    frames (λ _ : State M, tt) (λ e, db_query e = None)
           (flushRestrictedDataLocked t).
  Proof. unfold flushRestrictedDataLocked, setManager. frames_auto. Qed.

Lemma enforceDataTtlsLocked_no_query wall t :
    frames (λ _ : State M, tt) (λ e, db_query e = None)
           (enforceDataTtlsLocked wall t).
  Proof. unfold enforceDataTtlsLocked, setManager. frames_auto. Qed.

  (** [querySql] without a query of the database. *)
Lemma querySql_no_query env sqlQuery minSqlClientVersion configId
      configPackage callingUid indeterminate p :
    let configPackageUids : gset Z :=
      match sAidToUidMapping env configPackage with
      | Some uid => {[uid]}
      | None => getAppUid env configPackage
      end in
    let keys := (getRestrictedConfigKeysToQueryLocked p callingUid configId
                   configPackageUids EmptyString indeterminate).1.1 in
    isAtLeastU env = false ∨ getDbVersion env < minSqlClientVersion
    ∨ size keys ≠ 1%nat →
    wp (querySql env sqlQuery minSqlClientVersion configId configPackage
          callingUid indeterminate)
       (λ _ s es, db_queries es = [] ∧ s = p) p.
  Proof.
    intros uids keys Hno. unfold querySql.
    destruct (isAtLeastU env) eqn:HU; cbn [negb]; [|by wp_step].
    case_bool_decide as Hv; [by do 2 wp_step|].
    destruct Hno as [? | [? | Hsize]]; [done | lia |].
    wp_step. wp_step. fold uids.
    destruct (getRestrictedConfigKeysToQueryLocked p callingUid configId uids
                EmptyString indeterminate) as [[ks err] reason] eqn:Hk.
    subst keys. cbn [fst snd] in Hsize. unfold size, set_size in Hsize.
    cbn in Hsize.
    destruct (elements ks) as [|k1 [|k2 l]]; [by do 2 wp_step | done |].
    by do 2 wp_step.
  Qed.

  (** [querySql] with one key to query. *)
Lemma querySql_one_query env sqlQuery minSqlClientVersion configId
      configPackage callingUid indeterminate p key :
    let configPackageUids : gset Z :=
      match sAidToUidMapping env configPackage with
      | Some uid => {[uid]}
      | None => getAppUid env configPackage
      end in
    let keys := (getRestrictedConfigKeysToQueryLocked p callingUid configId
                   configPackageUids EmptyString indeterminate).1.1 in
    isAtLeastU env = true → minSqlClientVersion ≤ getDbVersion env →
    keys = {[key]} →
    wp (querySql env sqlQuery minSqlClientVersion configId configPackage
          callingUid indeterminate)
       (λ _ s es,
          db_queries es = [(key, sqlQuery)]
          ∧ s = state_of (enforceDataTtlsLocked (getWallClockNs env)
                            (getElapsedRealtimeNs env)
                            (state_of (flushRestrictedDataLocked
                                         (getElapsedRealtimeNs env) p)))) p.
  Proof.
    intros uids keys HU Hv Hkeys. unfold querySql. rewrite HU. cbn [negb].
    case_bool_decide; [lia|].
    wp_step. wp_step. fold uids.
    destruct (getRestrictedConfigKeysToQueryLocked p callingUid configId uids
                EmptyString indeterminate) as [[ks err] reason] eqn:Hk.
    subst keys. cbn [fst snd] in Hkeys. subst ks. rewrite elements_singleton.
    apply wp_bind. unfold wp at 1.
    pose proof (flushRestrictedDataLocked_no_query (getElapsedRealtimeNs env) p)
      as [_ Hq1].
    set (r1 := flushRestrictedDataLocked (getElapsedRealtimeNs env) p) in *.
    apply wp_bind. unfold wp at 1.
    pose proof (enforceDataTtlsLocked_no_query (getWallClockNs env)
                  (getElapsedRealtimeNs env) (state_of r1)) as [_ Hq2].
    set (r2 := enforceDataTtlsLocked (getWallClockNs env)
                 (getElapsedRealtimeNs env) (state_of r1)) in *.
    wp_step. wp_step.
    eapply (wp_frames id (λ e, db_query e = None)).
    { unfold when. frames_auto. }
    intros _ s' es Hs' Hes. unfold id in Hs'. split; [|done].
    unfold db_queries. rewrite !omap_app.
    rewrite (omap_quiet db_query _ Hq1), (omap_quiet db_query _ Hq2),
      (omap_quiet db_query _ Hes).
    reflexivity.
  Qed.
End QueryDatabase.

(** X18.  The database of restricted metrics in [querySql].  The database
    is queried only from Android U on, with a supported sqlite version, and
    when exactly one configuration key matches the id, the package and the
    calling delegate; it is then queried once, for that key and with the
    query given, after the restricted data of every manager was flushed and
    its TTLs enforced, both passes being recorded at the elapsed time.  In
    every other case no query is made and the processor is left as it
    was. *)
Theorem querySql_queries_database_once_for_single_key :
  ∀ (M C : Type) (MM : MetricsManager M C) (env : Env C)
    (sqlQuery : string) (minSqlClientVersion configId : Z)
    (configPackage : string) (callingUid : Z) (indeterminate : InvalidQueryReason)
    (p : State M),
    let r := querySql env sqlQuery minSqlClientVersion configId configPackage
               callingUid indeterminate p in
    let configPackageUids : gset Z :=
      match sAidToUidMapping env configPackage with
      | Some uid => {[uid]}
      | None => getAppUid env configPackage
      end in
    let keys := (getRestrictedConfigKeysToQueryLocked p callingUid configId
                   configPackageUids EmptyString indeterminate).1.1 in
    (isAtLeastU env = false ∨ getDbVersion env < minSqlClientVersion
     ∨ size keys ≠ 1%nat →
     db_queries (effects r) = [] ∧ state_of r = p)
    ∧ (isAtLeastU env = true → minSqlClientVersion ≤ getDbVersion env →
       ∀ key, keys = {[key]} →
         db_queries (effects r) = [(key, sqlQuery)]
         ∧ set_mMetricsManagers (λ _, mMetricsManagers p) (state_of r)
           = set_mLastTtlTime (getElapsedRealtimeNs env)
               (set_mLastFlushRestrictedTime (getElapsedRealtimeNs env) p)
         ∧ ∀ k, mMetricsManagers (state_of r) !! k
                = enforceRestrictedDataTtls (getWallClockNs env)
                    <$> (flushRestrictedData <$> mMetricsManagers p !! k)).
Proof.
  intros M C MM env sqlQuery minV configId configPackage callingUid indet p
    r uids keys.
  split.
  - intros Hno. exact (querySql_no_query env sqlQuery minV configId configPackage
                         callingUid indet p Hno).
  - intros HU Hv key Hkeys.
    destruct (querySql_one_query env sqlQuery minV configId configPackage
                callingUid indet p key HU Hv Hkeys) as [Hq Hs].
    split; [exact Hq|]. fold r in Hs. rewrite Hs.
    destruct (flushRestrictedDataLocked_state (getElapsedRealtimeNs env) p)
      as [Hf1 Hf2].
    set (s1 := state_of (flushRestrictedDataLocked (getElapsedRealtimeNs env) p))
      in *.
    destruct (enforceDataTtlsLocked_state (getWallClockNs env)
                (getElapsedRealtimeNs env) s1) as [He1 He2].
    set (s2 := state_of (enforceDataTtlsLocked (getWallClockNs env)
                           (getElapsedRealtimeNs env) s1)) in *.
    split.
    + rewrite <- Hf1.
      apply (f_equal (set_mMetricsManagers (λ _, mMetricsManagers p))) in He1.
      destruct s1, s2, p; cbn in *. congruence.
    + intros k. by rewrite He2, Hf2.
Qed.

(** One configuration of uid 1000 and a query for it: the database is asked
    once, for that key. *)
Lemma querySql_queries_database_once_for_single_key_witness :
  db_queries
    (effects (querySql (Sample.env 100 true true sample_answer) "SELECT 1" 1 1
                "package" 1000 UNKNOWN_REASON sample_query_processor))
  = [(Sample.key1, "SELECT 1"%string)].
Proof.
  destruct (querySql_queries_database_once_for_single_key
              Sample.Manager Sample.Manager Sample.manager
              (Sample.env 100 true true sample_answer) "SELECT 1" 1 1
              "package" 1000 UNKNOWN_REASON sample_query_processor)
    as [_ H].
  destruct (H eq_refl ltac:(by vm_compute) Sample.key1) as [Hq _].
  - by vm_compute.
  - exact Hq.
Defined.

Section FlushCases.
  Context {M C : Type} `{!MetricsManager M C} `{!StatsdStats}.
  Implicit Types (p : State M) (m : M) (env : Env C) (key : ConfigKey).

Lemma flushIfNecessaryLocked_not_due env key m p last :
    mLastByteSizeTimes p !! key = Some last →
    getElapsedRealtimeNs env - last < kMinByteSizeCheckPeriodNs →
    flushIfNecessaryLocked env key m p = (m, p, []).
  Proof.
    intros Hlast Hsoon. unfold flushIfNecessaryLocked. run_proc.
    rewrite Hlast. by rewrite bool_decide_eq_true_2.
  Qed.

Lemma flushIfNecessaryLocked_restricted env key m p :
    hasRestrictedMetricsDelegate m = true →
    let r := flushIfNecessaryLocked env key m p in
    Forall (λ e, ∀ sent, e ≠ call_mSendBroadcast key sent) (effects r)
    ∧ mLastBroadcastTimes (state_of r) = mLastBroadcastTimes p
    ∧ mOnDiskDataConfigs (state_of r) = mOnDiskDataConfigs p.
  Proof.
    intros Hr. cbn zeta. unfold flushIfNecessaryLocked. run_proc.
    destruct (match mLastByteSizeTimes p !! key with
              | Some t => bool_decide (getElapsedRealtimeNs env - t
                                       < kMinByteSizeCheckPeriodNs)
              | None => false end); [cbn; by destruct p|].
    case_bool_decide; cbn -[bool_decide].
    { split; [|by destruct p]. repeat constructor; by intros ?. }
    rewrite Hr.
    destruct (_ || _); cbn -[bool_decide]; rewrite ?Hr; cbn;
      (split; [|by destruct p]); repeat constructor; by intros ?.
  Qed.

Lemma flushIfNecessaryLocked_failed_broadcast env key m p :
    mSendBroadcast env key = false →
    let r := flushIfNecessaryLocked env key m p in
    mLastBroadcastTimes (state_of r) = mLastBroadcastTimes p
    ∧ mOnDiskDataConfigs (state_of r) = mOnDiskDataConfigs p.
  Proof.
    intros Hs. cbn zeta. unfold flushIfNecessaryLocked. run_proc.
    destruct (match mLastByteSizeTimes p !! key with
              | Some t => bool_decide (getElapsedRealtimeNs env - t
                                       < kMinByteSizeCheckPeriodNs)
              | None => false end); [cbn; by destruct p|].
    case_bool_decide; cbn -[bool_decide]; [by destruct p|].
    destruct (_ || _); cbn -[bool_decide]; [|by destruct p].
    destruct (hasRestrictedMetricsDelegate m); cbn -[bool_decide]; [by destruct p|].
    destruct (match mLastBroadcastTimes p !! key with
              | Some t => bool_decide (getElapsedRealtimeNs env - t
                                       < kMinBroadcastPeriodNs)
              | None => false end); cbn -[bool_decide]; [by destruct p|].
    rewrite Hs. cbn. by destruct p.
  Qed.
End FlushCases.

(** X19.  The quiet cases of [flushIfNecessaryLocked].  A call sooner than
    [kMinByteSizeCheckPeriodNs] after the last check of the key returns at
    once: nothing is recorded, called or changed.  When the check runs and
    the manager is within its limit, under its trigger size and has no data
    on disk, only the time of the check is recorded.  A manager with a
    restricted metrics delegate never leads to a data broadcast: above the
    trigger size of restricted configurations, or with data on disk, its
    restricted data is flushed, and neither the broadcast times nor the set
    of configurations with data on disk change.  A broadcast that the
    sender reports as failed is not recorded: the broadcast time of the key
    and its mark of data on disk stay as they were. *)
Theorem flushIfNecessaryLocked_checks_flushes_or_stays_quiet :
  ∀ (M C : Type) (MM : MetricsManager M C) (SS : StatsdStats)
    (env : Env C) (key : ConfigKey) (m : M) (p : State M),
    let now := getElapsedRealtimeNs env in
    let r := flushIfNecessaryLocked env key m p in
    let checked := set_mLastByteSizeTimes (insert key now) p in
    (∀ last, mLastByteSizeTimes p !! key = Some last →
             now - last < kMinByteSizeCheckPeriodNs → r = (m, p, []))
    ∧ (byteSize_check_due env key p →
       (byteSize m ≤ getMaxMetricsBytes m)%N →
       (byteSize m ≤ if hasRestrictedMetricsDelegate m
                     then kBytesPerRestrictedConfigTriggerFlush
                     else getTriggerGetDataBytes m)%N →
       key ∉ mOnDiskDataConfigs p →
       r = (m, checked, []))
    ∧ (byteSize_check_due env key p →
       (byteSize m ≤ getMaxMetricsBytes m)%N →
       hasRestrictedMetricsDelegate m = true →
       (kBytesPerRestrictedConfigTriggerFlush < byteSize m)%N
       ∨ key ∈ mOnDiskDataConfigs p →
       r = (flushRestrictedData m, checked,
            [MetricsManager_flushRestrictedData key]))
    ∧ (hasRestrictedMetricsDelegate m = true →
       (∀ sent, call_mSendBroadcast key sent ∉ effects r)
       ∧ mLastBroadcastTimes (state_of r) = mLastBroadcastTimes p
       ∧ mOnDiskDataConfigs (state_of r) = mOnDiskDataConfigs p)
    ∧ (mSendBroadcast env key = false →
       mLastBroadcastTimes (state_of r) = mLastBroadcastTimes p
       ∧ mOnDiskDataConfigs (state_of r) = mOnDiskDataConfigs p).
Proof.
  intros M C MM SS env key m p now r checked. subst now r checked.
  split; [|split; [|split; [|split]]].
  - intros last Hlast Hsoon.
    by apply (flushIfNecessaryLocked_not_due env key m p last).
  - intros Hdue Hmax Htrigger Hdisk. unfold flushIfNecessaryLocked. run_proc.
    rewrite (byteSize_check_runs env key p Hdue).
    rewrite (bool_decide_eq_false_2 (getMaxMetricsBytes m < byteSize m)%N) by lia.
    rewrite (bool_decide_eq_false_2 (key ∈ mOnDiskDataConfigs p)) by done.
    rewrite bool_decide_eq_false_2 by lia. reflexivity.
  - intros Hdue Hmax Hr Hwhy. unfold flushIfNecessaryLocked. run_proc.
    rewrite (byteSize_check_runs env key p Hdue).
    rewrite (bool_decide_eq_false_2 (getMaxMetricsBytes m < byteSize m)%N) by lia.
    rewrite Hr.
    assert (bool_decide (kBytesPerRestrictedConfigTriggerFlush < byteSize m)%N
            || bool_decide (key ∈ mOnDiskDataConfigs p) = true) as ->.
    { destruct Hwhy as [Hw | Hw].
      - by rewrite (bool_decide_eq_true_2 _ Hw).
      - rewrite (bool_decide_eq_true_2 _ Hw). apply orb_true_r. }
    rewrite Hr. reflexivity.
  - intros Hr.
    destruct (flushIfNecessaryLocked_restricted env key m p Hr) as (Hlog & Hb & Hd).
    split; [|done]. intros sent Hin.
    rewrite Forall_forall in Hlog. by apply (Hlog _ Hin sent).
  - apply flushIfNecessaryLocked_failed_broadcast.
Qed.

(** A restricted manager above the trigger size of restricted
    configurations: its data is flushed and no broadcast is sent. *)
Lemma flushIfNecessaryLocked_checks_flushes_or_stays_quiet_witness :
  let m := Sample.mkManager 30000 100000 500 600 (Some "delegate"%string)
             true 0 true in
  let env := Sample.env 100 true true Sample.no_answer in
  let p := Sample.processor {[Sample.key1 := m]} ∅ in
  flushIfNecessaryLocked env Sample.key1 m p
  = (Sample.with_bytes 0 m, set_mLastByteSizeTimes (insert Sample.key1 100) p,
     [MetricsManager_flushRestrictedData Sample.key1]).
Proof.
  intros m env p.
  destruct (flushIfNecessaryLocked_checks_flushes_or_stays_quiet
              Sample.Manager Sample.Manager Sample.manager Sample.constants
              env Sample.key1 m p) as (_ & _ & H & _).
  apply H.
  - intros last Hlast. by vm_compute in Hlast.
  - by vm_compute.
  - reflexivity.
  - left. by vm_compute.
Defined.

Ltac config_cases :=
  unfold wp, setManager, updateLogEventFilterLocked; run_proc;
  repeat (cbn;
          match goal with
          | |- context [isAtLeastU ?x] => destruct (isAtLeastU x) eqn:?
          | |- context [has_restricted_metrics_delegate_package_name ?x] =>
              destruct (has_restricted_metrics_delegate_package_name x) eqn:?
          | |- context [hasRestrictedMetricsDelegate ?x] =>
              destruct (hasRestrictedMetricsDelegate x) eqn:?
          | |- context [updateDeviceInfoTable ?x ?k] =>
              destruct (updateDeviceInfoTable x k)
          | |- context [if ?c then _ else _] =>
              match c with
              | context [?b] =>
                  is_var b; match type of b with bool => destruct b end
              end
          end);
  cbn; repeat split; first [reflexivity | congruence].

Section ConfigCalls.
  Context {M C : Type} `{!MetricsManager M C}.
  Implicit Types (p : State M) (m : M) (env : Env C) (key : ConfigKey) (config : C).

Lemma OnConfigUpdatedLocked_calls env ts key config modularUpdate p :
    let r := OnConfigUpdatedLocked env ts key config modularUpdate p in
    let validated := config_validated env p ts key config modularUpdate in
    let in_place := updates_in_place env p key config modularUpdate in
    uid_map_calls (effects r)
    = [if validated && negb (has_restricted_metrics_delegate_package_name config)
       then UidMap_OnConfigUpdated key else UidMap_OnConfigRemoved key]
    ∧ db_deletions (effects r)
      = match mMetricsManagers p !! key with
        | Some m => if isAtLeastU env && negb in_place
                       && hasRestrictedMetricsDelegate m
                    then [key] else []
        | None => []
        end
        ++ match manager_before_erasure env p ts key config modularUpdate with
           | Some m' => if negb validated && isAtLeastU env
                           && hasRestrictedMetricsDelegate m'
                        then [key] else []
           | None => []
           end
    ∧ last (effects r) = Some LogEventFilter_setAtomIds.
  Proof.
    cbn zeta.
    match goal with
    | |- _ = ?u ∧ _ = ?d ∧ _ =>
        change (wp (OnConfigUpdatedLocked env ts key config modularUpdate)
                  (λ _ _ es, uid_map_calls es = u ∧ db_deletions es = d
                             ∧ last es = Some LogEventFilter_setAtomIds) p)
    end.
    unfold OnConfigUpdatedLocked, config_validated, manager_before_erasure.
    wp_step. wp_step.
    destruct (mMetricsManagers p !! key) as [m|] eqn:Hm.
    - rewrite (updates_in_place_code env p key config modularUpdate m Hm).
      destruct (updates_in_place env p key config modularUpdate) eqn:Hmu.
      + destruct (updateConfig config (mTimeBaseNs p) ts m) as [v m'] eqn:Hup.
        cbn [fst snd]. config_cases.
      + destruct (isConfigValid (newMetricsManager key config (mTimeBaseNs p) ts))
          eqn:Hv; config_cases.
    - destruct (isConfigValid (newMetricsManager key config (mTimeBaseNs p) ts))
        eqn:Hv; config_cases.
  Qed.
End ConfigCalls.

(** X20.  The calls of [OnConfigUpdatedLocked] on the uid map, the database
    and the event filter.  Every update tells the uid map once:
    [OnConfigUpdated] for the key when the configuration validated and names
    no restricted metrics delegate, [OnConfigRemoved] otherwise.  The
    restricted database of the key is deleted, from Android U on, when a
    manager with a restricted delegate is rebuilt instead of updated in
    place, and again when the configuration does not validate and the
    manager it erases has a restricted delegate; in no other case.  The
    last call of every update refreshes the atom ids of the event filter. *)
Theorem OnConfigUpdatedLocked_uid_map_database_and_filter_calls :
  ∀ (M C : Type) (MM : MetricsManager M C) (env : Env C)
    (timestampNs : Z) (key : ConfigKey) (config : C) (modularUpdate : bool)
    (p : State M),
    let r := OnConfigUpdatedLocked env timestampNs key config modularUpdate p in
    let validated := config_validated env p timestampNs key config modularUpdate in
    let in_place := updates_in_place env p key config modularUpdate in
    uid_map_calls (effects r)
    = [if validated && negb (has_restricted_metrics_delegate_package_name config)
       then UidMap_OnConfigUpdated key else UidMap_OnConfigRemoved key]
    ∧ db_deletions (effects r)
      = match mMetricsManagers p !! key with
        | Some m => if isAtLeastU env && negb in_place
                       && hasRestrictedMetricsDelegate m
                    then [key] else []
        | None => []
        end
        ++ match manager_before_erasure env p timestampNs key config
                   modularUpdate with
           | Some m' => if negb validated && isAtLeastU env
                           && hasRestrictedMetricsDelegate m'
                        then [key] else []
           | None => []
           end
    ∧ last (effects r) = Some LogEventFilter_setAtomIds.
Proof.
  intros M C MM env ts key config modularUpdate p.
  apply OnConfigUpdatedLocked_calls.
Qed.

Section BreadcrumbBounds.
  Context `{!StatsdStats}.

Lemma field_at_out_of_range event key :
    ¬ (1 ≤ key ≤ event_size event) → GetLong event key = (0, BAD_INDEX).
  Proof.
    intros Hk. unfold GetLong, field_at. by rewrite bool_decide_eq_false_2.
  Qed.

Lemma GetLong_short_event event :
    (length (mValues event) < 3)%nat →
    GetLong event (to_uint64 (event_size event - 2)) = (0, BAD_INDEX).
  Proof.
    intros Hlen. apply field_at_out_of_range. unfold event_size, to_uint64.
    destruct (mValues event) as [|v1 [|v2 [|v3 l]]];
      [ change (¬ (1 ≤ 18446744073709551614 ≤ 0))
      | change (¬ (1 ≤ 18446744073709551615 ≤ 1))
      | change (¬ (1 ≤ 0 ≤ 2))
      | cbn in Hlen ]; lia.
  Qed.
End BreadcrumbBounds.

(** X21.  Short breadcrumbs.  [validateAppBreadcrumbEvent] accepts every
    event of another atom.  An [APP_BREADCRUMB_REPORTED] event with fewer
    than three fields is rejected: the position [size - 2] of the uid is
    computed on [size_t], so it is 0 or wraps around, and no field is
    there. *)
Theorem validateAppBreadcrumbEvent_rejects_short_breadcrumbs :
  ∀ (SS : StatsdStats) (AP : AtomsProto) (isolated : gmap Z Z)
    (event : LogEvent),
    (atom_of_id (mTagId event) ≠ APP_BREADCRUMB_REPORTED →
     validateAppBreadcrumbEvent isolated event = true)
    ∧ (atom_of_id (mTagId event) = APP_BREADCRUMB_REPORTED →
       (length (mValues event) < 3)%nat →
       validateAppBreadcrumbEvent isolated event = false).
Proof.
  intros SS AP isolated event. split.
  - intros Hne. unfold validateAppBreadcrumbEvent.
    by rewrite bool_decide_eq_false_2.
  - intros Htag Hlen. unfold validateAppBreadcrumbEvent.
    rewrite bool_decide_eq_true_2 by done.
    by rewrite (GetLong_short_event event Hlen).
Qed.

(** A breadcrumb with two fields, a uid and a state in range, is rejected. *)
Lemma validateAppBreadcrumbEvent_rejects_short_breadcrumbs_witness :
  validateAppBreadcrumbEvent ∅ (Sample.event 47 0 [INT 1000; INT 1]) = false.
Proof.
  destruct (validateAppBreadcrumbEvent_rejects_short_breadcrumbs
              Sample.constants Sample.atoms ∅
              (Sample.event 47 0 [INT 1000; INT 1])) as [_ H].
  apply H; [reflexivity | cbn; lia].
Defined.
